(** * FireSat constellation engine (examples/firesat/satellites/main_constellation.py)

    A shallow embedding of the constellation state machine: the geometry
    helper [compute_min_elevation], the visibility checks [check_in_view] and
    [check_in_range], and the [Constellation] entity with its [__init__],
    [initialize], [tick], [tock], [on_fire] and [on_ground] methods.

    Python objects are modelled as the code has them: the per-fire detection
    and report records are dictionaries whose keys are the satellite names
    and a few field names, the ground registry is a pandas frame with a
    positional index, floats are an interface (numpy supplies the
    trigonometry), and skyfield is an external collaborator.  Methods run in
    a state-and-exception monad: an exception leaves the object as mutated
    so far. *)

(** The development also covers the sensor footprint [compute_sensor_radius]
    and the [PositionPublisher] of the same file, and the fire schedule of
    examples/firesat/fires/main_fire.py ([Environment.on_change]). *)

From stdpp Require Import base gmap list strings.
From Stdlib Require Import ZArith Reals Lra Lia.
From Stdlib Require PrimFloat Uint63.

(** ** Python values, dictionary keys and exceptions *)

Module Py.

(** Keys of the record dictionaries: satellite names are [str] in the class
    docstring and [int] (NORAD numbers) in the start-up script. *)
Inductive pykey := KStr (s : string) | KInt (z : Z).

#[global] Instance pykey_eq_dec : EqDecision pykey.
Proof. solve_decision. Defined.

#[global] Instance pykey_countable : Countable pykey.
Proof.
  refine (inj_countable'
            (fun k => match k with KStr s => inl s | KInt z => inr z end)
            (fun x => match x with inl s => KStr s | inr z => KInt z end) _).
  by intros [].
Defined.

(** Values stored in the record dictionaries; [VTime] is a [datetime]. *)
Inductive pyval :=
  | VNone
  | VBool (b : bool)
  | VInt (z : Z)
  | VStr (s : string)
  | VTime (t : Z).

#[global] Instance pyval_eq_dec : EqDecision pyval.
Proof. solve_decision. Defined.

#[global] Instance pyval_inhabited : Inhabited pyval := populate VNone.

(** [x is None] *)
Definition is_None (v : pyval) : bool :=
  match v with VNone => true | _ => false end.

(** Truth value of an object in an [if]. *)
Definition truthy (v : pyval) : bool :=
  match v with
  | VNone => false
  | VBool b => b
  | VInt z => negb (z =? 0)%Z
  | VStr s => negb (String.eqb s "")
  | VTime _ => true
  end.

(** A name used as a value ([firstDetector = self.names[i]]). *)
Definition val_of_key (k : pykey) : pyval :=
  match k with KStr s => VStr s | KInt z => VInt z end.

(** A value used as a subscript ([record[detector]]): [True] and [False]
    hash as 1 and 0; [None] and datetimes are keys of no record here. *)
Definition key_of_val (v : pyval) : option pykey :=
  match v with
  | VStr s => Some (KStr s)
  | VInt z => Some (KInt z)
  | VBool b => Some (KInt (if b then 1 else 0))
  | VNone | VTime _ => None
  end.

Inductive exn := IndexError | KeyError | AttributeError | TypeError.

Inductive res (A : Type) :=
  | Ok (a : A)
  | Raise (e : exn).
Arguments Ok {A} a.
Arguments Raise {A} e.

(** [dict.fromkeys(names)] *)
Definition fromkeys (names : list pykey) : gmap pykey pyval :=
  foldl (fun d n => <[n := VNone]> d) ∅ names.

(** [l[i]] *)
Definition list_getitem {A} (l : list A) (i : nat) : res A :=
  match l !! i with Some x => Ok x | None => Raise IndexError end.

(** [d[k]] *)
Definition dict_getitem (d : gmap pykey pyval) (k : pykey) : res pyval :=
  match d !! k with Some v => Ok v | None => Raise KeyError end.

(** [d[v]] where the subscript is itself a stored value. *)
Definition dict_getitem_val (d : gmap pykey pyval) (v : pyval) : res pyval :=
  match key_of_val v with
  | Some k => dict_getitem d k
  | None => Raise KeyError
  end.

End Py.
Export Py.

(** ** Floating-point numbers and numpy *)

(** The arithmetic the source performs on floats, with numpy's elementary
    functions.  [dec m e] is the literal [m]·10^-[e]. *)
Class PyNum (F : Type) := {
  dec : Z -> nat -> F;
  fadd : F -> F -> F;
  fmul : F -> F -> F;
  fdiv : F -> F -> F;
  fgt : F -> F -> bool;
  fge : F -> F -> bool;
  np_sin : F -> F;
  np_arccos : F -> F;
  np_radians : F -> F;
  np_degrees : F -> F;
}.

Module Geometry.
Section geometry.
Context {F : Type} `{PyNum F}.

(** [compute_min_elevation(altitude, field_of_regard)], lines 35-59. *)
Definition compute_min_elevation (altitude field_of_regard : F) : F :=
  let earth_equatorial_radius := dec 6378137000000000 9 in
  let earth_polar_radius := dec 6356752314245179 9 in
  let earth_mean_radius :=
    fdiv (fadd (fmul (dec 2 0) earth_equatorial_radius) earth_polar_radius)
         (dec 3 0) in
  let sin_eta := np_sin (np_radians (fdiv field_of_regard (dec 2 0))) in
  let sin_rho := fdiv earth_mean_radius (fadd earth_mean_radius altitude) in
  let cos_epsilon := fdiv sin_eta sin_rho in
  if fgt cos_epsilon (dec 1 0) then dec 0 1
  else np_degrees (np_arccos cos_epsilon).

End geometry.

(** Real-number reading of the floats: exact arithmetic, exact sine and
    arc cosine, [np.radians x = x·π/180] and [np.degrees x = x·180/π]. *)
#[export] Instance R_num : PyNum R := {|
  dec m e := (IZR m / IZR (10 ^ Z.of_nat e))%R;
  fadd := Rplus;
  fmul := Rmult;
  fdiv := Rdiv;
  fgt a b := if Rgt_dec a b then true else false;
  fge a b := if Rge_dec a b then true else false;
  np_sin := sin;
  np_arccos := acos;
  np_radians x := (x * (PI / 180))%R;
  np_degrees x := (x * (180 / PI))%R;
|}.

(** The mean earth radius of [compute_min_elevation], as a real. *)
Definition earth_mean_radius_R : R :=
  ((2 * 6378137 + 6356752314245179 / 1000000000) / 3)%R.

(** The grazing cosine [cos_epsilon] of [compute_min_elevation], as a real. *)
Definition cos_epsilon_R (altitude field_of_regard : R) : R :=
  (sin (field_of_regard / 2 * (PI / 180)) /
   (earth_mean_radius_R / (earth_mean_radius_R + altitude)))%R.

End Geometry.
Export Geometry.

(** ** The sensor footprint *)

(** The further float operations of [compute_sensor_radius]: subtraction,
    [<], and numpy's cosine and arc sine. *)
Class PyNumTrig (F : Type) `{PyNum F} := {
  fsub : F -> F -> F;
  flt : F -> F -> bool;
  np_cos : F -> F;
  np_arcsin : F -> F;
}.

Module SensorGeometry.
Section geometry.
Context {F : Type} `{PyNumTrig F}.

(** [compute_sensor_radius(altitude, min_elevation)], lines 62-85. *)
Definition compute_sensor_radius (altitude min_elevation : F) : F :=
  let earth_equatorial_radius := dec 63781370 1 in
  let earth_polar_radius := dec 6356752314245179 9 in
  let earth_mean_radius :=
    fdiv (fadd (fmul (dec 2 0) earth_equatorial_radius) earth_polar_radius)
         (dec 3 0) in
  let sin_rho := fdiv earth_mean_radius (fadd earth_mean_radius altitude) in
  let eta := np_degrees (np_arcsin (fmul (np_cos (np_radians min_elevation)) sin_rho)) in
  let sw_HalfAngle := fsub (fsub (dec 90 0) eta) min_elevation in
  if flt sw_HalfAngle (dec 0 1) then dec 0 1
  else fmul earth_mean_radius (np_radians sw_HalfAngle).

End geometry.

(** Real-number reading of the further operations. *)
#[export] Instance R_trig : PyNumTrig R := {|
  fsub := Rminus;
  flt a b := if Rlt_dec a b then true else false;
  np_cos := cos;
  np_arcsin := asin;
|}.

(** The angular radius of the earth seen from [altitude], as its sine:
    [sin_rho] of both geometry functions, as a real. *)
Definition sin_rho_R (altitude : R) : R :=
  (earth_mean_radius_R / (earth_mean_radius_R + altitude))%R.

(** The swath half angle [sw_HalfAngle] of [compute_sensor_radius], in
    degrees, as a real. *)
Definition sw_HalfAngle_R (altitude min_elevation : R) : R :=
  (90 - asin (cos (min_elevation * (PI / 180)) * sin_rho_R altitude) * (180 / PI)
   - min_elevation)%R.

End SensorGeometry.
Export SensorGeometry.

(** ** External collaborators *)

(** skyfield (satellites, positions, topocentric elevation), the pydantic
    messages and the configuration file, as the constellation consumes them.
    Scenario times ([datetime]) and durations ([timedelta]) are integers. *)
Class External := {
  float : Type;
  float_num :: PyNum float;
  (** [skyfield.api.EarthSatellite] objects *)
  Satellite : Type;
  (** a two-line element pair [tle[0], tle[1]] *)
  Tle : Type;
  (** [skyfield.toposlib.GeographicPosition] *)
  GeographicPosition : Type;
  (** [EarthSatellite(tle[0], tle[1], name, ts)] *)
  EarthSatellite : Tle -> pykey -> Satellite;
  (** [wgs84.subpoint(satellite.at(ts.from_datetime(t)))] *)
  subpoint_at : Satellite -> Z -> GeographicPosition;
  (** [wgs84.subpoint(satellite.at(satellite.epoch))] *)
  subpoint_at_epoch : Satellite -> GeographicPosition;
  (** [position.elevation.m] *)
  elevation_m : GeographicPosition -> float;
  (** [wgs84.latlon(latitude, longitude)] *)
  latlon : float -> float -> GeographicPosition;
  (** [(sat - loc).at(ts.from_datetime(t)).altaz()[0].degrees] *)
  altaz_degrees : Satellite -> GeographicPosition -> Z -> float;
  (** [config.rc.application_configuration["FIELD_OF_REGARD"]] *)
  FIELD_OF_REGARD : list float;
}.

Module Firesat.
Section model.
Context `{Ext : External}.

(** *** Messages and tables *)

(** [FireStarted] message; also the entry appended to [self.fires]. *)
Record FireStarted := {
  fireId : Z;
  start : Z;
  fire_latitude : float;
  fire_longitude : float;
}.

(** [GroundLocation] message; also a row of the [grounds] frame. *)
Record GroundLocation := {
  groundId : Z;
  latitude : float;
  longitude : float;
  elevAngle : float;
  operational : bool;
}.

(** The [grounds] frame: its rows in order.  The frame is created empty by
    [initialize] and only grows through [pd.concat(..., ignore_index=True)],
    so its index is the positional [RangeIndex] 0, 1, ..., n-1. *)
Definition DataFrame := list GroundLocation.

(** [grounds.iterrows()]: pairs of index label and row. *)
Definition iterrows (grounds : DataFrame) : list (nat * GroundLocation) :=
  imap (fun k ground => (k, ground)) grounds.

(** [key in grounds.groundId]: membership in a pandas Series tests the
    index labels, not the values. *)
Definition series_contains (grounds : DataFrame) (key : Z) : bool :=
  bool_decide (0 <= key < Z.of_nat (length grounds))%Z.

(** [grounds[grounds.groundId == key]]: a new frame holding the selected
    rows. *)
Definition mask_groundId (grounds : DataFrame) (key : Z) : DataFrame :=
  filter (fun ground => groundId ground = key) grounds.

Definition set_latitude (v : float) (frame : DataFrame) : DataFrame :=
  (fun g => {| groundId := groundId g; latitude := v; longitude := longitude g;
               elevAngle := elevAngle g; operational := operational g |}) <$> frame.
Definition set_longitude (v : float) (frame : DataFrame) : DataFrame :=
  (fun g => {| groundId := groundId g; latitude := latitude g; longitude := v;
               elevAngle := elevAngle g; operational := operational g |}) <$> frame.
Definition set_elevAngle (v : float) (frame : DataFrame) : DataFrame :=
  (fun g => {| groundId := groundId g; latitude := latitude g; longitude := longitude g;
               elevAngle := v; operational := operational g |}) <$> frame.
Definition set_operational (v : bool) (frame : DataFrame) : DataFrame :=
  (fun g => {| groundId := groundId g; latitude := latitude g; longitude := longitude g;
               elevAngle := elevAngle g; operational := v |}) <$> frame.

(** Notifications handed to the observers by [notify_observers]. *)
Inductive notification :=
  | FireDetected (fireId detected detected_by : pyval)
  | FireReported (fireId reported reported_by reported_to : pyval).

(** *** Geometry and visibility *)

(** [get_elevation_angle(t, sat, loc)], lines 88-105. *)
Definition get_elevation_angle (t : Z) (sat : Satellite) (loc : GeographicPosition) : float :=
  altaz_degrees sat loc t.

(** [check_in_view(t, satellite, topos, min_elevation)], lines 108-126. *)
Definition check_in_view (t : Z) (satellite : Satellite) (topos : GeographicPosition)
    (min_elevation : float) : bool :=
  let elevationFromFire := get_elevation_angle t satellite topos in
  if fge elevationFromFire min_elevation then true else false.

(** The [for ... in grounds.iterrows()] loop of [check_in_range], with its
    [break]. *)
Fixpoint check_in_range_rows (t : Z) (satellite : Satellite)
    (rows : list (nat * GroundLocation)) : bool * pyval :=
  match rows with
  | [] => (false, VNone)
  | (k, ground) :: rest =>
      if operational ground then
        let groundLatLon := latlon (latitude ground) (longitude ground) in
        let satelliteElevation := get_elevation_angle t satellite groundLatLon in
        if fge satelliteElevation (elevAngle ground)
        then (true, VInt (Z.of_nat k))
        else check_in_range_rows t satellite rest
      else check_in_range_rows t satellite rest
  end.

(** [check_in_range(t, satellite, grounds)], lines 129-155; [grounds] is
    [None] until [initialize] runs. *)
Definition check_in_range (t : Z) (satellite : Satellite) (grounds : option DataFrame)
    : res (bool * pyval) :=
  match grounds with
  | None => Raise AttributeError
  | Some frame => Ok (check_in_range_rows t satellite (iterrows frame))
  end.

(** *** The Constellation entity *)

Record Constellation := {
  names : list pykey;
  fires : list FireStarted;
  grounds : option DataFrame;
  satellites : list Satellite;
  detect : list (gmap pykey pyval);
  report : list (gmap pykey pyval);
  positions : list (option GeographicPosition);
  next_positions : list (option GeographicPosition);
  min_elevations_fire : list float;
  (** the clock of the [Entity] base class *)
  time : option Z;
  next_time : option Z;
  (** what the observers have received so far, oldest first *)
  notified : list notification;
}.

Definition with_fires (v : list FireStarted) (c : Constellation) : Constellation :=
  {| names := names c; fires := v; grounds := grounds c; satellites := satellites c;
     detect := detect c; report := report c; positions := positions c;
     next_positions := next_positions c; min_elevations_fire := min_elevations_fire c;
     time := time c; next_time := next_time c; notified := notified c |}.
Definition with_grounds (v : option DataFrame) (c : Constellation) : Constellation :=
  {| names := names c; fires := fires c; grounds := v; satellites := satellites c;
     detect := detect c; report := report c; positions := positions c;
     next_positions := next_positions c; min_elevations_fire := min_elevations_fire c;
     time := time c; next_time := next_time c; notified := notified c |}.
Definition with_detect (v : list (gmap pykey pyval)) (c : Constellation) : Constellation :=
  {| names := names c; fires := fires c; grounds := grounds c; satellites := satellites c;
     detect := v; report := report c; positions := positions c;
     next_positions := next_positions c; min_elevations_fire := min_elevations_fire c;
     time := time c; next_time := next_time c; notified := notified c |}.
Definition with_report (v : list (gmap pykey pyval)) (c : Constellation) : Constellation :=
  {| names := names c; fires := fires c; grounds := grounds c; satellites := satellites c;
     detect := detect c; report := v; positions := positions c;
     next_positions := next_positions c; min_elevations_fire := min_elevations_fire c;
     time := time c; next_time := next_time c; notified := notified c |}.
Definition with_positions (v : list (option GeographicPosition)) (c : Constellation)
    : Constellation :=
  {| names := names c; fires := fires c; grounds := grounds c; satellites := satellites c;
     detect := detect c; report := report c; positions := v;
     next_positions := next_positions c; min_elevations_fire := min_elevations_fire c;
     time := time c; next_time := next_time c; notified := notified c |}.
Definition with_next_positions (v : list (option GeographicPosition)) (c : Constellation)
    : Constellation :=
  {| names := names c; fires := fires c; grounds := grounds c; satellites := satellites c;
     detect := detect c; report := report c; positions := positions c;
     next_positions := v; min_elevations_fire := min_elevations_fire c;
     time := time c; next_time := next_time c; notified := notified c |}.
Definition with_min_elevations_fire (v : list float) (c : Constellation) : Constellation :=
  {| names := names c; fires := fires c; grounds := grounds c; satellites := satellites c;
     detect := detect c; report := report c; positions := positions c;
     next_positions := next_positions c; min_elevations_fire := v;
     time := time c; next_time := next_time c; notified := notified c |}.
Definition with_time (v : option Z) (c : Constellation) : Constellation :=
  {| names := names c; fires := fires c; grounds := grounds c; satellites := satellites c;
     detect := detect c; report := report c; positions := positions c;
     next_positions := next_positions c; min_elevations_fire := min_elevations_fire c;
     time := v; next_time := next_time c; notified := notified c |}.
Definition with_next_time (v : option Z) (c : Constellation) : Constellation :=
  {| names := names c; fires := fires c; grounds := grounds c; satellites := satellites c;
     detect := detect c; report := report c; positions := positions c;
     next_positions := next_positions c; min_elevations_fire := min_elevations_fire c;
     time := time c; next_time := v; notified := notified c |}.
Definition with_notified (v : list notification) (c : Constellation) : Constellation :=
  {| names := names c; fires := fires c; grounds := grounds c; satellites := satellites c;
     detect := detect c; report := report c; positions := positions c;
     next_positions := next_positions c; min_elevations_fire := min_elevations_fire c;
     time := time c; next_time := next_time c; notified := v |}.

(** *** Methods: state and exceptions *)

(** A method body: it reads and updates the object and returns or raises;
    the object is returned in both cases. *)
Definition M (A : Type) : Type := Constellation -> res A * Constellation.

Definition ret {A} (a : A) : M A := fun c => (Ok a, c).
Definition raise {A} (e : exn) : M A := fun c => (Raise e, c).
Definition bind {A B} (m : M A) (k : A -> M B) : M B :=
  fun c => match m c with
           | (Ok a, c') => k a c'
           | (Raise e, c') => (Raise e, c')
           end.
Definition gets {A} (f : Constellation -> A) : M A := fun c => (Ok (f c), c).
Definition modify (f : Constellation -> Constellation) : M unit := fun c => (Ok tt, f c).
Definition lift {A} (r : res A) : M A := fun c => (r, c).

Notation "x <- m ;; k" := (bind m (fun x => k))
  (at level 20, m at level 99, k at level 200, only parsing).
Notation "' p <- m ;; k" := (bind m (fun x => match x with p => k end))
  (at level 20, p pattern, m at level 99, k at level 200, only parsing).
Notation "m ;; k" := (bind m (fun _ => k))
  (at level 100, k at level 200, only parsing, right associativity).

(** [for i, x in enumerate(l): body], counting from [i]. *)
Fixpoint for_from {A} (i : nat) (l : list A) (body : nat -> A -> M unit) : M unit :=
  match l with
  | [] => ret tt
  | x :: rest => body i x ;; for_from (S i) rest body
  end.
Definition for_enumerate {A} (l : list A) (body : nat -> A -> M unit) : M unit :=
  for_from 0 l body.

(** [self.names[i]] *)
Definition names_getitem (i : nat) : M pykey :=
  ns <- gets names ;; lift (list_getitem ns i).

(** [self.detect[j][k]] *)
Definition detect_getitem (j : nat) (k : pykey) : M pyval :=
  ds <- gets detect ;; d <- lift (list_getitem ds j) ;; lift (dict_getitem d k).

(** [self.detect[j][k] = v]: the dictionary at index [j] is updated in
    place. *)
Definition detect_setitem (j : nat) (k : pykey) (v : pyval) : M unit :=
  ds <- gets detect ;; d <- lift (list_getitem ds j) ;;
  modify (with_detect (<[j := <[k := v]> d]> ds)).

(** [self.report[j][k]] *)
Definition report_getitem (j : nat) (k : pykey) : M pyval :=
  rs <- gets report ;; r <- lift (list_getitem rs j) ;; lift (dict_getitem r k).

(** [self.report[j][k] = v] *)
Definition report_setitem (j : nat) (k : pykey) (v : pyval) : M unit :=
  rs <- gets report ;; r <- lift (list_getitem rs j) ;;
  modify (with_report (<[j := <[k := v]> r]> rs)).

(** Modelled from the spec: the [Entity] base class (nost_tools.entity) is
    not under src/.  The spec gives it a simulation clock that [initialize]
    sets to the initial time and that [tock] advances to the time [tick]
    computed; [get_time] reads it.  Before [initialize] there is no time,
    and adding a duration to it raises. *)
Definition Entity_initialize (init_time : Z) : M unit :=
  modify (fun c => with_next_time (Some init_time) (with_time (Some init_time) c)).
Definition get_time_plus (time_step : Z) : M Z :=
  now <- gets time ;;
  match now with
  | Some t => ret (t + time_step)%Z
  | None => raise TypeError
  end.
Definition Entity_tick (time_step : Z) : M unit :=
  t <- get_time_plus time_step ;; modify (with_next_time (Some t)).
Definition Entity_tock : M unit :=
  modify (fun c => with_time (next_time c) c).

(** Modelled from the spec: [notify_observers] belongs to the [Observable]
    base class (nost_tools.observer), not under src/; delivery to the
    listeners is synchronous and ordered. *)
Definition notify_observers (n : notification) : M unit :=
  modify (fun c => with_notified (notified c ++ [n]) c).

(** [Constellation.__init__(cName, app, id, names, ES, tles)], lines 188-213.
    [cName], [app] and [id] take no part in the state machine. *)
Fixpoint init_tles (i : nat) (tles : list Tle) (names : list pykey)
    (satellites : list Satellite) : res (list Satellite) :=
  match tles with
  | [] => Ok satellites
  | tle :: rest =>
      match list_getitem names i with
      | Ok name => init_tles (S i) rest names (satellites ++ [EarthSatellite tle name])
      | Raise e => Raise e
      end
  end.

Fixpoint init_min_elevations (i : nat) (satellites : list Satellite) : res (list float) :=
  match satellites with
  | [] => Ok []
  | satellite :: rest =>
      match list_getitem FIELD_OF_REGARD i with
      | Ok field_of_regard =>
          let e := compute_min_elevation
                     (elevation_m (subpoint_at_epoch satellite)) field_of_regard in
          match init_min_elevations (S i) rest with
          | Ok es => Ok (e :: es)
          | Raise x => Raise x
          end
      | Raise x => Raise x
      end
  end.

Definition __init__ (names : list pykey) (ES : option (list Satellite))
    (tles : option (list Tle)) : res Constellation :=
  let satellites := [] in
  let satellites := match ES with Some sats => satellites ++ sats | None => satellites end in
  match (match tles with
         | Some l => init_tles 0 l names satellites
         | None => Ok satellites
         end) with
  | Raise e => Raise e
  | Ok satellites =>
      match init_min_elevations 0 satellites with
      | Raise e => Raise e
      | Ok min_elevations =>
          Ok {| names := names; fires := []; grounds := None;
                satellites := satellites; detect := []; report := [];
                positions := (fun _ => None) <$> satellites;
                next_positions := (fun _ => None) <$> satellites;
                min_elevations_fire := min_elevations;
                time := None; next_time := None; notified := [] |}
      end
  end.

(** [Constellation.initialize(init_time)], lines 215-235. *)
Definition initialize (init_time : Z) : M unit :=
  Entity_initialize init_time ;;
  modify (with_grounds (Some [])) ;;
  sats <- gets satellites ;;
  let ps := (fun satellite => Some (subpoint_at satellite init_time)) <$> sats in
  modify (fun c => with_positions ps (with_next_positions ps c)).

(** The body of the inner loop of [tick] for satellite [i] and fire [j]:
    the detection block, lines 259-269.  The guard of line 258 on the entry
    being [None] is commented out in the source, so the block runs for every
    pair. *)
Definition tick_fire_detect (time_step : Z) (i : nat) (satellite : Satellite) (then_ : Z)
    (j : nat) (fire : FireStarted) : M unit :=
  let topos := latlon (fire_latitude fire) (fire_longitude fire) in
  mins <- gets min_elevations_fire ;;
  min_elevation <- lift (list_getitem mins i) ;;
  let isInView := check_in_view then_ satellite topos min_elevation in
  if isInView then
    t <- get_time_plus time_step ;;
    name <- names_getitem i ;;
    detect_setitem j name (VTime t) ;;
    firstDetector <- detect_getitem j (KStr "firstDetector") ;;
    if is_None firstDetector then
      detect_setitem j (KStr "firstDetect") (VBool true) ;;
      name <- names_getitem i ;;
      detect_setitem j (KStr "firstDetector") (val_of_key name)
    else ret tt
  else ret tt.

(** The report block, lines 270-279. *)
Definition tick_fire_report (time_step : Z) (i : nat) (satellite : Satellite) (then_ : Z)
    (j : nat) : M unit :=
  name <- names_getitem i ;;
  detected <- detect_getitem j name ;;
  eligible <- (if negb (is_None detected) then
                 name <- names_getitem i ;;
                 reported <- report_getitem j name ;;
                 ret (is_None reported)
               else ret false) ;;
  if eligible : bool then
    g <- gets grounds ;;
    ' (isInRange, groundId) <- lift (check_in_range then_ satellite g) ;;
    if isInRange : bool then
      t <- get_time_plus time_step ;;
      name <- names_getitem i ;;
      report_setitem j name (VTime t) ;;
      firstReporter <- report_getitem j (KStr "firstReporter") ;;
      if is_None firstReporter then
        report_setitem j (KStr "firstReport") (VBool true) ;;
        name <- names_getitem i ;;
        report_setitem j (KStr "firstReporter") (val_of_key name) ;;
        report_setitem j (KStr "firstReportedTo") groundId
      else ret tt
    else ret tt
  else ret tt.

(** The whole body of the inner loop, lines 257-279. *)
Definition tick_fire (time_step : Z) (i : nat) (satellite : Satellite) (then_ : Z)
    (j : nat) (fire : FireStarted) : M unit :=
  tick_fire_detect time_step i satellite then_ j fire ;;
  tick_fire_report time_step i satellite then_ j.

(** The body of the outer loop of [tick], lines 251-279, for satellite [i]. *)
Definition tick_satellite (time_step : Z) (i : nat) (satellite : Satellite) : M unit :=
  then_ <- get_time_plus time_step ;;
  nps <- gets next_positions ;;
  np <- lift (list_getitem nps i) ;;
  altitude <- match np with
              | Some p => ret (elevation_m p)
              | None => raise AttributeError
              end ;;
  field_of_regard <- lift (list_getitem FIELD_OF_REGARD i) ;;
  mins <- gets min_elevations_fire ;;
  (if bool_decide (i < length mins) then
     modify (with_min_elevations_fire
               (<[i := compute_min_elevation altitude field_of_regard]> mins))
   else raise IndexError) ;;
  fs <- gets fires ;;
  for_enumerate fs (tick_fire time_step i satellite then_).

(** [Constellation.tick(time_step)], lines 237-279. *)
Definition tick (time_step : Z) : M unit :=
  Entity_tick time_step ;;
  t <- get_time_plus time_step ;;
  sats <- gets satellites ;;
  modify (with_next_positions
            ((fun satellite => Some (subpoint_at satellite t)) <$> sats)) ;;
  sats <- gets satellites ;;
  for_enumerate sats (tick_satellite time_step).

(** The first loop of [tock], lines 287-299.  The reset of [firstDetect]
    at line 299 is commented out in the source. *)
Definition tock_detected (i : nat) (newly_detected_fire : gmap pykey pyval) : M unit :=
  firstDetect <- lift (dict_getitem newly_detected_fire (KStr "firstDetect")) ;;
  if truthy firstDetect then
    detector <- lift (dict_getitem newly_detected_fire (KStr "firstDetector")) ;;
    fid <- lift (dict_getitem newly_detected_fire (KStr "fireId")) ;;
    detected <- lift (dict_getitem_val newly_detected_fire detector) ;;
    notify_observers (FireDetected fid detected detector)
  else ret tt.

(** The second loop of [tock], lines 300-313. *)
Definition tock_reported (i : nat) (newly_reported_fire : gmap pykey pyval) : M unit :=
  firstReport <- lift (dict_getitem newly_reported_fire (KStr "firstReport")) ;;
  (if truthy firstReport then
     reporter <- lift (dict_getitem newly_reported_fire (KStr "firstReporter")) ;;
     fid <- lift (dict_getitem newly_reported_fire (KStr "fireId")) ;;
     reported <- lift (dict_getitem_val newly_reported_fire reporter) ;;
     reported_to <- lift (dict_getitem newly_reported_fire (KStr "firstReportedTo")) ;;
     notify_observers (FireReported fid reported reporter reported_to)
   else ret tt) ;;
  report_setitem i (KStr "firstReport") (VBool false).

(** [Constellation.tock()], lines 281-314. *)
Definition tock : M unit :=
  modify (fun c => with_positions (next_positions c) c) ;;
  ds <- gets detect ;;
  for_enumerate ds tock_detected ;;
  rs <- gets report ;;
  for_enumerate rs tock_reported ;;
  Entity_tock.

(** [Constellation.on_fire(ch, method, properties, body)], lines 316-351;
    [started] is the validated [FireStarted] message. *)
Definition on_fire (started : FireStarted) : M unit :=
  modify (fun c => with_fires (fires c ++ [started]) c) ;;
  ns <- gets names ;;
  let satelliteDictionary := fromkeys ns in
  let satelliteDictionary := <[KStr "fireId" := VInt (fireId started)]> satelliteDictionary in
  let detectDictionary := satelliteDictionary in
  let detectDictionary := <[KStr "firstDetect" := VBool false]> detectDictionary in
  let detectDictionary := <[KStr "firstDetector" := VNone]> detectDictionary in
  modify (fun c => with_detect (detect c ++ [detectDictionary]) c) ;;
  let reportDictionary := satelliteDictionary in
  let reportDictionary := <[KStr "firstReport" := VBool false]> reportDictionary in
  let reportDictionary := <[KStr "firstReporter" := VNone]> reportDictionary in
  let reportDictionary := <[KStr "firstReportedTo" := VNone]> reportDictionary in
  modify (fun c => with_report (report c ++ [reportDictionary]) c).

(** [Constellation.on_ground(ch, method, properties, body)], lines 355-396;
    [location] is the validated [GroundLocation] message.  In the first
    branch each assignment sets a column of the frame that the boolean mask
    has just built, and that frame is dropped; [self.grounds] is not
    assigned. *)
Definition on_ground (location : GroundLocation) : M unit :=
  g <- gets grounds ;;
  match g with
  | None => raise AttributeError
  | Some frame =>
      if series_contains frame (groundId location) then
        let _ := set_latitude (latitude location)
                   (mask_groundId frame (groundId location)) in
        let _ := set_longitude (longitude location)
                   (mask_groundId frame (groundId location)) in
        let _ := set_elevAngle (elevAngle location)
                   (mask_groundId frame (groundId location)) in
        let _ := set_operational (operational location)
                   (mask_groundId frame (groundId location)) in
        ret tt
      else
        let new_data := [location] in
        modify (with_grounds (Some (frame ++ new_data)))
  end.

(** *** Runs *)

(** What the scheduler and the message callbacks can do to the entity. *)
Inductive operation :=
  | OpInitialize (init_time : Z)
  | OpTick (time_step : Z)
  | OpTock
  | OpFire (started : FireStarted)
  | OpGround (location : GroundLocation).

Definition exec (o : operation) : M unit :=
  match o with
  | OpInitialize init_time => initialize init_time
  | OpTick time_step => tick time_step
  | OpTock => tock
  | OpFire started => on_fire started
  | OpGround location => on_ground location
  end.

(** The object after a sequence of calls; a call that raises leaves its
    partial updates behind and the run goes on with the next call. *)
Definition run (ops : list operation) (c : Constellation) : Constellation :=
  foldl (fun c o => (exec o c).2) c ops.

(** *** What one pass of the inner loop does to a record *)

(** The detection block on the detection record of the fire, when the
    satellite called [name] is in view at time [t]. *)
Definition detect_step (name : pykey) (t : Z) (d : gmap pykey pyval) : gmap pykey pyval :=
  let d1 := <[name := VTime t]> d in
  match d1 !! KStr "firstDetector" with
  | Some VNone =>
      <[KStr "firstDetector" := val_of_key name]> (<[KStr "firstDetect" := VBool true]> d1)
  | _ => d1
  end.

(** The report block on the report record, when the satellite is in range
    of the station [groundId]. *)
Definition report_step (name : pykey) (t : Z) (groundId : pyval) (r : gmap pykey pyval)
    : gmap pykey pyval :=
  let r1 := <[name := VTime t]> r in
  match r1 !! KStr "firstReporter" with
  | Some VNone =>
      <[KStr "firstReportedTo" := groundId]>
        (<[KStr "firstReporter" := val_of_key name]>
           (<[KStr "firstReport" := VBool true]> r1))
  | _ => r1
  end.

(** The guard of the report block: detected by this satellite and not yet
    reported by it. *)
Definition eligible (name : pykey) (d r : gmap pykey pyval) : bool :=
  match d !! name, r !! name with
  | Some dv, Some rv => negb (is_None dv) && is_None rv
  | _, _ => false
  end.

(** The outcome of one pass of the inner loop for a satellite called [n],
    on the records [d] and [r] of fire [j], at clock time [now] and with the
    stored minimum elevation [m]. *)
Definition tick_fire_result (time_step : Z) (satellite : Satellite) (then_ : Z) (j : nat)
    (fire : FireStarted) (c : Constellation) (now : Z) (m : float) (n : pykey)
    (d r : gmap pykey pyval) : res unit * Constellation :=
  let d' := if check_in_view then_ satellite
                 (latlon (fire_latitude fire) (fire_longitude fire)) m
            then detect_step n (now + time_step) d else d in
  let c1 := with_detect (<[j := d']> (detect c)) c in
  if eligible n d' r then
    match grounds c with
    | None => (Raise AttributeError, c1)
    | Some g =>
        let '(inrange, gid) := check_in_range_rows then_ satellite (iterrows g) in
        if inrange
        then (Ok tt,
              with_report (<[j := report_step n (now + time_step) gid r]> (report c)) c1)
        else (Ok tt, c1)
    end
  else (Ok tt, c1).

(** *** What one [tock] hands to the observers *)

(** [record[v]] for a stored value [v], [None] when there is no such key. *)
Definition getitem_val_total (d : gmap pykey pyval) (v : pyval) : pyval :=
  match key_of_val v with
  | Some k => d !!! k
  | None => VNone
  end.

(** The notification the first loop of [tock] sends for a detection
    record, if any. *)
Definition detected_event (d : gmap pykey pyval) : option notification :=
  if truthy (d !!! KStr "firstDetect") then
    let detector := d !!! KStr "firstDetector" in
    Some (FireDetected (d !!! KStr "fireId") (getitem_val_total d detector) detector)
  else None.

(** The notification the second loop of [tock] sends for a report record,
    if any. *)
Definition reported_event (r : gmap pykey pyval) : option notification :=
  if truthy (r !!! KStr "firstReport") then
    let reporter := r !!! KStr "firstReporter" in
    Some (FireReported (r !!! KStr "fireId") (getitem_val_total r reporter) reporter
            (r !!! KStr "firstReportedTo"))
  else None.

(** The state [tock] leaves when no subscript fails: positions committed,
    the notifications of both loops appended, every [firstReport] flag
    cleared, the clock advanced. *)
Definition tock_result (c : Constellation) : Constellation :=
  with_time (next_time c)
    (with_report ((fun r => <[KStr "firstReport" := VBool false]> r) <$> report c)
       (with_notified
          (notified c ++ omap detected_event (detect c) ++ omap reported_event (report c))
          (with_positions (next_positions c) c))).

(** *** Visibility during a tick *)

(** Whether satellite [i] is in view of fire [j] in the tick that starts
    in state [c] with step [time_step]: the value of [isInView] at lines
    260-262, on the minimum elevation that line 253 has just stored. *)
Definition in_view (c : Constellation) (time_step : Z) (i j : nat) : bool :=
  match time c, satellites c !! i, FIELD_OF_REGARD !! i, fires c !! j with
  | Some now, Some satellite, Some field_of_regard, Some fire =>
      let t := (now + time_step)%Z in
      check_in_view t satellite (latlon (fire_latitude fire) (fire_longitude fire))
        (compute_min_elevation (elevation_m (subpoint_at satellite t)) field_of_regard)
  | _, _, _, _ => false
  end.

(** The first satellite, in iteration order, that is in view of fire [j]. *)
Definition first_in_view (c : Constellation) (time_step : Z) (j : nat) : option nat :=
  List.find (fun i => in_view c time_step i j) (seq 0 (length (satellites c))).

(** The detection record [d] of fire [j] after the first [k] satellites
    have been through the outer loop of that tick. *)
Definition detect_pass (c : Constellation) (time_step : Z) (j : nat)
    (d : gmap pykey pyval) (k : nat) : gmap pykey pyval :=
  foldl (fun d i =>
           match time c, names c !! i with
           | Some now, Some n =>
               if in_view c time_step i j then detect_step n (now + time_step) d else d
           | _, _ => d
           end) d (seq 0 k).

(** *** Well-formed records *)

(** The field names of the records; a satellite must not bear one. *)
Definition reserved : list pykey :=
  KStr <$> ["fireId"; "firstDetect"; "firstDetector"; "firstReport"; "firstReporter";
            "firstReportedTo"].

Definition names_ok (ns : list pykey) : bool :=
  forallb (fun n => bool_decide (n ∉ reserved)) ns.

(** A per-satellite entry: [None] or a timestamp. *)
Definition entry_ok (v : option pyval) : Prop :=
  v = Some VNone \/ exists t, v = Some (VTime t).

(** An entry that holds a timestamp. *)
Definition non_null (v : option pyval) : Prop :=
  exists x, v = Some x /\ x <> VNone.

(** The detection and report records of one fire. *)
Record rec_ok (ns : list pykey) (fid : Z) (d r : gmap pykey pyval) : Prop := {
  ok_d_fid : d !! KStr "fireId" = Some (VInt fid);
  ok_r_fid : r !! KStr "fireId" = Some (VInt fid);
  ok_d_names : forall n, n ∈ ns -> entry_ok (d !! n);
  ok_r_names : forall n, n ∈ ns -> entry_ok (r !! n);
  ok_r_after_d : forall n, n ∈ ns -> r !! n <> Some VNone -> d !! n <> Some VNone;
  ok_d_latch :
    (d !! KStr "firstDetect" = Some (VBool false) /\
     d !! KStr "firstDetector" = Some VNone /\
     forall n, n ∈ ns -> d !! n = Some VNone)
    \/
    (d !! KStr "firstDetect" = Some (VBool true) /\
     exists n, n ∈ ns /\ d !! KStr "firstDetector" = Some (val_of_key n) /\
               d !! n <> Some VNone);
  ok_r_latch :
    (r !! KStr "firstReport" = Some (VBool false) /\
     r !! KStr "firstReporter" = Some VNone /\
     forall n, n ∈ ns -> r !! n = Some VNone)
    \/
    (exists b n, r !! KStr "firstReport" = Some (VBool b) /\ n ∈ ns /\
                 r !! KStr "firstReporter" = Some (val_of_key n) /\
                 r !! n <> Some VNone);
  ok_r_to : is_Some (r !! KStr "firstReportedTo");
}.

(** The state of a constellation built with the names [ns]. *)
Record Inv (ns : list pykey) (c : Constellation) : Prop := {
  inv_names_ok : names_ok ns = true;
  inv_names : names c = ns;
  inv_detect_len : length (detect c) = length (fires c);
  inv_report_len : length (report c) = length (fires c);
  inv_positions_len : length (positions c) = length (satellites c);
  inv_next_positions_len : length (next_positions c) = length (satellites c);
  inv_min_len : length (min_elevations_fire c) = length (satellites c);
  inv_for_len : length (satellites c) <= length FIELD_OF_REGARD;
  inv_rec : forall j f d r,
    fires c !! j = Some f -> detect c !! j = Some d -> report c !! j = Some r ->
    rec_ok ns (fireId f) d r;
}.

(** A property of the state that every elementary update of a tick with
    timestamp [t] keeps. *)
Definition tick_closed (ns : list pykey) (t : Z) (P : Constellation -> Prop) : Prop :=
  (forall c v, P c -> P (with_next_time v c)) /\
  (forall c v, P c -> length v = length (satellites c) -> P (with_next_positions v c)) /\
  (forall c i v, P c ->
     P (with_min_elevations_fire (<[i := v]> (min_elevations_fire c)) c)) /\
  (forall c i j n d, Inv ns c -> P c -> names c !! i = Some n -> detect c !! j = Some d ->
     P (with_detect (<[j := detect_step n t d]> (detect c)) c)) /\
  (forall c i j n gid d r, Inv ns c -> P c -> names c !! i = Some n ->
     detect c !! j = Some d -> report c !! j = Some r -> eligible n d r = true ->
     P (with_report (<[j := report_step n t gid r]> (report c)) c)).

(** *** Counting notifications *)

Definition count_if {A} (p : A -> bool) (l : list A) : nat :=
  length (List.filter p l).

Definition is_detected (f : Z) (e : notification) : bool :=
  match e with
  | FireDetected fid _ _ => bool_decide (fid = VInt f)
  | FireReported _ _ _ _ => false
  end.

Definition is_reported (f : Z) (e : notification) : bool :=
  match e with
  | FireDetected _ _ _ => false
  | FireReported fid _ _ _ => bool_decide (fid = VInt f)
  end.

(** A report record whose notification has been sent: it has a first
    reporter and its flag has been cleared. *)
Definition emitted (r : gmap pykey pyval) : bool :=
  negb (is_None (r !!! KStr "firstReporter")) && negb (truthy (r !!! KStr "firstReport")).

Definition has_fireId (f : Z) (r : gmap pykey pyval) : bool :=
  bool_decide (r !!! KStr "fireId" = VInt f).

(** Every report notification in the list comes after a detection
    notification for the same fire. *)
Definition report_after_detect (log : list notification) : Prop :=
  forall before after fid reported reported_by reported_to,
    log = before ++ FireReported fid reported reported_by reported_to :: after ->
    exists detected detected_by, FireDetected fid detected detected_by ∈ before.

(** *** Predicates used in the proofs *)

(** A record that is part of a well-formed pair. *)
Definition d_good (d : gmap pykey pyval) : Prop := exists ns fid r, rec_ok ns fid d r.
Definition r_good (r : gmap pykey pyval) : Prop := exists ns fid d, rec_ok ns fid d r.

(** The records [on_fire] appends for a fire. *)
Definition new_detect (ns : list pykey) (fid : Z) : gmap pykey pyval :=
  <[KStr "firstDetector" := VNone]>
    (<[KStr "firstDetect" := VBool false]> (<[KStr "fireId" := VInt fid]> (fromkeys ns))).

Definition new_report (ns : list pykey) (fid : Z) : gmap pykey pyval :=
  <[KStr "firstReportedTo" := VNone]>
    (<[KStr "firstReporter" := VNone]>
       (<[KStr "firstReport" := VBool false]>
          (<[KStr "fireId" := VInt fid]> (fromkeys ns)))).

(** How a detection record may differ from an earlier version of itself. *)
Definition d_stable (ns : list pykey) (d d' : gmap pykey pyval) : Prop :=
  d' !! KStr "fireId" = d !! KStr "fireId" /\
  (d !! KStr "firstDetect" = Some (VBool true) ->
   d' !! KStr "firstDetect" = Some (VBool true)) /\
  (forall v, v <> VNone -> d !! KStr "firstDetector" = Some v ->
             d' !! KStr "firstDetector" = Some v) /\
  (forall n, n ∈ ns -> non_null (d !! n) -> non_null (d' !! n)).

(** Every detection record of [c] is still there in [c'], grown. *)
Definition detect_evolves (ns : list pykey) (c c' : Constellation) : Prop :=
  forall j d, detect c !! j = Some d ->
    exists d', detect c' !! j = Some d' /\ d_stable ns d d'.

(** The fields a tick reads and does not write once its header has run. *)
Definition same_inputs (c c' : Constellation) : Prop :=
  time c' = time c /\ names c' = names c /\ satellites c' = satellites c /\
  fires c' = fires c /\ next_positions c' = next_positions c.

(** The state of a tick of [c0] under way: well formed, inputs untouched,
    the detection record of fire [j] advanced by [progress j] passes, and,
    if there is a fire at all, a name for each of the first [named]
    satellites. *)
Definition pass_state (ns : list pykey) (c0 : Constellation) (dt now : Z)
    (progress : nat -> nat) (named : nat) (c : Constellation) : Prop :=
  Inv ns c /\ time c = Some now /\ names c = names c0 /\
  satellites c = satellites c0 /\ fires c = fires c0 /\
  next_positions c =
    (fun satellite => Some (subpoint_at satellite (now + dt))) <$> satellites c0 /\
  (forall j d, detect c0 !! j = Some d ->
               detect c !! j = Some (detect_pass c0 dt j d (progress j))) /\
  (fires c0 <> [] -> forall i, i < named -> is_Some (names c0 !! i)).

(** The report notifications sent so far for fire id [f] are as many as the
    report records of that id whose flag was raised and cleared. *)
Definition reports_counted (c : Constellation) : Prop :=
  forall f, count_if (is_reported f) (notified c) =
            count_if (fun r => has_fireId f r && emitted r) (report c).

End model.
End Firesat.

(** ** Predicates on runs and states *)

Module Behaviour.
Import Firesat.
Section model.
Context `{Ext : External}.

(** A method body keeps the relation [R] between the object before and
    after, whether it returns or raises. *)
Definition preserves {A} (R : Constellation -> Constellation -> Prop) (m : M A) : Prop :=
  forall c, R c (m c).2.

(** What [tick] leaves alone: the committed positions, the clock, the
    fires, the ground registry, the names, the satellites and what the
    observers have received. *)
Definition tick_keeps (c c' : Constellation) : Prop :=
  positions c' = positions c /\ time c' = time c /\ fires c' = fires c /\
  grounds c' = grounds c /\ names c' = names c /\ satellites c' = satellites c /\
  notified c' = notified c.

(** The [FireStarted] messages among the calls of a run, in order. *)
Definition fire_messages (ops : list operation) : list FireStarted :=
  omap (fun o => match o with OpFire started => Some started | _ => None end) ops.

(** The [GroundLocation] messages among the calls of a run, in order. *)
Definition ground_messages (ops : list operation) : list GroundLocation :=
  omap (fun o => match o with OpGround location => Some location | _ => None end) ops.

Definition is_initialize (o : operation) : bool :=
  match o with OpInitialize _ => true | _ => false end.

(** The fields that only [on_fire], [on_ground] and [initialize] write. *)
Definition same_tables (c c' : Constellation) : Prop :=
  fires c' = fires c /\ grounds c' = grounds c /\ names c' = names c /\
  satellites c' = satellites c.

(** What the loops of [tick] leave alone once its header has run. *)
Definition next_keeps (c c' : Constellation) : Prop :=
  next_positions c' = next_positions c /\ next_time c' = next_time c.

(** What the inner loop of [tick] leaves alone. *)
Definition elevations_keep (c c' : Constellation) : Prop :=
  min_elevations_fire c' = min_elevations_fire c.

(** The test of [check_in_range] on one row of the registry: the station
    is operational and the satellite stands at least at the elevation angle
    the station asks for. *)
Definition in_range_of (t : Z) (satellite : Satellite) (ground : GroundLocation) : bool :=
  operational ground &&
  fge (get_elevation_angle t satellite (latlon (latitude ground) (longitude ground)))
      (elevAngle ground).

(** Every row of the registry sits at the index equal to its [groundId]. *)
Definition ids_in_order (frame : DataFrame) : Prop :=
  forall k ground, frame !! k = Some ground -> groundId ground = Z.of_nat k.

(** How a report record may differ from an earlier version of itself: the
    timestamps that are set stay, and so do the first reporter and the
    station it reported to. *)
Definition r_stable (ns : list pykey) (r r' : gmap pykey pyval) : Prop :=
  (forall n v, n ∈ ns -> v <> VNone -> r !! n = Some v -> r' !! n = Some v) /\
  (forall v, v <> VNone -> r !! KStr "firstReporter" = Some v ->
     r' !! KStr "firstReporter" = Some v /\
     r' !! KStr "firstReportedTo" = r !! KStr "firstReportedTo").

(** Every report record of [c] is still there in [c'], grown. *)
Definition report_evolves_to (ns : list pykey) (c c' : Constellation) : Prop :=
  forall j r, report c !! j = Some r ->
    exists r', report c' !! j = Some r' /\ r_stable ns r r'.

(** As [tick_closed], with what the report block knows when it writes: the
    registry exists and [check_in_range] has just returned [True] and the
    station [gid]. *)
Definition tick_closed_in_range (ns : list pykey) (t : Z) (P : Constellation -> Prop)
    : Prop :=
  (forall c v, P c -> P (with_next_time v c)) /\
  (forall c v, P c -> length v = length (satellites c) -> P (with_next_positions v c)) /\
  (forall c i v, P c ->
     P (with_min_elevations_fire (<[i := v]> (min_elevations_fire c)) c)) /\
  (forall c i j n d, Inv ns c -> P c -> names c !! i = Some n -> detect c !! j = Some d ->
     P (with_detect (<[j := detect_step n t d]> (detect c)) c)) /\
  (forall c i j n sat gid d r, Inv ns c -> P c -> names c !! i = Some n ->
     detect c !! j = Some d -> report c !! j = Some r -> eligible n d r = true ->
     check_in_range t sat (grounds c) = Ok (true, gid) ->
     P (with_report (<[j := report_step n t gid r]> (report c)) c)).

(** A state in which nothing can be reported: no station of the registry
    is operational, no report record has a first reporter or a raised flag,
    and the observers have received detections only. *)
Definition quiet (c : Constellation) : Prop :=
  (forall frame ground, grounds c = Some frame -> ground ∈ frame ->
                        operational ground = false) /\
  (forall j r, report c !! j = Some r ->
     r !! KStr "firstReport" = Some (VBool false) /\
     r !! KStr "firstReporter" = Some VNone) /\
  (forall e, e ∈ notified c -> exists fid t by_, e = FireDetected fid t by_).





(** The satellites the constructor ends up with: those given, then one per
    two-line element, the k-th of them built with the k-th name. *)
Definition built_satellites (ns : list pykey) (ES : option (list Satellite))
    (tles : option (list Tle)) : list Satellite :=
  default [] ES ++ zip_with EarthSatellite (default [] tles) ns.

(** The object the constructor returns for the names [ns] and the
    satellites [sats]. *)
Definition initial_state (ns : list pykey) (sats : list Satellite) : Constellation :=
  {| names := ns; fires := []; grounds := None; satellites := sats;
     detect := []; report := [];
     positions := (fun _ => None) <$> sats;
     next_positions := (fun _ => None) <$> sats;
     min_elevations_fire :=
       zip_with (fun satellite field_of_regard =>
                   compute_min_elevation (elevation_m (subpoint_at_epoch satellite))
                     field_of_regard) sats FIELD_OF_REGARD;
     time := None; next_time := None; notified := [] |}.

(** During a tick with timestamp [t], for the satellite called [n] and the
    fire [j]: the report is pending when the detection entry is set, or
    will be by the detection block because the satellite is in view
    ([seen]), and the report entry is empty or already holds [t]; it is
    made when the report entry holds [t]. *)
Definition report_pending (j : nat) (n : pykey) (t : Z) (seen : bool) (c : Constellation)
    : Prop :=
  (exists d, detect c !! j = Some d /\ (non_null (d !! n) \/ seen = true)) /\
  (exists r, report c !! j = Some r /\
             (r !! n = Some VNone \/ r !! n = Some (VTime t))).

Definition report_made (j : nat) (n : pykey) (t : Z) (c : Constellation) : Prop :=
  exists r, report c !! j = Some r /\ r !! n = Some (VTime t).

(** The satellite called [n] has come into view of the fire of record [j]
    in the run [ops] from [c0]: the run holds a call of [tick], made in a
    state in which a satellite that bears the name [n] is in view of that
    fire. *)
Definition seen_by (c0 : Constellation) (ops : list operation) (j : nat) (n : pykey)
    : Prop :=
  exists ops1 dt ops2 i,
    ops = ops1 ++ OpTick dt :: ops2 /\
    names (run ops1 c0) !! i = Some n /\
    in_view (run ops1 c0) dt i j = true.

(** The first satellite, in iteration order, that has a name and is in view
    of fire [j]. *)
Definition first_named_in_view (c : Constellation) (time_step : Z) (j : nat)
    : option nat :=
  List.find (fun i => in_view c time_step i j && bool_decide (is_Some (names c !! i)))
            (seq 0 (length (satellites c))).

(** The sub-satellite points of the constellation at time [t]. *)
Definition subpoints_at (t : Z) (sats : list Satellite) : list (option GeographicPosition) :=
  (fun satellite => Some (subpoint_at satellite t)) <$> sats.

(** The positions agree with the clock: before [initialize] there is no
    time and no position; afterwards the committed positions are the
    sub-satellite points at the current time and the pending ones those at
    the next time. *)
Definition positions_on_clock (c : Constellation) : Prop :=
  match time c, next_time c with
  | Some t, Some t' =>
      positions c = subpoints_at t (satellites c) /\
      next_positions c = subpoints_at t' (satellites c) /\ is_Some (grounds c)
  | None, None =>
      positions c = (fun _ => None) <$> satellites c /\
      next_positions c = (fun _ => None) <$> satellites c /\ grounds c = None
  | _, _ => False
  end.

End model.
End Behaviour.

(** ** The position publisher *)

(** What [PositionPublisher] needs beyond the constellation's collaborators:
    the float operations of [compute_sensor_radius] and the attributes of
    skyfield's objects that go into a status message. *)
Class StatusExternal `{Ext : External} := {
  float_trig :: PyNumTrig float;
  (** [satellite.model.satnum] *)
  satnum : Satellite -> Z;
  (** [satellite.name] *)
  satellite_name : Satellite -> pyval;
  (** [subpoint.latitude.degrees] *)
  latitude_degrees : GeographicPosition -> float;
  (** [subpoint.longitude.degrees] *)
  longitude_degrees : GeographicPosition -> float;
}.

Module Publisher.
Import Firesat Behaviour.
Section model.
Context `{SExt : StatusExternal}.

(** The [SatelliteStatus] message. *)
Record SatelliteStatus := {
  status_id : nat;
  noradId : Z;
  name : pyval;
  status_latitude : float;
  status_longitude : float;
  altitude : float;
  radius : float;
  commRange : bool;
  status_time : Z;
}.

(** The publisher: its own attributes, and the messages it has handed to
    [app.send_message] so far, oldest first.  The constellation it refers
    to is the shared entity, passed to [publish_message] as it is at the
    time of the call. *)
Record PositionPublisher := {
  time_status_step : option Z;
  isInRange : list bool;
  sent : list SatelliteStatus;
}.

(** [PositionPublisher.__init__(app, constellation, time_status_step)],
    lines 414-421. *)
Definition PositionPublisher_init (constellation : Constellation)
    (time_status_step : option Z) : PositionPublisher :=
  {| time_status_step := time_status_step;
     isInRange := (fun _ => false) <$> satellites constellation;
     sent := [] |}.

(** [PositionPublisher.publish_message()], lines 423-460: the loop over
    the satellites, counting from [i].  [get_time() + 60 * step] raises when
    there is no time yet or no step. *)
Fixpoint publish_from (constellation : Constellation) (i : nat)
    (sats : list Satellite) (self : PositionPublisher) : res unit * PositionPublisher :=
  match sats with
  | [] => (Ok tt, self)
  | satellite :: rest =>
      match time constellation, time_status_step self with
      | Some now, Some step =>
          let next_time := (now + 60 * step)%Z in
          let subpoint := subpoint_at satellite next_time in
          match list_getitem (min_elevations_fire constellation) i with
          | Raise e => (Raise e, self)
          | Ok min_elevation =>
              let sensorRadius :=
                compute_sensor_radius (elevation_m subpoint) min_elevation in
              match check_in_range next_time satellite (grounds constellation) with
              | Raise e => (Raise e, self)
              | Ok (inRange, groundId) =>
                  if bool_decide (i < length (isInRange self)) then
                    let flags := <[i := inRange]> (isInRange self) in
                    let message :=
                      {| status_id := i;
                         noradId := satnum satellite;
                         name := satellite_name satellite;
                         status_latitude := latitude_degrees subpoint;
                         status_longitude := longitude_degrees subpoint;
                         altitude := elevation_m subpoint;
                         radius := sensorRadius;
                         commRange := inRange;
                         status_time := now |} in
                    publish_from constellation (S i) rest
                      {| time_status_step := time_status_step self;
                         isInRange := flags;
                         sent := sent self ++ [message] |}
                  else (Raise IndexError, self)
              end
          end
      | _, _ => (Raise TypeError, self)
      end
  end.

Definition publish_message (constellation : Constellation) (self : PositionPublisher)
    : res unit * PositionPublisher :=
  publish_from constellation 0 (satellites constellation) self.

(** The status message for satellite [i] when the clock shows [now], the
    step is [step], the registry is [frame] and the stored minimum elevation
    is [min_elevation]: position, footprint and communication range are
    those of [now + 60 * step], the time stamp is [now]. *)
Definition status_of (now step : Z) (frame : DataFrame) (i : nat) (satellite : Satellite)
    (min_elevation : float) : SatelliteStatus :=
  let subpoint := subpoint_at satellite (now + 60 * step) in
  {| status_id := i;
     noradId := satnum satellite;
     name := satellite_name satellite;
     status_latitude := latitude_degrees subpoint;
     status_longitude := longitude_degrees subpoint;
     altitude := elevation_m subpoint;
     radius := compute_sensor_radius (elevation_m subpoint) min_elevation;
     commRange := existsb (in_range_of (now + 60 * step) satellite) frame;
     status_time := now |}.

End model.
End Publisher.

(** ** The fire schedule (examples/firesat/fires/main_fire.py) *)

Module FireApp.
Import Firesat.
Section model.
Context `{Ext : External}.





End model.
End FireApp.

(** ** A concrete environment for worked scenarios *)

(** IEEE doubles for the floats, numpy restricted to the one argument the
    scenarios reach (sin(π/2) = 1.0), and a sky in which satellite [s] is at
    altitude 500 km and stands at the zenith (90°) of every place at the
    times [visible s t] holds and at the nadir (-90°) otherwise.  Every
    field of regard is 180°, so every minimum elevation is 0.0. *)
Module Scenario.

Definition of_Z (z : Z) : PrimFloat.float := PrimFloat.of_uint63 (Uint63.of_Z z).

Definition pi : PrimFloat.float :=
  PrimFloat.div (of_Z 3141592653589793) (of_Z (10 ^ 15)).

Definition sin_table (x : PrimFloat.float) : PrimFloat.float :=
  if PrimFloat.eqb x (PrimFloat.div pi (of_Z 2)) then of_Z 1 else PrimFloat.nan.

Definition double_num : PyNum PrimFloat.float := {|
  dec m e := PrimFloat.div (of_Z m) (of_Z (10 ^ Z.of_nat e));
  fadd := PrimFloat.add;
  fmul := PrimFloat.mul;
  fdiv := PrimFloat.div;
  fgt a b := PrimFloat.ltb b a;
  fge a b := PrimFloat.leb b a;
  np_sin := sin_table;
  np_arccos _ := PrimFloat.nan;
  np_radians x := PrimFloat.mul x (PrimFloat.div pi (of_Z 180));
  np_degrees x := PrimFloat.mul x (PrimFloat.div (of_Z 180) pi);
|}.

Inductive place :=
  | Subpoint (satellite : nat)
  | LatLon (latitude longitude : PrimFloat.float).

Definition sky (visible : nat -> Z -> bool) : External := {|
  float := PrimFloat.float;
  float_num := double_num;
  Satellite := nat;
  Tle := nat;
  GeographicPosition := place;
  EarthSatellite tle _ := tle;
  subpoint_at satellite _ := Subpoint satellite;
  subpoint_at_epoch satellite := Subpoint satellite;
  elevation_m p := match p with Subpoint _ => of_Z 500000 | LatLon _ _ => of_Z 0 end;
  latlon := LatLon;
  altaz_degrees satellite _ t :=
    if visible satellite t then of_Z 90 else PrimFloat.opp (of_Z 90);
  FIELD_OF_REGARD := [of_Z 180; of_Z 180];
|}.

(** Satellite 0 sees everything at every step; satellite 1 only from
    time 2 on. *)
Definition always (s : nat) (t : Z) : bool :=
  match s with 0 => true | _ => (2 <=? t)%Z end.

(** Satellite 0 sees everything at time 1 and nothing afterwards;
    satellite 1 sees nothing. *)
Definition first_step_only (s : nat) (t : Z) : bool :=
  match s with 0 => (t =? 1)%Z | _ => false end.

(** Nothing is ever in view. *)
Definition never (s : nat) (t : Z) : bool := false.

(** A fire with id [fid], at latitude 10 and longitude 20. *)
Definition fire (vis : nat -> Z -> bool) (fid : Z) : @Firesat.FireStarted (sky vis) :=
  @Firesat.Build_FireStarted (sky vis) fid 0 (of_Z 10) (of_Z 20).

(** A ground station with id [gid] that asks for 5° of elevation. *)
Definition station (vis : nat -> Z -> bool) (gid : Z) (op : bool)
    : @Firesat.GroundLocation (sky vis) :=
  @Firesat.Build_GroundLocation (sky vis) gid (of_Z 35) (of_Z 139) (of_Z 5) op.

(** A constellation of two satellites named 39634 and 40697. *)
Definition two_names : list pykey := [KInt 39634; KInt 40697].

Definition built (vis : nat -> Z -> bool) : res (@Firesat.Constellation (sky vis)) :=
  @Firesat.__init__ (sky vis) two_names (Some [0; 1]) None.

Definition start_state (vis : nat -> Z -> bool) : @Firesat.Constellation (sky vis) :=
  match built vis with
  | Ok c => c
  | Raise _ =>
      {| Firesat.names := []; Firesat.fires := []; Firesat.grounds := None;
         Firesat.satellites := []; Firesat.detect := []; Firesat.report := [];
         Firesat.positions := []; Firesat.next_positions := [];
         Firesat.min_elevations_fire := []; Firesat.time := None;
         Firesat.next_time := None; Firesat.notified := [] |}
  end.

(** One fire, no ground station, two steps. *)
Definition two_steps (vis : nat -> Z -> bool) : list (@Firesat.operation (sky vis)) :=
  [Firesat.OpInitialize 0; Firesat.OpFire (fire vis 1);
   Firesat.OpTick 1; Firesat.OpTock; Firesat.OpTick 1; Firesat.OpTock].

(** One fire and one operational station with id 7, two steps. *)
Definition two_steps_with_station (vis : nat -> Z -> bool)
    : list (@Firesat.operation (sky vis)) :=
  [Firesat.OpInitialize 0; Firesat.OpGround (station vis 7 true);
   Firesat.OpFire (fire vis 1);
   Firesat.OpTick 1; Firesat.OpTock; Firesat.OpTick 1; Firesat.OpTock].

End Scenario.

(** ** A concrete environment for the publisher and the fire schedule *)

(** The sky of the scenarios above, with the attributes a status message
    needs.  Of numpy's cosine only cos(0.0) = 1.0 is tabulated and its arc
    sine is not: the radius of the scenario's status messages is not a
    number, and no statement depends on it. *)
Module StatusScenario.
Import Scenario.

Definition cos_table (x : PrimFloat.float) : PrimFloat.float :=
  if PrimFloat.eqb x (of_Z 0) then of_Z 1 else PrimFloat.nan.

Definition double_trig : @PyNumTrig PrimFloat.float double_num := {|
  fsub := PrimFloat.sub;
  flt a b := PrimFloat.ltb a b;
  np_cos := cos_table;
  np_arcsin _ := PrimFloat.nan;
|}.

Definition sky_status (visible : nat -> Z -> bool) : @StatusExternal (sky visible) :=
  @Build_StatusExternal (sky visible) double_trig
    (fun satellite => match satellite with O => 39634%Z | _ => 40697%Z end)
    (fun satellite => VStr (match satellite with O => "SAT-A" | _ => "SAT-B" end))
    (fun _ => of_Z 0)
    (fun _ => of_Z 0).

(** A publisher created right after the constellation, with a step of one
    second. *)
Definition publisher (vis : nat -> Z -> bool)
    : @Publisher.PositionPublisher (sky vis) :=
  @Publisher.PositionPublisher_init (sky vis) (start_state vis) (Some 1%Z).

(** One initialisation and one operational station with id 0. *)
Definition with_station_0 (vis : nat -> Z -> bool) : list (@Firesat.operation (sky vis)) :=
  [Firesat.OpInitialize 0; Firesat.OpGround (station vis 0 true)].

(** One station, one fire, not yet seen. *)
Definition before_first_step (vis : nat -> Z -> bool)
    : list (@Firesat.operation (sky vis)) :=
  [Firesat.OpInitialize 0; Firesat.OpGround (station vis 7 true);
   Firesat.OpFire (fire vis 1)].

(** One fire and a station that is out of service, one step. *)
Definition one_step_station_down (vis : nat -> Z -> bool)
    : list (@Firesat.operation (sky vis)) :=
  [Firesat.OpInitialize 0; Firesat.OpGround (station vis 7 false);
   Firesat.OpFire (fire vis 1); Firesat.OpTick 1; Firesat.OpTock].

(** The state after two steps with one fire and one operational station. *)
Definition reached : @Firesat.Constellation (sky always) :=
  Firesat.run (two_steps_with_station always) (start_state always).


End StatusScenario.

(** ** Facts about the constellation *)

Module FiresatFacts.
Import Firesat.
Section proofs.
Context `{Ext : External}.

Ltac proj :=
  cbn [names fires grounds satellites detect report positions next_positions
       min_elevations_fire time next_time notified
       with_fires with_grounds with_detect with_report with_positions
       with_next_positions with_min_elevations_fire with_time with_next_time
       with_notified] in *.

Ltac crunch :=
  repeat (progress (proj; cbv beta iota zeta;
    repeat match goal with
    | H : _ !! _ = Some _ |- _ => rewrite H
    | H : time _ = Some _ |- _ => rewrite H
    | H : grounds _ = _ |- _ => rewrite H
    end;
    rewrite ?list_lookup_insert_eq, ?list_insert_insert_eq
      by (rewrite ?length_insert; done);
    cbn [is_None negb])).

Ltac unfold_monad :=
  cbv beta iota zeta delta [bind gets lift modify ret raise names_getitem detect_getitem
       detect_setitem report_getitem report_setitem get_time_plus list_getitem dict_getitem].

Ltac unfold_monad_in H :=
  cbv beta iota zeta delta [bind gets lift modify ret raise names_getitem detect_getitem
       detect_setitem report_getitem report_setitem get_time_plus list_getitem dict_getitem]
    in H.

Ltac mred :=
  cbv beta iota zeta delta [bind gets lift modify ret raise notify_observers
    report_setitem list_getitem dict_getitem dict_getitem_val getitem_val_total].

(** *** The two blocks of the inner loop *)

Lemma with_detect_id c : with_detect (detect c) c = c.
Proof. by destruct c. Qed.

Lemma tick_fire_detect_spec dt i sat then_ j fire c now m d name :
  time c = Some now ->
  min_elevations_fire c !! i = Some m ->
  detect c !! j = Some d ->
  names c !! i = Some name ->
  is_Some (d !! KStr "firstDetector") ->
  tick_fire_detect dt i sat then_ j fire c =
    (Ok tt,
     with_detect
       (<[j := if check_in_view then_ sat (latlon (fire_latitude fire) (fire_longitude fire)) m
               then detect_step name (now + dt) d else d]> (detect c)) c).
Proof.
  intros Ht Hm Hd Hn [fd Hfd].
  assert (Hj : j < length (detect c)) by (by eapply lookup_lt_Some).
  unfold tick_fire_detect. unfold_monad. rewrite Hm.
  destruct (check_in_view _ _ _ _).
  - unfold detect_step.
    assert (Hfd1 : is_Some (<[name:=VTime (now + dt)]> d !! KStr "firstDetector")).
    { rewrite lookup_insert. case_decide; eauto. }
    destruct Hfd1 as [fd1 Hfd1].
    destruct fd1; cbn [is_None]; crunch; reflexivity.
  - rewrite list_insert_id by done. by rewrite with_detect_id.
Qed.

Lemma tick_fire_report_spec dt i sat then_ j c now d r name :
  time c = Some now ->
  detect c !! j = Some d ->
  report c !! j = Some r ->
  names c !! i = Some name ->
  is_Some (d !! name) -> is_Some (r !! name) ->
  is_Some (r !! KStr "firstReporter") ->
  tick_fire_report dt i sat then_ j c =
    if eligible name d r then
      match grounds c with
      | None => (Raise AttributeError, c)
      | Some g =>
          let '(inrange, gid) := check_in_range_rows then_ sat (iterrows g) in
          if inrange
          then (Ok tt, with_report (<[j := report_step name (now + dt) gid r]> (report c)) c)
          else (Ok tt, c)
      end
    else (Ok tt, c).
Proof.
  intros Ht Hd Hr Hn [dv Hdv] [rv Hrv] [fr Hfr].
  assert (Hj : j < length (report c)) by (by eapply lookup_lt_Some).
  unfold tick_fire_report, eligible. unfold_monad. crunch.
  destruct dv; cbn [is_None negb andb]; crunch; try reflexivity.
  all: destruct rv; cbn [is_None negb andb]; crunch; try reflexivity.
  all: unfold check_in_range; destruct (grounds c) as [g|]; try reflexivity.
  all: destruct (check_in_range_rows _ _ _) as [[] gid]; try reflexivity.
  all: unfold report_step.
  all: assert (Hfr1 : is_Some (<[name:=VTime (now + dt)]> r !! KStr "firstReporter"))
         by (rewrite lookup_insert; case_decide; eauto).
  all: destruct Hfr1 as [fr1 Hfr1].
  all: destruct fr1; cbn [is_None]; crunch; reflexivity.
Qed.

(** *** Records stay well formed *)

Lemma names_ok_in ns n : names_ok ns = true -> n ∈ ns -> n ∉ reserved.
Proof.
  unfold names_ok. rewrite forallb_forall. intros H Hn.
  apply list_elem_of_In in Hn. specialize (H _ Hn). by apply bool_decide_eq_true in H.
Qed.

Lemma not_reserved n :
  n ∉ reserved ->
  n <> KStr "fireId" /\ n <> KStr "firstDetect" /\ n <> KStr "firstDetector" /\
  n <> KStr "firstReport" /\ n <> KStr "firstReporter" /\ n <> KStr "firstReportedTo".
Proof.
  intros H. repeat split; intros ->; apply H; unfold reserved; cbn; set_solver.
Qed.

Lemma val_of_key_not_None n : val_of_key n <> VNone.
Proof. by destruct n. Qed.

Lemma key_of_val_of_key n : key_of_val (val_of_key n) = Some n.
Proof. by destruct n. Qed.

Lemma name_not_field ns n :
  names_ok ns = true -> n ∈ ns ->
  n <> KStr "fireId" /\ n <> KStr "firstDetect" /\ n <> KStr "firstDetector" /\
  n <> KStr "firstReport" /\ n <> KStr "firstReporter" /\ n <> KStr "firstReportedTo".
Proof. intros Hok Hn. apply not_reserved. by eapply names_ok_in. Qed.

Lemma entry_ok_time t : entry_ok (Some (VTime t)).
Proof. right. eauto. Qed.

Lemma rec_ok_detect_step ns fid d r n t :
  names_ok ns = true ->
  rec_ok ns fid d r -> n ∈ ns ->
  rec_ok ns fid (detect_step n t d) r.
Proof.
  intros Hok [Hdf Hrf Hdn Hrn Hrd Hdl Hrl Hto] Hn.
  destruct (name_not_field _ _ Hok Hn) as (N1 & N2 & N3 & N4 & N5 & N6).
  unfold detect_step. rewrite lookup_insert_ne by done.
  destruct Hdl as [(Hfd & Hfr & Hall) | (Hfd & n0 & Hn0 & Hfr & Hnn)].
  - rewrite Hfr. split; try done.
    + by rewrite !lookup_insert_ne by done.
    + intros m Hm. destruct (name_not_field _ _ Hok Hm) as (M1 & M2 & M3 & _).
      rewrite !lookup_insert_ne by done.
      destruct (decide (n = m)) as [->|]; [rewrite lookup_insert_eq; apply entry_ok_time|].
      rewrite lookup_insert_ne by done. by apply Hdn.
    + intros m Hm Hr. destruct (name_not_field _ _ Hok Hm) as (M1 & M2 & M3 & _).
      rewrite !lookup_insert_ne by done.
      destruct (decide (n = m)) as [->|]; [by rewrite lookup_insert_eq|].
      rewrite lookup_insert_ne by done. by apply Hrd.
    + right. split.
      * rewrite lookup_insert_ne by done. by rewrite lookup_insert_eq.
      * exists n. split; [done|]. split; [by rewrite lookup_insert_eq|].
        rewrite !lookup_insert_ne by done. by rewrite lookup_insert_eq.
  - rewrite Hfr.
    assert (Hkeep : match val_of_key n0 with
                    | VNone => <[KStr "firstDetector":=val_of_key n]>
                                 (<[KStr "firstDetect":=VBool true]> (<[n:=VTime t]> d))
                    | _ => <[n:=VTime t]> d
                    end = <[n:=VTime t]> d) by (by destruct n0).
    rewrite Hkeep. clear Hkeep. split; try done.
    + by rewrite lookup_insert_ne by done.
    + intros m Hm.
      destruct (decide (n = m)) as [->|]; [rewrite lookup_insert_eq; apply entry_ok_time|].
      rewrite lookup_insert_ne by done. by apply Hdn.
    + intros m Hm Hr.
      destruct (decide (n = m)) as [->|]; [by rewrite lookup_insert_eq|].
      rewrite lookup_insert_ne by done. by apply Hrd.
    + right. split; [by rewrite lookup_insert_ne by done|].
      exists n0. split; [done|]. split; [by rewrite lookup_insert_ne by done|].
      destruct (decide (n = n0)) as [->|]; [by rewrite lookup_insert_eq|].
      by rewrite lookup_insert_ne by done.
Qed.

Lemma eligible_true n d r :
  eligible n d r = true -> non_null (d !! n) /\ r !! n = Some VNone.
Proof.
  unfold eligible, non_null. destruct (d !! n) as [dv|]; [|done].
  destruct (r !! n) as [rv|]; [|done].
  destruct dv, rv; cbn; try done; intros _; split; eauto; by eexists.
Qed.

Lemma rec_ok_report_step ns fid d r n t gid :
  names_ok ns = true ->
  rec_ok ns fid d r -> n ∈ ns -> eligible n d r = true ->
  rec_ok ns fid d (report_step n t gid r).
Proof.
  intros Hok [Hdf Hrf Hdn Hrn Hrd Hdl Hrl Hto] Hn Hel.
  destruct (name_not_field _ _ Hok Hn) as (N1 & N2 & N3 & N4 & N5 & N6).
  apply eligible_true in Hel as [(dv & Hdv & Hdv') Hrv].
  unfold report_step. rewrite lookup_insert_ne by done.
  destruct Hrl as [(Hfr & Hfp & Hall) | (b & n0 & Hfr & Hn0 & Hfp & Hnn)].
  - rewrite Hfp. split; try done.
    + by rewrite !lookup_insert_ne by done.
    + intros m Hm. destruct (name_not_field _ _ Hok Hm) as (M1 & M2 & M3 & M4 & M5 & M6).
      rewrite !lookup_insert_ne by done.
      destruct (decide (n = m)) as [->|]; [rewrite lookup_insert_eq; apply entry_ok_time|].
      rewrite lookup_insert_ne by done. by apply Hrn.
    + intros m Hm. destruct (name_not_field _ _ Hok Hm) as (M1 & M2 & M3 & M4 & M5 & M6).
      rewrite !lookup_insert_ne by done.
      destruct (decide (n = m)) as [->|]; [intros _; congruence|].
      rewrite lookup_insert_ne by done. by apply Hrd.
    + right. exists true, n. split.
      * rewrite !lookup_insert_ne by done. by rewrite lookup_insert_eq.
      * split; [done|]. split.
        -- rewrite lookup_insert_ne by done. by rewrite lookup_insert_eq.
        -- rewrite !lookup_insert_ne by done. by rewrite lookup_insert_eq.
    + rewrite lookup_insert_eq. eauto.
  - rewrite Hfp.
    assert (Hkeep : match val_of_key n0 with
                    | VNone => <[KStr "firstReportedTo":=gid]>
                                 (<[KStr "firstReporter":=val_of_key n]>
                                    (<[KStr "firstReport":=VBool true]> (<[n:=VTime t]> r)))
                    | _ => <[n:=VTime t]> r
                    end = <[n:=VTime t]> r) by (by destruct n0).
    rewrite Hkeep. clear Hkeep. split; try done.
    + by rewrite lookup_insert_ne by done.
    + intros m Hm.
      destruct (decide (n = m)) as [->|]; [rewrite lookup_insert_eq; apply entry_ok_time|].
      rewrite lookup_insert_ne by done. by apply Hrn.
    + intros m Hm.
      destruct (decide (n = m)) as [->|]; [intros _; congruence|].
      rewrite lookup_insert_ne by done. by apply Hrd.
    + right. exists b, n0. split; [by rewrite lookup_insert_ne by done|].
      split; [done|]. split; [by rewrite lookup_insert_ne by done|].
      destruct (decide (n = n0)) as [->|]; [by rewrite lookup_insert_eq|].
      by rewrite lookup_insert_ne by done.
    + by rewrite lookup_insert_ne by done.
Qed.

Lemma entry_ok_is_Some v : entry_ok v -> is_Some v.
Proof. intros [->|[t ->]]; eauto. Qed.

Lemma rec_ok_firstDetector ns fid d r :
  rec_ok ns fid d r -> is_Some (d !! KStr "firstDetector").
Proof. intros [_ _ _ _ _ [(_ & H & _)|(_ & n & _ & H & _)] _ _]; eauto. Qed.

Lemma rec_ok_firstReporter ns fid d r :
  rec_ok ns fid d r -> is_Some (r !! KStr "firstReporter").
Proof. intros [_ _ _ _ _ _ [(_ & H & _)|(b & n & _ & _ & H & _)] _]; eauto. Qed.

Lemma Inv_lookup ns c j f :
  Inv ns c -> fires c !! j = Some f ->
  exists d r, detect c !! j = Some d /\ report c !! j = Some r /\ rec_ok ns (fireId f) d r.
Proof.
  intros HI Hf. pose proof (lookup_lt_Some _ _ _ Hf) as Hlt.
  destruct (lookup_lt_is_Some_2 (detect c) j) as [d Hd]; [by rewrite (inv_detect_len _ _ HI)|].
  destruct (lookup_lt_is_Some_2 (report c) j) as [r Hr]; [by rewrite (inv_report_len _ _ HI)|].
  exists d, r. split; [done|]. split; [done|]. by eapply inv_rec.
Qed.

Lemma Inv_name_in ns c i n : Inv ns c -> names c !! i = Some n -> n ∈ ns.
Proof. intros HI Hn. rewrite <- (inv_names _ _ HI). by eapply list_elem_of_lookup_2. Qed.

Lemma Inv_detect_step ns c i j n t d :
  Inv ns c -> names c !! i = Some n -> detect c !! j = Some d ->
  Inv ns (with_detect (<[j := detect_step n t d]> (detect c)) c).
Proof.
  intros HI Hn Hd. pose proof HI as [H1 H2 H3 H4 H5 H6 H7 H8 H9].
  split; proj; try done.
  - by rewrite length_insert.
  - intros j' f d' r Hf Hd' Hr.
    destruct (decide (j = j')) as [->|Hne].
    + rewrite list_lookup_insert_eq in Hd' by (by eapply lookup_lt_Some).
      inversion Hd'; subst d'. apply rec_ok_detect_step; eauto using Inv_name_in.
    + rewrite list_lookup_insert_ne in Hd' by done. eauto.
Qed.

Lemma Inv_report_step ns c i j n t gid d r :
  Inv ns c -> names c !! i = Some n -> detect c !! j = Some d -> report c !! j = Some r ->
  eligible n d r = true ->
  Inv ns (with_report (<[j := report_step n t gid r]> (report c)) c).
Proof.
  intros HI Hn Hd Hr Hel. pose proof HI as [H1 H2 H3 H4 H5 H6 H7 H8 H9].
  split; proj; try done.
  - by rewrite length_insert.
  - intros j' f d' r' Hf Hd' Hr'.
    destruct (decide (j = j')) as [->|Hne].
    + rewrite list_lookup_insert_eq in Hr' by (by eapply lookup_lt_Some).
      inversion Hr'; subst r'. assert (d' = d) as -> by congruence.
      apply rec_ok_report_step; eauto using Inv_name_in.
    + rewrite list_lookup_insert_ne in Hr' by done. eauto.
Qed.

Lemma tick_fire_no_name dt i sat then_ j fire c now m :
  time c = Some now ->
  min_elevations_fire c !! i = Some m ->
  names c !! i = None ->
  tick_fire dt i sat then_ j fire c = (Raise IndexError, c).
Proof.
  intros Ht Hm Hn. unfold tick_fire, tick_fire_detect, tick_fire_report. unfold_monad.
  rewrite Hm. destruct (check_in_view _ _ _ _); crunch; rewrite ?Hn; reflexivity.
Qed.

Lemma tick_fire_outcome ns dt i sat then_ j fire c now m n d r :
  Inv ns c -> time c = Some now -> min_elevations_fire c !! i = Some m ->
  fires c !! j = Some fire -> detect c !! j = Some d -> report c !! j = Some r ->
  names c !! i = Some n ->
  tick_fire dt i sat then_ j fire c = tick_fire_result dt sat then_ j fire c now m n d r.
Proof.
  intros HI Ht Hm Hf Hd Hr Hn.
  pose proof (inv_rec _ _ HI _ _ _ _ Hf Hd Hr) as Hok.
  pose proof (Inv_name_in _ _ _ _ HI Hn) as Hin.
  unfold tick_fire, tick_fire_result, bind.
  erewrite tick_fire_detect_spec by eauto using rec_ok_firstDetector.
  set (d' := if check_in_view _ _ _ _ then _ else _).
  assert (Hok' : rec_ok ns (fireId fire) d' r).
  { subst d'. destruct (check_in_view _ _ _ _); [|done].
    apply rec_ok_detect_step; eauto using inv_names_ok. }
  erewrite tick_fire_report_spec with (d := d') (r := r) (name := n) (now := now); proj; eauto.
  - apply list_lookup_insert_eq. by eapply lookup_lt_Some.
  - apply entry_ok_is_Some. by eapply ok_d_names.
  - apply entry_ok_is_Some. by eapply ok_r_names.
  - by eapply rec_ok_firstReporter.
Qed.

(** *** Loops *)

Lemma for_from_preserve {A} (Q : Constellation -> Prop) (body : nat -> A -> M unit) l i c :
  (forall k x c, l !! k = Some x -> Q c -> Q (body (i + k) x c).2) ->
  Q c -> Q (for_from i l body c).2.
Proof.
  revert i c. induction l as [|x l IH]; intros i c Hb Hc; [done|].
  cbn [for_from]. unfold bind.
  pose proof (Hb 0 x c eq_refl Hc) as H0. rewrite Nat.add_0_r in H0.
  destruct (body i x c) as [[[]|e] c']; cbn in *; [|done].
  apply IH; [|done]. intros k y c2 Hk HQ.
  replace (S i + k) with (i + S k) by lia. by apply Hb.
Qed.

Lemma for_from_rule {A} (I : nat -> Constellation -> Prop) (body : nat -> A -> M unit) l i c c' :
  I i c ->
  (forall k x c c', l !! k = Some x -> I (i + k) c -> body (i + k) x c = (Ok tt, c') ->
                    I (S (i + k)) c') ->
  for_from i l body c = (Ok tt, c') ->
  I (i + length l) c'.
Proof.
  revert i c. induction l as [|x l IH]; intros i c Hc Hb Hrun.
  - cbn in Hrun. inversion Hrun; subst. by rewrite Nat.add_0_r.
  - cbn [for_from] in Hrun. unfold bind in Hrun.
    destruct (body i x c) as [[[]|e] c1] eqn:Hx; [|done].
    cbn [length]. replace (i + S (length l)) with (S i + length l) by lia.
    eapply IH; [| |exact Hrun].
    + specialize (Hb 0 x c c1). rewrite Nat.add_0_r in Hb. by apply Hb.
    + intros k y c2 c3 Hk HI Hy.
      replace (S (S i + k)) with (S (i + S k)) by lia.
      apply (Hb (S k) y c2 c3); [done| |].
      * by replace (i + S k) with (S i + k) by lia.
      * by replace (i + S k) with (S i + k) by lia.
Qed.

Lemma Inv_frame ns c c' :
  Inv ns c ->
  names c' = names c -> fires c' = fires c -> satellites c' = satellites c ->
  detect c' = detect c -> report c' = report c ->
  length (positions c') = length (satellites c) ->
  length (next_positions c') = length (satellites c) ->
  length (min_elevations_fire c') = length (satellites c) ->
  Inv ns c'.
Proof.
  intros [H1 H2 H3 H4 H5 H6 H7 H8 H9] E1 E2 E3 E4 E5 E6 E7 E8.
  split; rewrite ?E1, ?E2, ?E3, ?E4, ?E5; done.
Qed.

(** *** An induction principle for tick *)

Lemma tick_fire_ind ns P dt now i sat then_ j fire c :
  tick_closed ns (now + dt) P ->
  Inv ns c -> P c -> time c = Some now ->
  is_Some (min_elevations_fire c !! i) -> fires c !! j = Some fire ->
  let c' := (tick_fire dt i sat then_ j fire c).2 in
  Inv ns c' /\ P c' /\ time c' = Some now /\
  min_elevations_fire c' = min_elevations_fire c /\ fires c' = fires c.
Proof.
  intros (C1 & C2 & C3 & C4 & C5) HI HP Ht [m Hm] Hf. cbn zeta.
  destruct (Inv_lookup _ _ _ _ HI Hf) as (d & r & Hd & Hr & Hok).
  destruct (names c !! i) as [n|] eqn:Hn.
  2: { erewrite tick_fire_no_name by eauto. done. }
  erewrite tick_fire_outcome by eauto. unfold tick_fire_result.
  set (d' := if check_in_view _ _ _ _ then _ else _).
  set (c1 := with_detect (<[j:=d']> (detect c)) c).
  assert (H1 : Inv ns c1 /\ P c1).
  { subst c1 d'. destruct (check_in_view _ _ _ _).
    - split; [by eapply Inv_detect_step|by eapply C4].
    - rewrite list_insert_id by done. by rewrite with_detect_id. }
  destruct H1 as [HI1 HP1].
  assert (Hd1 : detect c1 !! j = Some d').
  { subst c1. proj. apply list_lookup_insert_eq. by eapply lookup_lt_Some. }
  destruct (eligible n d' r) eqn:Hel; [|done].
  destruct (grounds c) as [g|]; [|done].
  destruct (check_in_range_rows _ _ _) as [[] gid]; [|done].
  cbn [snd]. split; [|split]; [| |done].
  - eapply (Inv_report_step ns c1); eauto.
  - eapply (C5 c1); eauto.
Qed.

Lemma tick_satellite_ind ns P dt now i sat c :
  tick_closed ns (now + dt) P ->
  Inv ns c -> P c -> time c = Some now ->
  let c' := (tick_satellite dt i sat c).2 in
  Inv ns c' /\ P c' /\ time c' = Some now.
Proof.
  intros HC HI HP Ht. cbn zeta. pose proof HC as (C1 & C2 & C3 & C4 & C5).
  unfold tick_satellite. unfold_monad. rewrite Ht.
  destruct (next_positions c !! i) as [[p|]|]; try done.
  destruct (FIELD_OF_REGARD !! i) as [fr|]; try done.
  case_bool_decide as Hlt; [|done]. cbv beta iota zeta.
  set (c1 := with_min_elevations_fire _ c).
  assert (HI1 : Inv ns c1).
  { eapply Inv_frame; [exact HI|..]; subst c1; proj; try done;
      rewrite ?length_insert; eapply HI. }
  assert (HP1 : P c1) by (apply C3; done).
  assert (Hm : is_Some (min_elevations_fire c1 !! i)).
  { subst c1. proj. apply lookup_lt_is_Some_2. by rewrite length_insert. }
  assert (Ht1 : time c1 = Some now) by done.
  clearbody c1. clear HI HP Ht Hlt c.
  unfold for_enumerate.
  pose proof (for_from_preserve
           (fun c => Inv ns c /\ P c /\ time c = Some now /\
                     is_Some (min_elevations_fire c !! i) /\ fires c = fires c1)
           (tick_fire dt i sat (now + dt)) (fires c1) 0 c1) as HH.
  cbn beta in HH. destruct HH as (? & ? & ? & _); [|done|done].
  intros k x c Hk (HI & HP & Ht & Hm' & Hfs). cbn [Nat.add].
  rewrite <- Hfs in Hk.
  destruct (tick_fire_ind ns P dt now i sat (now + dt) k x c) as (? & ? & ? & Hmm & Hff);
    try done.
  split_and!; try done; [by rewrite Hmm|by rewrite Hff].
Qed.

Lemma tick_time_None dt c : time c = None -> tick dt c = (Raise TypeError, c).
Proof. intros Ht. unfold tick, Entity_tick. unfold_monad. by rewrite Ht. Qed.

Lemma tick_ind ns P dt now c :
  tick_closed ns (now + dt) P ->
  Inv ns c -> P c -> time c = Some now ->
  let c' := (tick dt c).2 in
  Inv ns c' /\ P c' /\ time c' = Some now.
Proof.
  intros HC HI HP Ht. cbn zeta. pose proof HC as (C1 & C2 & C3 & C4 & C5).
  unfold tick, Entity_tick. unfold_monad. rewrite Ht. cbv beta iota zeta.
  change (time (with_next_time (Some (now + dt)%Z) c)) with (time c).
  rewrite Ht. cbv beta iota zeta.
  set (c1 := with_next_positions _ _).
  assert (HI1 : Inv ns c1).
  { eapply Inv_frame; [exact HI|..]; subst c1; proj; try done;
      rewrite ?length_fmap; try done; eapply HI. }
  assert (HP1 : P c1).
  { subst c1. apply C2; [by apply C1|]. proj. by rewrite length_fmap. }
  assert (Ht1 : time c1 = Some now) by done.
  clearbody c1. unfold for_enumerate.
  apply (for_from_preserve (fun c => Inv ns c /\ P c /\ time c = Some now)); [|done].
  intros k x c2 _ (? & ? & ?). by apply tick_satellite_ind.
Qed.

(** *** What tock does *)

Lemma lookup_total_Some (d : gmap pykey pyval) k v : d !! k = Some v -> d !!! k = v.
Proof. intros H. by rewrite lookup_total_alt, H. Qed.

Lemma with_notified_id c : with_notified (notified c) c = c.
Proof. by destruct c. Qed.

Lemma tock_detected_spec ns fid d r i c :
  rec_ok ns fid d r ->
  tock_detected i d c =
    (Ok tt, with_notified (notified c ++ option_list (detected_event d)) c).
Proof.
  intros Hok. pose proof Hok as [Hdf Hrf Hdn Hrn Hrd Hdl Hrl Hto].
  unfold tock_detected, detected_event. mred.
  destruct Hdl as [(Hfd & Hfr & Hall) | (Hfd & n0 & Hn0 & Hfr & Hnn)].
  - rewrite Hfd, (lookup_total_Some _ _ _ Hfd). cbn. by rewrite app_nil_r, with_notified_id.
  - rewrite Hfd, Hfr, Hdf, (lookup_total_Some _ _ _ Hfd), (lookup_total_Some _ _ _ Hfr),
      (lookup_total_Some _ _ _ Hdf). cbn [truthy]. mred.
    rewrite key_of_val_of_key.
    destruct (entry_ok_is_Some _ (Hdn _ Hn0)) as [v Hv].
    by rewrite Hv, (lookup_total_Some _ _ _ Hv).
Qed.

Lemma tock_reported_spec ns fid d r i c :
  rec_ok ns fid d r -> report c !! i = Some r ->
  tock_reported i r c =
    (Ok tt,
     with_report (<[i := <[KStr "firstReport" := VBool false]> r]> (report c))
       (with_notified (notified c ++ option_list (reported_event r)) c)).
Proof.
  intros Hok Hr. pose proof Hok as [Hdf Hrf Hdn Hrn Hrd Hdl Hrl [to Hto]].
  unfold tock_reported, reported_event. mred.
  destruct Hrl as [(Hfr & Hfp & Hall) | (b & n0 & Hfr & Hn0 & Hfp & Hnn)].
  - rewrite Hfr, (lookup_total_Some _ _ _ Hfr). cbn [truthy]. mred.
    rewrite Hr. cbn [option_list]. by rewrite app_nil_r, with_notified_id.
  - rewrite Hfr, (lookup_total_Some _ _ _ Hfr). cbn [truthy]. destruct b.
    + rewrite Hfp, Hrf, Hto, (lookup_total_Some _ _ _ Hfp), (lookup_total_Some _ _ _ Hrf),
        (lookup_total_Some _ _ _ Hto).
      rewrite key_of_val_of_key.
      destruct (entry_ok_is_Some _ (Hrn _ Hn0)) as [v Hv].
      rewrite Hv, (lookup_total_Some _ _ _ Hv). mred. proj. by rewrite Hr.
    + mred. rewrite Hr. cbn [option_list].
      by rewrite app_nil_r, with_notified_id.
Qed.

Lemma option_list_omap {A B} (f : A -> option B) x l :
  omap f (x :: l) = option_list (f x) ++ omap f l.
Proof. cbn. by destruct (f x). Qed.

Lemma tock_detected_loop ds i c :
  Forall d_good ds ->
  for_from i ds tock_detected c =
    (Ok tt, with_notified (notified c ++ omap detected_event ds) c).
Proof.
  intros Hg. revert i c. induction Hg as [|d ds (ns & fid & r & Hok) _ IH]; intros i c.
  - cbn. by rewrite app_nil_r, with_notified_id.
  - cbn [for_from]. unfold bind at 1. erewrite tock_detected_spec by eauto.
    rewrite IH. proj. rewrite option_list_omap. by rewrite app_assoc.
Qed.

Lemma tock_reported_loop rs pre c :
  Forall r_good rs ->
  report c = pre ++ rs ->
  for_from (length pre) rs tock_reported c =
    (Ok tt,
     with_report (pre ++ ((fun r => <[KStr "firstReport" := VBool false]> r) <$> rs))
       (with_notified (notified c ++ omap reported_event rs) c)).
Proof.
  intros Hg. revert pre c. induction Hg as [|r rs (ns & fid & d & Hok) _ IH]; intros pre c Hc.
  - cbn. rewrite !app_nil_r in *. rewrite with_notified_id. rewrite <- Hc. by destruct c.
  - cbn [for_from]. unfold bind at 1.
    assert (Hr : report c !! length pre = Some r).
    { rewrite Hc. by rewrite list_lookup_middle. }
    erewrite tock_reported_spec by eauto.
    specialize (IH (pre ++ [<[KStr "firstReport" := VBool false]> r])).
    rewrite length_app in IH. cbn [length] in IH. rewrite Nat.add_1_r in IH.
    rewrite IH.
    + proj. rewrite option_list_omap, fmap_cons. rewrite <- !app_assoc. done.
    + proj. rewrite Hc. rewrite insert_app_r_alt by done. rewrite Nat.sub_diag. cbn.
      by rewrite <- app_assoc.
Qed.

Lemma Inv_d_good ns c : Inv ns c -> Forall d_good (detect c).
Proof.
  intros HI. apply Forall_lookup. intros j d Hd.
  pose proof (lookup_lt_Some _ _ _ Hd) as Hlt. rewrite (inv_detect_len _ _ HI) in Hlt.
  destruct (lookup_lt_is_Some_2 _ _ Hlt) as [f Hf].
  destruct (Inv_lookup _ _ _ _ HI Hf) as (d' & r & Hd' & Hr & Hok).
  assert (d' = d) as -> by congruence. by exists ns, (fireId f), r.
Qed.

Lemma Inv_r_good ns c : Inv ns c -> Forall r_good (report c).
Proof.
  intros HI. apply Forall_lookup. intros j r Hr.
  pose proof (lookup_lt_Some _ _ _ Hr) as Hlt. rewrite (inv_report_len _ _ HI) in Hlt.
  destruct (lookup_lt_is_Some_2 _ _ Hlt) as [f Hf].
  destruct (Inv_lookup _ _ _ _ HI Hf) as (d & r' & Hd & Hr' & Hok).
  assert (r' = r) as -> by congruence. by exists ns, (fireId f), d.
Qed.

Lemma tock_spec ns c : Inv ns c -> tock c = (Ok tt, tock_result c).
Proof.
  intros HI. unfold tock, tock_result, for_enumerate, Entity_tock.
  unfold bind at 1. unfold modify at 1. unfold bind at 1. unfold gets at 1.
  unfold bind at 1. proj.
  rewrite tock_detected_loop by (by eapply Inv_d_good).
  unfold bind at 1. unfold gets at 1. unfold bind at 1. proj.
  rewrite (tock_reported_loop _ []) by (by eauto using Inv_r_good).
  unfold modify. proj. cbn [app]. by rewrite <- app_assoc.
Qed.

(** *** The other operations, and runs *)

Lemma fromkeys_acc_lookup (ns : list pykey) (acc : gmap pykey pyval) n :
  foldl (fun d n => <[n := VNone]> d) acc ns !! n =
    if decide (n ∈ ns) then Some VNone else acc !! n.
Proof.
  revert acc. induction ns as [|m ns IH]; intros acc; cbn [foldl].
  - case_decide as H; [by apply elem_of_nil in H|done].
  - rewrite IH. destruct (decide (n ∈ ns)) as [Hin|Hnin].
    + rewrite decide_True by (by right). done.
    + destruct (decide (n = m)) as [->|Hne].
      * rewrite decide_True by (by left). by rewrite lookup_insert_eq.
      * rewrite decide_False by (intros [?|?]%elem_of_cons; done).
        by rewrite lookup_insert_ne.
Qed.

Lemma fromkeys_lookup ns n : n ∈ ns -> fromkeys ns !! n = Some VNone.
Proof. intros H. unfold fromkeys. rewrite fromkeys_acc_lookup. by rewrite decide_True. Qed.

Lemma on_fire_spec started c :
  on_fire started c =
    (Ok tt,
     with_report (report c ++ [new_report (names c) (fireId started)])
       (with_detect (detect c ++ [new_detect (names c) (fireId started)])
          (with_fires (fires c ++ [started]) c))).
Proof. reflexivity. Qed.

Lemma initialize_spec init_time c :
  initialize init_time c =
    (Ok tt,
     let ps := (fun satellite => Some (subpoint_at satellite init_time)) <$> satellites c in
     with_positions ps
       (with_next_positions ps
          (with_grounds (Some [])
             (with_next_time (Some init_time) (with_time (Some init_time) c))))).
Proof. reflexivity. Qed.

Lemma on_ground_spec location c :
  on_ground location c =
    match grounds c with
    | None => (Raise AttributeError, c)
    | Some frame =>
        if series_contains frame (groundId location) then (Ok tt, c)
        else (Ok tt, with_grounds (Some (frame ++ [location])) c)
    end.
Proof.
  unfold on_ground, bind, gets. destruct (grounds c) as [frame|]; [|done].
  by destruct (series_contains _ _).
Qed.

Lemma rec_ok_new ns fid :
  names_ok ns = true -> rec_ok ns fid (new_detect ns fid) (new_report ns fid).
Proof.
  intros Hok. unfold new_detect, new_report.
  assert (Hn : forall n, n ∈ ns ->
            (<[KStr "firstDetector" := VNone]>
              (<[KStr "firstDetect" := VBool false]>
                (<[KStr "fireId" := VInt fid]> (fromkeys ns)))) !! n = Some VNone).
  { intros n Hn. destruct (name_not_field _ _ Hok Hn) as (N1 & N2 & N3 & N4 & N5 & N6).
    rewrite !lookup_insert_ne by done. by apply fromkeys_lookup. }
  assert (Hn' : forall n, n ∈ ns ->
            (<[KStr "firstReportedTo" := VNone]>
              (<[KStr "firstReporter" := VNone]>
                (<[KStr "firstReport" := VBool false]>
                  (<[KStr "fireId" := VInt fid]> (fromkeys ns))))) !! n = Some VNone).
  { intros n Hn'. destruct (name_not_field _ _ Hok Hn') as (N1 & N2 & N3 & N4 & N5 & N6).
    rewrite !lookup_insert_ne by done. by apply fromkeys_lookup. }
  split.
  - rewrite !lookup_insert_ne by done. by rewrite lookup_insert_eq.
  - rewrite !lookup_insert_ne by done. by rewrite lookup_insert_eq.
  - intros n Hin. left. by apply Hn.
  - intros n Hin. left. by apply Hn'.
  - intros n Hin Hne. by rewrite Hn' in Hne.
  - left. split; [|split; [|done]].
    + rewrite lookup_insert_ne by done. by rewrite lookup_insert_eq.
    + by rewrite lookup_insert_eq.
  - left. split; [|split; [|done]].
    + rewrite !lookup_insert_ne by done. by rewrite lookup_insert_eq.
    + rewrite lookup_insert_ne by done. by rewrite lookup_insert_eq.
  - rewrite lookup_insert_eq. eauto.
Qed.

Lemma rec_ok_clear ns fid d r :
  names_ok ns = true ->
  rec_ok ns fid d r -> rec_ok ns fid d (<[KStr "firstReport" := VBool false]> r).
Proof.
  intros Hok [Hdf Hrf Hdn Hrn Hrd Hdl Hrl Hto].
  assert (Hn : forall n, n ∈ ns -> <[KStr "firstReport" := VBool false]> r !! n = r !! n).
  { intros n Hn. destruct (name_not_field _ _ Hok Hn) as (N1 & N2 & N3 & N4 & N5 & N6).
    by rewrite lookup_insert_ne. }
  split; try done.
  - by rewrite lookup_insert_ne.
  - intros n Hin. rewrite Hn by done. by apply Hrn.
  - intros n Hin. rewrite Hn by done. by apply Hrd.
  - destruct Hrl as [(Hfr & Hfp & Hall) | (b & n0 & Hfr & Hn0 & Hfp & Hnn)].
    + left. split; [by rewrite lookup_insert_eq|]. split; [by rewrite lookup_insert_ne|].
      intros n Hin. rewrite Hn by done. by apply Hall.
    + right. exists false, n0. split; [by rewrite lookup_insert_eq|]. split; [done|].
      split; [by rewrite lookup_insert_ne|]. by rewrite Hn.
  - by rewrite lookup_insert_ne.
Qed.

Lemma Inv_initialize ns c t : Inv ns c -> Inv ns (initialize t c).2.
Proof.
  intros HI. rewrite initialize_spec. cbn [snd]. cbv zeta.
  eapply Inv_frame; [exact HI|..]; proj; rewrite ?length_fmap; try done. eapply HI.
Qed.

Lemma Inv_on_ground ns c g : Inv ns c -> Inv ns (on_ground g c).2.
Proof.
  intros HI. rewrite on_ground_spec. destruct (grounds c) as [frame|]; [|done].
  destruct (series_contains _ _); [done|].
  eapply Inv_frame; [exact HI|..]; proj; try done; eapply HI.
Qed.

Lemma Inv_on_fire ns c f : Inv ns c -> Inv ns (on_fire f c).2.
Proof.
  intros HI. pose proof HI as [H1 H2 H3 H4 H5 H6 H7 H8 H9].
  rewrite on_fire_spec. cbn [snd]. split; proj; try done.
  - rewrite !length_app. cbn. lia.
  - rewrite !length_app. cbn. lia.
  - intros j f' d r Hf Hd Hr.
    destruct (decide (j < length (fires c))) as [Hlt|Hge].
    + rewrite lookup_app_l in Hf by done.
      rewrite lookup_app_l in Hd by (by rewrite H3).
      rewrite lookup_app_l in Hr by (by rewrite H4). eauto.
    + assert (j = length (fires c)) as ->.
      { apply lookup_lt_Some in Hf. rewrite length_app in Hf. cbn in Hf. lia. }
      rewrite list_lookup_middle in Hf by done.
      rewrite list_lookup_middle in Hd by done.
      rewrite list_lookup_middle in Hr by done.
      inversion Hf; inversion Hd; inversion Hr; subst.
      by apply rec_ok_new.
Qed.

Lemma Inv_tock ns c : Inv ns c -> Inv ns (tock c).2.
Proof.
  intros HI. pose proof HI as [H1 H2 H3 H4 H5 H6 H7 H8 H9].
  rewrite (tock_spec ns) by done. cbn [snd]. unfold tock_result.
  split; proj; rewrite ?length_fmap; try done.
  intros j f d r Hf Hd Hr. rewrite list_lookup_fmap in Hr.
  destruct (report c !! j) as [r0|] eqn:Hr0; [|done]. cbn in Hr. inversion Hr; subst.
  apply rec_ok_clear; eauto.
Qed.

Lemma Inv_tick ns c dt : Inv ns c -> Inv ns (tick dt c).2.
Proof.
  intros HI. destruct (time c) as [now|] eqn:Ht.
  - by apply (tick_ind ns (fun _ => True) dt now c).
  - by rewrite tick_time_None.
Qed.

Lemma Inv_exec ns c o : Inv ns c -> Inv ns (exec o c).2.
Proof.
  destruct o; cbn [exec];
    eauto using Inv_initialize, Inv_tick, Inv_tock, Inv_on_fire, Inv_on_ground.
Qed.

Lemma run_app ops1 ops2 c : run (ops1 ++ ops2) c = run ops2 (run ops1 c).
Proof. unfold run. by rewrite foldl_app. Qed.

Lemma run_snoc ops o c : run (ops ++ [o]) c = (exec o (run ops c)).2.
Proof. by rewrite run_app. Qed.

Lemma Inv_run ns c ops : Inv ns c -> Inv ns (run ops c).
Proof.
  revert c. induction ops as [|o ops IH]; intros c HI; [done|].
  cbn. apply IH. by apply Inv_exec.
Qed.

Lemma init_min_elevations_length i sats es :
  init_min_elevations i sats = Ok es ->
  length es = length sats /\ (sats = [] \/ i + length sats <= length FIELD_OF_REGARD).
Proof.
  revert i es. induction sats as [|s sats IH]; intros i es H; cbn in H.
  - inversion H. by split; [|left].
  - unfold list_getitem in H. destruct (FIELD_OF_REGARD !! i) as [fr|] eqn:Hfr; [|done].
    destruct (init_min_elevations (S i) sats) as [es'|] eqn:He; [|done].
    inversion H; subst. destruct (IH _ _ He) as [IH1 IH2]. cbn [length].
    apply lookup_lt_Some in Hfr. split; [lia|]. right.
    destruct IH2 as [->|IH2]; cbn [length]; lia.
Qed.

Lemma Inv_init ns ES tles c :
  names_ok ns = true -> __init__ ns ES tles = Ok c -> Inv ns c.
Proof.
  intros Hok H. unfold __init__ in H.
  destruct (match tles with Some l => _ | None => _ end) as [sats|]; [|done].
  destruct (init_min_elevations 0 sats) as [es|] eqn:He; [|done].
  inversion H; subst. destruct (init_min_elevations_length _ _ _ He) as [L1 L2].
  split; proj; rewrite ?length_fmap; try done.
  destruct L2 as [->|L2]; cbn [length]; lia.
Qed.

(** *** Detection records only grow *)

Lemma d_stable_refl ns d : d_stable ns d d.
Proof. by repeat split. Qed.

Lemma d_stable_trans ns d1 d2 d3 : d_stable ns d1 d2 -> d_stable ns d2 d3 -> d_stable ns d1 d3.
Proof.
  intros (A1 & A2 & A3 & A4) (B1 & B2 & B3 & B4). split_and!.
  - congruence.
  - eauto.
  - eauto.
  - eauto.
Qed.

Lemma detect_evolves_refl ns c : detect_evolves ns c c.
Proof. intros j d Hd. eauto using d_stable_refl. Qed.

Lemma detect_evolves_trans ns c1 c2 c3 :
  detect_evolves ns c1 c2 -> detect_evolves ns c2 c3 -> detect_evolves ns c1 c3.
Proof.
  intros H1 H2 j d Hd. destruct (H1 _ _ Hd) as (d2 & Hd2 & S1).
  destruct (H2 _ _ Hd2) as (d3 & Hd3 & S2). eauto using d_stable_trans.
Qed.

Lemma detect_evolves_same ns c c' : detect c' = detect c -> detect_evolves ns c c'.
Proof. intros E j d Hd. rewrite E. eauto using d_stable_refl. Qed.

Lemma d_stable_detect_step ns d n t :
  names_ok ns = true -> n ∈ ns -> d_stable ns d (detect_step n t d).
Proof.
  intros Hok Hn. destruct (name_not_field _ _ Hok Hn) as (N1 & N2 & N3 & N4 & N5 & N6).
  assert (Hnn : forall (d0 : gmap pykey pyval) m,
            m ∈ ns -> non_null (d0 !! m) -> non_null (<[n:=VTime t]> d0 !! m)).
  { intros d0 m Hm Hnn. destruct (decide (n = m)) as [->|].
    - rewrite lookup_insert_eq. by eexists.
    - by rewrite lookup_insert_ne. }
  unfold detect_step. rewrite lookup_insert_ne by done.
  destruct (d !! KStr "firstDetector") as [[]|] eqn:Hfd.
  - split_and!.
    + by rewrite !lookup_insert_ne.
    + intros _. rewrite lookup_insert_ne by done. by rewrite lookup_insert_eq.
    + intros v Hv Hv'. congruence.
    + intros m Hm Hnm. destruct (name_not_field _ _ Hok Hm) as (M1 & M2 & M3 & _).
      rewrite !lookup_insert_ne by done. by apply Hnn.
  - split_and!; rewrite ?lookup_insert_ne by done; try done. by apply Hnn.
  - split_and!; rewrite ?lookup_insert_ne by done; try done. by apply Hnn.
  - split_and!; rewrite ?lookup_insert_ne by done; try done. by apply Hnn.
  - split_and!; rewrite ?lookup_insert_ne by done; try done. by apply Hnn.
  - split_and!; rewrite ?lookup_insert_ne by done; try done. by apply Hnn.
Qed.

Lemma detect_evolves_tick ns c dt : Inv ns c -> detect_evolves ns c (tick dt c).2.
Proof.
  intros HI. destruct (time c) as [now|] eqn:Ht.
  2: { rewrite tick_time_None by done. apply detect_evolves_refl. }
  apply (tick_ind ns (detect_evolves ns c) dt now c); try done;
    [|apply detect_evolves_refl].
  split_and!.
  - intros c1 v H. done.
  - intros c1 v H _. done.
  - intros c1 i v H. done.
  - intros c1 i j n d HI1 H Hn Hd. eapply detect_evolves_trans; [exact H|].
    intros j' d' Hd'. proj. destruct (decide (j = j')) as [->|Hne].
    + rewrite list_lookup_insert_eq by (by eapply lookup_lt_Some).
      assert (d' = d) as -> by congruence. eexists; split; [done|].
      apply d_stable_detect_step; [eapply HI|by eapply Inv_name_in].
    + rewrite list_lookup_insert_ne by done. eauto using d_stable_refl.
  - intros c1 i j n gid d r HI1 H Hn Hd Hr Hel. done.
Qed.

Lemma detect_evolves_exec ns c o : Inv ns c -> detect_evolves ns c (exec o c).2.
Proof.
  intros HI. destruct o; cbn [exec].
  - by apply detect_evolves_same.
  - by apply detect_evolves_tick.
  - rewrite (tock_spec ns) by done. by apply detect_evolves_same.
  - rewrite on_fire_spec. cbn [snd]. intros j d Hd. proj.
    exists d. split; [|apply d_stable_refl]. by apply lookup_app_l_Some.
  - apply detect_evolves_same. rewrite on_ground_spec.
    destruct (grounds c); [|done]. by destruct (series_contains _ _).
Qed.

Lemma detect_evolves_run ns c ops : Inv ns c -> detect_evolves ns c (run ops c).
Proof.
  revert c. induction ops as [|o ops IH]; intros c HI; [apply detect_evolves_refl|].
  cbn. eapply detect_evolves_trans; [by apply detect_evolves_exec|].
  apply IH. by apply Inv_exec.
Qed.

(** *** The effect of a tick that returns *)

Lemma detect_pass_S c dt j d k :
  detect_pass c dt j d (S k) =
    match time c, names c !! k with
    | Some now, Some n =>
        if in_view c dt k j then detect_step n (now + dt) (detect_pass c dt j d k)
        else detect_pass c dt j d k
    | _, _ => detect_pass c dt j d k
    end.
Proof. unfold detect_pass. rewrite seq_S, foldl_app. reflexivity. Qed.

Lemma tick_fire_result_Ok dt sat then_ j fire c now m n d r c' :
  tick_fire_result dt sat then_ j fire c now m n d r = (Ok tt, c') ->
  detect c' =
    <[j := if check_in_view then_ sat (latlon (fire_latitude fire) (fire_longitude fire)) m
           then detect_step n (now + dt) d else d]> (detect c) /\
  same_inputs c c' /\ min_elevations_fire c' = min_elevations_fire c.
Proof.
  unfold tick_fire_result, same_inputs.
  destruct (eligible _ _ _).
  - destruct (grounds c); [|done].
    destruct (check_in_range_rows _ _ _) as [[] gid]; intros H; inversion H; subst; done.
  - intros H; inversion H; subst; done.
Qed.

Lemma tick_fire_ok_detect ns dt i sat now j fire c c' m :
  Inv ns c -> time c = Some now -> min_elevations_fire c !! i = Some m ->
  fires c !! j = Some fire ->
  tick_fire dt i sat (now + dt) j fire c = (Ok tt, c') ->
  exists n d,
    names c !! i = Some n /\ detect c !! j = Some d /\
    detect c' =
      <[j := if check_in_view (now + dt) sat
                  (latlon (fire_latitude fire) (fire_longitude fire)) m
             then detect_step n (now + dt) d else d]> (detect c) /\
    same_inputs c c' /\ min_elevations_fire c' = min_elevations_fire c /\ Inv ns c'.
Proof.
  intros HI Ht Hm Hf Hrun.
  destruct (Inv_lookup _ _ _ _ HI Hf) as (d & r & Hd & Hr & Hok).
  destruct (names c !! i) as [n|] eqn:Hn.
  2: { erewrite tick_fire_no_name in Hrun by eauto. done. }
  pose proof (tick_fire_ind ns (fun _ => True) dt now i sat (now + dt) j fire c) as Hind.
  cbn zeta in Hind. rewrite Hrun in Hind. cbn [snd] in Hind.
  destruct Hind as (HI' & _); try done; try (by eexists).
  erewrite tick_fire_outcome in Hrun by eauto.
  apply tick_fire_result_Ok in Hrun as (E1 & E2 & E3).
  exists n, d. done.
Qed.

Lemma in_view_eq c0 dt now k j sat fr fire :
  time c0 = Some now -> satellites c0 !! k = Some sat -> FIELD_OF_REGARD !! k = Some fr ->
  fires c0 !! j = Some fire ->
  in_view c0 dt k j =
    check_in_view (now + dt) sat (latlon (fire_latitude fire) (fire_longitude fire))
      (compute_min_elevation (elevation_m (subpoint_at sat (now + dt))) fr).
Proof. intros Ht Hs Hf Hfi. unfold in_view. by rewrite Ht, Hs, Hf, Hfi. Qed.

Lemma tick_satellite_ok_detect ns c0 dt now k sat c c' :
  time c0 = Some now -> satellites c0 !! k = Some sat ->
  length (detect c0) = length (fires c0) ->
  pass_state ns c0 dt now (fun _ => k) k c ->
  tick_satellite dt k sat c = (Ok tt, c') ->
  pass_state ns c0 dt now (fun _ => S k) (S k) c'.
Proof.
  intros Ht0 Hsat Hlen (HI & Ht & En & Es & Ef & Enp & Hd & Hnm) Hrun.
  unfold tick_satellite in Hrun. unfold_monad_in Hrun. rewrite Ht in Hrun.
  rewrite Enp, list_lookup_fmap, Hsat in Hrun. cbn [fmap option_fmap option_map] in Hrun.
  destruct (FIELD_OF_REGARD !! k) as [fr|] eqn:Hfr; [|done].
  case_bool_decide as Hlt; [|done]. cbv beta iota zeta in Hrun.
  set (m := compute_min_elevation (elevation_m (subpoint_at sat (now + dt))) fr) in *.
  set (c1 := with_min_elevations_fire _ c) in Hrun.
  assert (H1 : pass_state ns c0 dt now (fun j => if decide (j < 0) then S k else k)
                 (if decide (0 < 0) then S k else k) c1 /\
               min_elevations_fire c1 !! k = Some m).
  { split; [|subst c1; proj; by apply list_lookup_insert_eq].
    split_and!; try done.
    eapply Inv_frame; [exact HI|..]; subst c1; proj; try done;
      rewrite ?length_insert; eapply HI. }
  assert (Hfs : fires c1 = fires c0) by done.
  clearbody c1. clear HI Ht En Es Ef Enp Hd Hlt c.
  unfold for_enumerate in Hrun. rewrite Hfs in Hrun.
  pose proof (for_from_rule
    (fun j0 c => pass_state ns c0 dt now (fun j => if decide (j < j0) then S k else k)
                   (if decide (0 < j0) then S k else k) c /\
                 min_elevations_fire c !! k = Some m)
    (tick_fire dt k sat (now + dt)) (fires c0) 0 c1 c' H1) as Hloop.
  cbn beta in Hloop.
  destruct Hloop as [(HI' & Ht' & En' & Es' & Ef' & Enp' & Hd' & Hnm') _]; [|exact Hrun|].
  - intros j0 fire c c2 Hfire ((HI & Ht & En & Es & Ef & Enp & Hd & Hnm0) & Hm) Hbody.
    cbn [Nat.add] in *. rewrite <- Ef in Hfire.
    destruct (tick_fire_ok_detect ns dt k sat now j0 fire c c2 m) as
      (n & d & Hn & Hdj & Hdet & (F1 & F2 & F3 & F4 & F5) & Hmin & HI2); try done.
    split; [|by rewrite Hmin]. split_and!; try congruence.
    + intros j d0 Hd0. specialize (Hd _ _ Hd0). rewrite Hdet.
      destruct (decide (j = j0)) as [->|Hne].
      * rewrite list_lookup_insert_eq by (by eapply lookup_lt_Some).
        rewrite decide_True by lia. rewrite decide_False in Hd by lia.
        assert (d = detect_pass c0 dt j0 d0 k) as -> by congruence.
        rewrite detect_pass_S, Ht0. rewrite <- En, Hn. rewrite Ef in Hfire.
        by rewrite (in_view_eq c0 dt now k j0 sat fr fire).
      * rewrite list_lookup_insert_ne by done. rewrite Hd.
        repeat case_decide; try done; lia.
    + intros Hne i Hi. rewrite decide_True in Hi by lia.
      destruct (decide (i = k)) as [->|]; [rewrite <- En; eauto|].
      apply Hnm; [done|lia].
  - split_and!; try done.
    + intros j d Hdj. rewrite (Hd' _ _ Hdj).
      rewrite decide_True; [done|]. cbn [Nat.add]. rewrite <- Hlen. by eapply lookup_lt_Some.
    + intros Hne i Hi. apply Hnm'; [done|]. rewrite decide_True; [done|].
      cbn [Nat.add]. destruct (fires c0); [done|cbn; lia].
Qed.

Lemma tick_ok_detect ns c dt c' :
  Inv ns c -> tick dt c = (Ok tt, c') ->
  exists now, time c = Some now /\
    (forall j d, detect c !! j = Some d ->
       detect c' !! j = Some (detect_pass c dt j d (length (satellites c)))) /\
    (fires c <> [] -> forall i, i < length (satellites c) -> is_Some (names c !! i)).
Proof.
  intros HI Hrun. destruct (time c) as [now|] eqn:Ht.
  2: { by rewrite tick_time_None in Hrun. }
  exists now. split; [done|].
  unfold tick, Entity_tick in Hrun. unfold_monad_in Hrun. rewrite Ht in Hrun.
  cbv beta iota zeta in Hrun.
  change (time (with_next_time (Some (now + dt)%Z) c)) with (time c) in Hrun.
  rewrite Ht in Hrun. cbv beta iota zeta in Hrun.
  set (c1 := with_next_positions _ _) in Hrun.
  assert (H1 : pass_state ns c dt now (fun _ => 0) 0 c1).
  { split_and!; try done.
    - eapply Inv_frame; [exact HI|..]; subst c1; proj; try done;
        rewrite ?length_fmap; try done; eapply HI.
    - intros _ i Hi. lia. }
  assert (Hs : satellites c1 = satellites c) by done. rewrite Hs in Hrun.
  clearbody c1. unfold for_enumerate in Hrun.
  pose proof (for_from_rule (fun k c2 => pass_state ns c dt now (fun _ => k) k c2)
                (tick_satellite dt) (satellites c) 0 c1 c' H1) as Hloop.
  cbn beta in Hloop. destruct Hloop as (_ & _ & _ & _ & _ & _ & Hd & Hnm); [|exact Hrun|].
  - intros k sat c2 c3 Hsat Hps Hbody. cbn [Nat.add] in *.
    eapply tick_satellite_ok_detect; eauto. eapply HI.
  - split; [intros j d Hdj; by apply Hd|done].
Qed.

Lemma detect_step_lookup_name ns n' t (d : gmap pykey pyval) n :
  names_ok ns = true -> n ∈ ns ->
  detect_step n' t d !! n = if decide (n' = n) then Some (VTime t) else d !! n.
Proof.
  intros Hok Hn. destruct (name_not_field _ _ Hok Hn) as (N1 & N2 & N3 & N4 & N5 & N6).
  unfold detect_step.
  assert (H : <[n':=VTime t]> d !! n = if decide (n' = n) then Some (VTime t) else d !! n)
    by apply lookup_insert.
  destruct (<[n':=VTime t]> d !! KStr "firstDetector") as [[]|];
    rewrite ?lookup_insert_ne by done; exact H.
Qed.

Lemma detect_step_firstDetector ns n t (d : gmap pykey pyval) :
  names_ok ns = true -> n ∈ ns ->
  detect_step n t d !! KStr "firstDetector" =
    match d !! KStr "firstDetector" with
    | Some VNone => Some (val_of_key n)
    | x => x
    end.
Proof.
  intros Hok Hn. destruct (name_not_field _ _ Hok Hn) as (N1 & N2 & N3 & N4 & N5 & N6).
  unfold detect_step. rewrite lookup_insert_ne by done.
  destruct (d !! KStr "firstDetector") as [[]|] eqn:Hfd;
    rewrite ?lookup_insert_eq, ?lookup_insert_ne by done; done.
Qed.

Lemma detect_pass_in_view ns c dt now j d k i n :
  names_ok ns = true -> names c = ns -> time c = Some now ->
  i < k -> names c !! i = Some n -> in_view c dt i j = true ->
  detect_pass c dt j d k !! n = Some (VTime (now + dt)).
Proof.
  intros Hok En Ht Hi Hn Hv.
  assert (Hin : n ∈ ns) by (rewrite <- En; by eapply list_elem_of_lookup_2).
  induction k as [|k IH]; [lia|].
  rewrite detect_pass_S, Ht.
  destruct (decide (i = k)) as [->|Hne].
  - rewrite Hn, Hv. rewrite (detect_step_lookup_name ns) by done. by rewrite decide_True.
  - assert (IH' : detect_pass c dt j d k !! n = Some (VTime (now + dt))) by (apply IH; lia).
    destruct (names c !! k) as [n'|] eqn:Hn'; [|done].
    destruct (in_view c dt k j); [|done].
    rewrite (detect_step_lookup_name ns) by done. by case_decide.
Qed.

Lemma find_snoc {A} (p : A -> bool) l x :
  List.find p (l ++ [x]) =
    match List.find p l with
    | Some y => Some y
    | None => if p x then Some x else None
    end.
Proof. induction l as [|y l IH]; cbn; [done|]. by destruct (p y). Qed.

Lemma detect_pass_firstDetector ns c dt now j d k :
  names_ok ns = true -> names c = ns -> time c = Some now ->
  d !! KStr "firstDetector" = Some VNone ->
  (forall i, i < k -> is_Some (names c !! i)) ->
  match List.find (fun i => in_view c dt i j) (seq 0 k) with
  | Some i => exists n, names c !! i = Some n /\
                        detect_pass c dt j d k !! KStr "firstDetector" = Some (val_of_key n)
  | None => detect_pass c dt j d k !! KStr "firstDetector" = Some VNone
  end.
Proof.
  intros Hok En Ht Hd Hnm. induction k as [|k IH]; [done|].
  rewrite seq_S, find_snoc. cbn [Nat.add]. rewrite detect_pass_S, Ht.
  destruct (Hnm k) as [n Hn]; [lia|]. rewrite Hn.
  assert (Hin : n ∈ ns) by (rewrite <- En; by eapply list_elem_of_lookup_2).
  specialize (IH ltac:(intros; apply Hnm; lia)).
  destruct (List.find _ (seq 0 k)) as [i|].
  - destruct IH as (n0 & Hn0 & Hfd). exists n0. split; [done|].
    destruct (in_view c dt k j); [|done].
    rewrite (detect_step_firstDetector ns) by done. rewrite Hfd. by destruct n0.
  - destruct (in_view c dt k j); [|done].
    exists n. split; [done|]. rewrite (detect_step_firstDetector ns) by done. by rewrite IH.
Qed.

Lemma tick_entry_kept_or_stamped ns c dt now :
  Inv ns c -> time c = Some now ->
  forall j d n, detect c !! j = Some d -> n ∈ ns ->
    exists d', detect (tick dt c).2 !! j = Some d' /\
               (d' !! n = d !! n \/ d' !! n = Some (VTime (now + dt))).
Proof.
  intros HI Ht.
  pose proof (tick_ind ns
    (fun c' => forall j d n, detect c !! j = Some d -> n ∈ ns ->
       exists d', detect c' !! j = Some d' /\
                  (d' !! n = d !! n \/ d' !! n = Some (VTime (now + dt)))) dt now c) as H.
  cbn zeta in H. apply H; try done; [|by eauto]. clear H.
  split_and!; try done.
  intros c1 i j n d HI1 H Hn Hd j' d0 n0 Hd0 Hn0.
  destruct (H _ _ _ Hd0 Hn0) as (d1 & Hd1 & Hor). proj.
  destruct (decide (j = j')) as [->|Hne].
  - rewrite list_lookup_insert_eq by (by eapply lookup_lt_Some).
    assert (d1 = d) as -> by congruence. eexists. split; [done|].
    rewrite (detect_step_lookup_name ns) by (done || eapply HI). case_decide; eauto.
  - rewrite list_lookup_insert_ne by done. eauto.
Qed.

(** *** Notifications only come from tock *)

Lemma notified_tick ns c dt : Inv ns c -> notified (tick dt c).2 = notified c.
Proof.
  intros HI. destruct (time c) as [now|] eqn:Ht.
  2: { by rewrite tick_time_None. }
  by apply (tick_ind ns (fun c' => notified c' = notified c) dt now c).
Qed.

Lemma notified_tock ns c :
  Inv ns c ->
  notified (tock c).2 =
    notified c ++ omap detected_event (detect c) ++ omap reported_event (report c).
Proof. intros HI. by rewrite (tock_spec ns). Qed.

Lemma notified_exec ns c o :
  Inv ns c -> o <> OpTock -> notified (exec o c).2 = notified c.
Proof.
  intros HI Ho. destruct o; cbn [exec]; try done.
  - by eapply notified_tick.
  - rewrite on_ground_spec. destruct (grounds c); [|done]. by destruct (series_contains _ _).
Qed.

(** *** Records with a pending report have a detection to announce *)

Lemma rec_ok_detected_event ns fid d r :
  rec_ok ns fid d r ->
  detected_event d =
    match d !! KStr "firstDetect" with
    | Some (VBool true) =>
        Some (FireDetected (VInt fid)
                (getitem_val_total d (d !!! KStr "firstDetector"))
                (d !!! KStr "firstDetector"))
    | _ => None
    end.
Proof.
  intros [Hdf _ _ _ _ Hdl _ _]. unfold detected_event.
  rewrite (lookup_total_Some _ _ _ Hdf).
  destruct Hdl as [(Hfd & _) | (Hfd & _)]; by rewrite Hfd, (lookup_total_Some _ _ _ Hfd).
Qed.

Lemma rec_ok_reported_event ns fid d r :
  rec_ok ns fid d r ->
  reported_event r =
    match r !! KStr "firstReport" with
    | Some (VBool true) =>
        Some (FireReported (VInt fid)
                (getitem_val_total r (r !!! KStr "firstReporter"))
                (r !!! KStr "firstReporter") (r !!! KStr "firstReportedTo"))
    | _ => None
    end.
Proof.
  intros [_ Hrf _ _ _ _ Hrl _]. unfold reported_event.
  rewrite (lookup_total_Some _ _ _ Hrf).
  destruct Hrl as [(Hfr & _) | (b & n & Hfr & _)];
    rewrite Hfr, (lookup_total_Some _ _ _ Hfr); [done|by destruct b].
Qed.

Lemma rec_ok_report_needs_detect ns fid d r :
  rec_ok ns fid d r -> r !! KStr "firstReport" = Some (VBool true) ->
  d !! KStr "firstDetect" = Some (VBool true).
Proof.
  intros [_ _ Hdn _ Hrd Hdl Hrl _] Hfr.
  destruct Hrl as [(Hfr' & _) | (b & n & _ & Hn & _ & Hnn)]; [congruence|].
  destruct Hdl as [(_ & _ & Hall) | (Hfd & _)]; [|done].
  exfalso. by apply (Hrd n Hn Hnn), Hall.
Qed.

Lemma rec_ok_detected_iff ns fid d r :
  rec_ok ns fid d r ->
  is_Some (detected_event d) <-> exists n, n ∈ ns /\ non_null (d !! n).
Proof.
  intros Hok. rewrite (rec_ok_detected_event _ _ _ _ Hok).
  destruct Hok as [_ _ Hdn _ _ Hdl _ _].
  destruct Hdl as [(Hfd & _ & Hall) | (Hfd & n & Hn & _ & Hnn)]; rewrite Hfd.
  - split; [by intros [? ?]|]. intros (n & Hn & v & Hv & Hne).
    rewrite (Hall n Hn) in Hv. congruence.
  - split; [|by eauto]. intros _. exists n. split; [done|].
    destruct (Hdn n Hn) as [?|[t Ht]]; [done|]. exists (VTime t). by rewrite Ht.
Qed.

(** *** Report notifications come after detection notifications *)

Lemma omap_detected_no_report ds before after fid a b c :
  omap detected_event ds = before ++ FireReported fid a b c :: after -> False.
Proof.
  intros H.
  assert (Hin : FireReported fid a b c ∈ omap detected_event ds)
    by (rewrite H; apply elem_of_app; right; left).
  apply list_elem_of_omap in Hin as (d & _ & Hd). unfold detected_event in Hd.
  by destruct (truthy _).
Qed.

Lemma split_after_detected ds l before after fid a b c :
  omap detected_event ds ++ l = before ++ FireReported fid a b c :: after ->
  exists pre, before = omap detected_event ds ++ pre /\
              l = pre ++ FireReported fid a b c :: after.
Proof.
  intros H. apply app_eq_app in H as [l0 [[H1 H2]|[H1 H2]]].
  - destruct l0 as [|x l0].
    + rewrite app_nil_r in H1. cbn in H2. exists []. by rewrite app_nil_r, H1.
    + cbn in H2. inversion H2; subst. exfalso. by eapply omap_detected_no_report.
  - exists l0. done.
Qed.

Lemma pending_report_detected ns c e :
  Inv ns c -> e ∈ omap reported_event (report c) ->
  exists fid a b x t by_,
    e = FireReported fid a b x /\
    FireDetected fid t by_ ∈ omap detected_event (detect c).
Proof.
  intros HI He. apply list_elem_of_omap in He as (r & Hr & Hev).
  apply list_elem_of_lookup in Hr as [j Hr].
  pose proof (lookup_lt_Some _ _ _ Hr) as Hlt. rewrite (inv_report_len _ _ HI) in Hlt.
  destruct (lookup_lt_is_Some_2 _ _ Hlt) as [f Hf].
  destruct (Inv_lookup _ _ _ _ HI Hf) as (d & r' & Hd & Hr' & Hok).
  assert (r' = r) as -> by congruence.
  rewrite (rec_ok_reported_event _ _ _ _ Hok) in Hev.
  destruct (r !! KStr "firstReport") as [[|[]| | |]|] eqn:Hfr; try done.
  inversion Hev; subst e. do 6 eexists. split; [done|].
  apply list_elem_of_omap. exists d. split; [by eapply list_elem_of_lookup_2|].
  rewrite (rec_ok_detected_event _ _ _ _ Hok).
  by rewrite (rec_ok_report_needs_detect _ _ _ _ Hok Hfr).
Qed.

Lemma report_after_detect_tock ns c :
  Inv ns c -> report_after_detect (notified c) -> report_after_detect (notified (tock c).2).
Proof.
  intros HI Hlog. rewrite (notified_tock ns) by done.
  intros before after fid a b x Heq.
  assert (Hcase : (exists l0, notified c = before ++ FireReported fid a b x :: l0) \/
                  (exists l0, before = notified c ++ l0 /\
                     omap detected_event (detect c) ++ omap reported_event (report c) =
                       l0 ++ FireReported fid a b x :: after)).
  { apply app_eq_app in Heq as [l0 [[H1 H2]|[H1 H2]]].
    - destruct l0 as [|y l0].
      + right. exists []. rewrite app_nil_r in *. cbn in H2. by subst.
      + left. cbn in H2. inversion H2; subst. by exists l0.
    - right. by exists l0. }
  destruct Hcase as [[l0 H1]|(l0 & H1 & H2)].
  - by eapply Hlog.
  - apply split_after_detected in H2 as (pre & Hpre & Hrp).
    destruct (pending_report_detected ns c (FireReported fid a b x)) as
      (fid' & a' & b' & x' & t & by_ & Heq' & Hin); [done| |].
    { rewrite Hrp. apply elem_of_app. right. left. }
    inversion Heq'; subst. exists t, by_.
    apply elem_of_app. right. apply elem_of_app. by left.
Qed.

Lemma report_after_detect_run ns c ops :
  Inv ns c -> report_after_detect (notified c) -> report_after_detect (notified (run ops c)).
Proof.
  revert c. induction ops as [|o ops IH]; intros c HI Hlog; [done|].
  cbn. apply IH; [by apply Inv_exec|].
  destruct o; try (by rewrite (notified_exec ns)).
  by eapply report_after_detect_tock.
Qed.

(** *** Counting report notifications *)

Lemma count_if_app {A} (p : A -> bool) l1 l2 :
  count_if p (l1 ++ l2) = count_if p l1 + count_if p l2.
Proof. unfold count_if. by rewrite List.filter_app, length_app. Qed.

Lemma count_if_cons {A} (p : A -> bool) x l :
  count_if p (x :: l) = (if p x then 1 else 0) + count_if p l.
Proof. unfold count_if. cbn. by destruct (p x). Qed.

Lemma count_if_le {A} (p q : A -> bool) l :
  (forall x, p x = true -> q x = true) -> count_if p l <= count_if q l.
Proof.
  intros H. induction l as [|x l IH]; [done|]. rewrite !count_if_cons.
  specialize (H x). destruct (p x), (q x); try lia.
Qed.

Lemma report_step_key ns n t gid (r : gmap pykey pyval) f :
  names_ok ns = true -> n ∈ ns ->
  has_fireId f (report_step n t gid r) && emitted (report_step n t gid r) =
  has_fireId f r && emitted r.
Proof.
  intros Hok Hn. destruct (name_not_field _ _ Hok Hn) as (N1 & N2 & N3 & N4 & N5 & N6).
  unfold report_step, has_fireId, emitted. rewrite lookup_insert_ne by done.
  destruct (r !! KStr "firstReporter") as [[]|] eqn:Hfp;
    rewrite !lookup_total_alt;
    repeat (rewrite lookup_insert_eq || rewrite lookup_insert_ne by done);
    rewrite ?Hfp; cbn; try done.
  by rewrite !andb_false_r.
Qed.

Lemma tick_reports_same ns c dt f :
  Inv ns c ->
  count_if (fun r => has_fireId f r && emitted r) (report (tick dt c).2) =
  count_if (fun r => has_fireId f r && emitted r) (report c).
Proof.
  intros HI. destruct (time c) as [now|] eqn:Ht.
  2: { by rewrite tick_time_None. }
  apply (tick_ind ns
    (fun c' => count_if (fun r => has_fireId f r && emitted r) (report c') =
               count_if (fun r => has_fireId f r && emitted r) (report c)) dt now c);
    try done.
  split_and!; try done.
  intros c1 i j n gid d r HI1 H Hn Hd Hr Hel. proj. rewrite <- H.
  rewrite <- (take_drop_middle _ _ _ Hr) at 2.
  rewrite insert_take_drop by (by eapply lookup_lt_Some).
  rewrite !count_if_app, !count_if_cons.
  rewrite (report_step_key ns) by (eapply HI1 || by eapply Inv_name_in). done.
Qed.

Lemma tock_record_count ns fid d (r : gmap pykey pyval) f :
  rec_ok ns fid d r ->
  (if has_fireId f (<[KStr "firstReport" := VBool false]> r) &&
      emitted (<[KStr "firstReport" := VBool false]> r) then 1 else 0) =
  count_if (is_reported f) (option_list (reported_event r)) +
  (if has_fireId f r && emitted r then 1 else 0).
Proof.
  intros Hok. rewrite (rec_ok_reported_event _ _ _ _ Hok).
  destruct Hok as [_ Hrf _ _ _ _ Hrl _].
  unfold has_fireId, emitted.
  rewrite !lookup_total_alt, lookup_insert_eq, !lookup_insert_ne by done. rewrite Hrf.
  destruct Hrl as [(Hfr & Hfp & _) | (b & n & Hfr & _ & Hfp & _)]; rewrite Hfr, Hfp; cbn.
  - by rewrite !andb_false_r.
  - assert (Hn : is_None (val_of_key n) = false) by (by destruct n). rewrite Hn. cbn.
    destruct b; cbn.
    + rewrite andb_false_r, andb_true_r. unfold count_if. cbn.
      destruct (bool_decide (VInt fid = VInt f)); cbn; lia.
    + rewrite !andb_true_r. unfold count_if. cbn. lia.
Qed.

Lemma tock_reports_count rs f :
  Forall r_good rs ->
  count_if (fun r => has_fireId f r && emitted r)
    ((fun r => <[KStr "firstReport" := VBool false]> r) <$> rs) =
  count_if (is_reported f) (omap reported_event rs) +
  count_if (fun r => has_fireId f r && emitted r) rs.
Proof.
  induction 1 as [|r rs (ns & fid & d & Hok) _ IH]; [done|].
  rewrite fmap_cons, option_list_omap, count_if_app, !count_if_cons, IH.
  rewrite (tock_record_count _ _ _ _ f Hok). lia.
Qed.

Lemma detected_not_reported ds f :
  count_if (is_reported f) (omap detected_event ds) = 0.
Proof.
  induction ds as [|d ds IH]; [done|].
  rewrite option_list_omap, count_if_app, IH. unfold detected_event.
  by destruct (truthy _).
Qed.

Lemma reports_counted_exec ns c o :
  Inv ns c -> reports_counted c -> reports_counted (exec o c).2.
Proof.
  intros HI Hc f. specialize (Hc f). destruct o.
  - by rewrite (notified_exec ns).
  - rewrite (notified_exec ns) by done. cbn [exec]. by rewrite (tick_reports_same ns).
  - cbn [exec]. rewrite (tock_spec ns) by done.
    cbn [snd]. unfold tock_result. proj.
    rewrite !count_if_app, detected_not_reported, tock_reports_count
      by (by eapply Inv_r_good). lia.
  - rewrite (notified_exec ns) by done. cbn [exec]. rewrite on_fire_spec. cbn [snd]. proj.
    rewrite count_if_app, count_if_cons. rewrite Hc.
    assert (He : emitted (new_report (names c) (fireId started)) = false).
    { unfold emitted, new_report. rewrite !lookup_total_alt.
      rewrite lookup_insert_ne by done. by rewrite lookup_insert_eq. }
    rewrite He, andb_false_r. unfold count_if. cbn. lia.
  - rewrite (notified_exec ns) by done. cbn [exec]. rewrite on_ground_spec.
    destruct (grounds c); [|done]. by destruct (series_contains _ _).
Qed.

Lemma reports_counted_run ns c ops :
  Inv ns c -> reports_counted c -> reports_counted (run ops c).
Proof.
  revert c. induction ops as [|o ops IH]; intros c HI Hc; [done|].
  cbn. apply IH; [by apply Inv_exec|by eapply reports_counted_exec].
Qed.

Lemma records_per_fire ns c f :
  Inv ns c ->
  count_if (has_fireId f) (report c) =
  count_if (fun fire => bool_decide (fireId fire = f)) (fires c).
Proof.
  intros HI.
  assert (H : Forall2 (fun r fire => has_fireId f r = bool_decide (fireId fire = f))
                (report c) (fires c)).
  { apply Forall2_same_length_lookup. split; [eapply HI|].
    intros j r fire Hr Hf.
    destruct (Inv_lookup _ _ _ _ HI Hf) as (d & r' & Hd & Hr' & Hok).
    assert (r' = r) as -> by congruence. unfold has_fireId.
    rewrite (lookup_total_Some _ _ _ (ok_r_fid _ _ _ _ Hok)).
    apply bool_decide_ext. split; [by intros [= ->]|by intros ->]. }
  induction H as [|r fire rs fs Hx _ IH]; [done|].
  by rewrite !count_if_cons, Hx, IH.
Qed.

Lemma count_if_NoDup_le_1 (l : list FireStarted) f :
  NoDup (fireId <$> l) -> count_if (fun fire => bool_decide (fireId fire = f)) l <= 1.
Proof.
  induction l as [|x l IH]; [cbn; lia|].
  rewrite fmap_cons. intros [Hx Hl]%NoDup_cons. rewrite count_if_cons.
  case_bool_decide as Hf; [|apply IH in Hl; lia].
  assert (count_if (fun fire => bool_decide (fireId fire = f)) l = 0); [|lia].
  clear IH Hl. induction l as [|y l IH]; [done|].
  rewrite count_if_cons. rewrite fmap_cons in Hx.
  apply not_elem_of_cons in Hx as [Hne Hx]. rewrite IH by done.
  case_bool_decide; [congruence|done].
Qed.

(** *** More on ticks and on the ground table *)

Lemma detect_pass_none c dt j d k :
  List.find (fun i => in_view c dt i j) (seq 0 k) = None ->
  detect_pass c dt j d k = d.
Proof.
  induction k as [|k IH]; [done|].
  rewrite seq_S, find_snoc. cbn [Nat.add].
  destruct (List.find _ (seq 0 k)); [done|].
  destruct (in_view c dt k j) eqn:Hv; [done|]. intros _.
  rewrite detect_pass_S, Hv, IH by done.
  destruct (time c); [|done]. by destruct (names c !! k).
Qed.

Lemma report_step_latched ns n t gid (r : gmap pykey pyval) :
  names_ok ns = true -> n ∈ ns -> non_null (r !! KStr "firstReporter") ->
  report_step n t gid r !! KStr "firstReport" = r !! KStr "firstReport" /\
  report_step n t gid r !! KStr "firstReporter" = r !! KStr "firstReporter".
Proof.
  intros Hok Hn (v & Hv & Hne).
  destruct (name_not_field _ _ Hok Hn) as (N1 & N2 & N3 & N4 & N5 & N6).
  unfold report_step. rewrite lookup_insert_ne by done. rewrite Hv.
  destruct v; try done; by rewrite !lookup_insert_ne.
Qed.

Lemma tick_report_flag_latched ns c dt :
  Inv ns c ->
  forall j r, report c !! j = Some r -> non_null (r !! KStr "firstReporter") ->
    exists r', report (tick dt c).2 !! j = Some r' /\
               r' !! KStr "firstReport" = r !! KStr "firstReport" /\
               r' !! KStr "firstReporter" = r !! KStr "firstReporter".
Proof.
  intros HI. destruct (time c) as [now|] eqn:Ht.
  2: { rewrite tick_time_None by done. eauto. }
  pose proof (tick_ind ns
    (fun c' => forall j r, report c !! j = Some r -> non_null (r !! KStr "firstReporter") ->
       exists r', report c' !! j = Some r' /\
                  r' !! KStr "firstReport" = r !! KStr "firstReport" /\
                  r' !! KStr "firstReporter" = r !! KStr "firstReporter") dt now c) as H.
  cbn zeta in H. apply H; try done; [|by eauto]. clear H.
  split_and!; try done.
  intros c1 i j n gid d r HI1 H Hn Hd Hr Hel j' r0 Hr0 Hnn.
  destruct (H _ _ Hr0 Hnn) as (r1 & Hr1 & E1 & E2). proj.
  destruct (decide (j = j')) as [->|Hne].
  - rewrite list_lookup_insert_eq by (by eapply lookup_lt_Some).
    assert (r1 = r) as -> by congruence. eexists. split; [done|].
    destruct (report_step_latched ns n (now + dt) gid r) as [F1 F2];
      [eapply HI|by eapply Inv_name_in|by rewrite E2|].
    split; congruence.
  - rewrite list_lookup_insert_ne by done. eauto.
Qed.

(** [check_in_range] returns the position of the first operational row
    whose elevation requirement is met. *)
Lemma check_in_range_rows_first_match t sat (frame : DataFrame) k0 :
  check_in_range_rows t sat (imap (fun k ground => (k0 + k, ground)) frame) =
    match List.find (fun '(k, ground) =>
                  operational ground &&
                  fge (get_elevation_angle t sat (latlon (latitude ground) (longitude ground)))
                      (elevAngle ground))
               (imap (fun k ground => (k0 + k, ground)) frame) with
    | Some (k, _) => (true, VInt (Z.of_nat k))
    | None => (false, VNone)
    end.
Proof.
  revert k0. induction frame as [|g frame IH]; intros k0; [done|].
  cbn [imap check_in_range_rows List.find].
  assert (E : imap ((fun k ground => (k0 + k, ground)) ∘ S) frame =
              imap (fun k ground => (S k0 + k, ground)) frame).
  { apply imap_ext. intros i x _. cbn. f_equal. lia. }
  rewrite E, IH.
  destruct (operational g); cbn [andb]; [|done].
  by destruct (fge _ _).
Qed.

(** *** The claims *)

Lemma Inv_reached ns ES tles c0 ops :
  names_ok ns = true -> __init__ ns ES tles = Ok c0 -> Inv ns (run ops c0).
Proof. intros Hok Hi. apply Inv_run. by eapply Inv_init. Qed.

Lemma Inv_detect_lookup ns c j d :
  Inv ns c -> detect c !! j = Some d ->
  exists f r, fires c !! j = Some f /\ report c !! j = Some r /\ rec_ok ns (fireId f) d r.
Proof.
  intros HI Hd. pose proof (lookup_lt_Some _ _ _ Hd) as Hlt.
  rewrite (inv_detect_len _ _ HI) in Hlt.
  destruct (lookup_lt_is_Some_2 _ _ Hlt) as [f Hf].
  destruct (Inv_lookup _ _ _ _ HI Hf) as (d' & r & Hd' & Hr & Hok).
  assert (d' = d) as -> by congruence. eauto.
Qed.

Lemma rec_ok_detected_flag ns fid d r :
  rec_ok ns fid d r ->
  is_Some (detected_event d) <-> d !! KStr "firstDetect" = Some (VBool true).
Proof.
  intros Hok. rewrite (rec_ok_detected_event _ _ _ _ Hok).
  destruct Hok as [_ _ _ _ _ Hdl _ _].
  destruct Hdl as [(Hfd & _) | (Hfd & _)]; rewrite Hfd; split; eauto; try done.
Qed.

Lemma tick_in_view_stamped ns c dt c' i j :
  Inv ns c -> tick dt c = (Ok tt, c') -> in_view c dt i j = true ->
  exists now n d', time c = Some now /\ names c !! i = Some n /\
                   detect c' !! j = Some d' /\ d' !! n = Some (VTime (now + dt)).
Proof.
  intros HI Hrun Hv. destruct (tick_ok_detect _ _ _ _ HI Hrun) as (now & Ht & Hd & Hnm).
  unfold in_view in Hv. rewrite Ht in Hv.
  destruct (satellites c !! i) as [sat|] eqn:Hs; [|done].
  destruct (FIELD_OF_REGARD !! i) as [fr|] eqn:Hfr; [|done].
  destruct (fires c !! j) as [fire|] eqn:Hf; [|done].
  destruct (Inv_lookup _ _ _ _ HI Hf) as (d & r & Hdj & Hr & Hok).
  destruct (Hnm ltac:(by intros E; rewrite E in Hf) i (lookup_lt_Some _ _ _ Hs)) as [n Hn].
  exists now, n, (detect_pass c dt j d (length (satellites c))).
  split_and!; try done; [by apply Hd|].
  eapply (detect_pass_in_view ns); try done; [eapply HI..|by eapply lookup_lt_Some|].
  unfold in_view. by rewrite Ht, Hs, Hfr, Hf.
Qed.

(** C2 (amended): tick looks at every satellite and fire whether or not the
    entry is already set, and writes currentTime + Δt into the entry whenever
    the satellite is in view; so a later tick overwrites an entry that is
    already set.  What stays true: a tick leaves an entry as it was or sets
    it to currentTime + Δt, and an entry that holds a timestamp is never
    null again. *)
Theorem detection_timestamp_follows_view ns ES tles c0 ops :
  names_ok ns = true -> __init__ ns ES tles = Ok c0 ->
  let c := run ops c0 in
  (forall dt c' i j, tick dt c = (Ok tt, c') -> in_view c dt i j = true ->
     exists now n d', time c = Some now /\ names c !! i = Some n /\
                      detect c' !! j = Some d' /\ d' !! n = Some (VTime (now + dt))) /\
  (forall dt now j d n, time c = Some now -> detect c !! j = Some d -> n ∈ ns ->
     exists d', detect (tick dt c).2 !! j = Some d' /\
                (d' !! n = d !! n \/ d' !! n = Some (VTime (now + dt)))) /\
  (forall more j d n, detect c !! j = Some d -> n ∈ ns -> non_null (d !! n) ->
     exists d', detect (run more c) !! j = Some d' /\ non_null (d' !! n)).
Proof.
  intros Hok Hi c. pose proof (Inv_reached ns ES tles c0 ops Hok Hi) as HI. fold c in HI.
  split_and!.
  - intros dt c' i j. by apply (tick_in_view_stamped ns).
  - intros dt now j d n Ht Hd Hn. by apply (tick_entry_kept_or_stamped ns).
  - intros more j d n Hd Hn Hnn.
    destruct (detect_evolves_run ns c more HI j d Hd) as (d' & Hd' & _ & _ & _ & Hkeep).
    eauto.
Qed.

(** C6: in every state of a run, each Reported notification the observers
    have received comes after a Detected notification with the same fire id;
    and a tock appends its Detected notifications, in the order of the
    detection records, before its Reported notifications, in the order of
    the report records. *)
Theorem reported_after_detected ns ES tles c0 ops :
  names_ok ns = true -> __init__ ns ES tles = Ok c0 ->
  let c := run ops c0 in
  report_after_detect (notified c) /\
  notified (tock c).2 =
    notified c ++ omap detected_event (detect c) ++ omap reported_event (report c) /\
  (forall e, e ∈ omap detected_event (detect c) ->
     exists fid t by_, e = FireDetected fid t by_) /\
  (forall e, e ∈ omap reported_event (report c) ->
     exists fid t by_ to, e = FireReported fid t by_ to).
Proof.
  intros Hok Hi c. pose proof (Inv_init ns ES tles c0 Hok Hi) as HI0.
  pose proof (Inv_run ns c0 ops HI0) as HI. fold c in HI.
  split_and!.
  - apply (report_after_detect_run ns); [done|].
    unfold __init__ in Hi.
    destruct (match tles with Some l => _ | None => _ end); [|done].
    destruct (init_min_elevations _ _); [|done]. inversion Hi; subst. proj.
    intros bf af fid' t' by' to' H. by destruct bf.
  - by apply (notified_tock ns).
  - intros e (d & _ & He)%list_elem_of_omap. unfold detected_event in He.
    destruct (truthy _); [|done]. inversion He. eauto.
  - intros e (r & _ & He)%list_elem_of_omap. unfold reported_event in He.
    destruct (truthy _); [|done]. inversion He. eauto.
Qed.

(** C7: over a whole run the observers receive, for each fire id, at most as
    many Reported notifications as there are fires with that id, hence at
    most one when the ids are distinct.  A tock sends a Reported
    notification exactly for the records whose [firstReport] flag is set and
    leaves every flag cleared; a tick never sets the flag of a record that
    already has a first reporter. *)
Theorem reported_at_most_once ns ES tles c0 ops :
  names_ok ns = true -> __init__ ns ES tles = Ok c0 ->
  let c := run ops c0 in
  (forall f, count_if (is_reported f) (notified c) <=
             count_if (fun fire => bool_decide (fireId fire = f)) (fires c)) /\
  (NoDup (fireId <$> fires c) -> forall f, count_if (is_reported f) (notified c) <= 1) /\
  (forall j r, report c !! j = Some r ->
     (is_Some (reported_event r) <-> r !! KStr "firstReport" = Some (VBool true))) /\
  (forall j r, report (tock c).2 !! j = Some r ->
     r !! KStr "firstReport" = Some (VBool false)) /\
  (forall dt j r, report c !! j = Some r -> non_null (r !! KStr "firstReporter") ->
     exists r', report (tick dt c).2 !! j = Some r' /\
                r' !! KStr "firstReport" = r !! KStr "firstReport").
Proof.
  intros Hok Hi c. pose proof (Inv_init ns ES tles c0 Hok Hi) as HI0.
  pose proof (Inv_run ns c0 ops HI0) as HI. fold c in HI.
  assert (Hcount : reports_counted c).
  { apply (reports_counted_run ns); [done|].
    unfold __init__ in Hi.
    destruct (match tles with Some l => _ | None => _ end); [|done].
    destruct (init_min_elevations _ _); [|done]. inversion Hi; subst. by intros f. }
  assert (Hle : forall f, count_if (is_reported f) (notified c) <=
                          count_if (fun fire => bool_decide (fireId fire = f)) (fires c)).
  { intros f. rewrite (Hcount f), <- (records_per_fire ns c f HI).
    apply count_if_le. by intros r [? _]%andb_true_iff. }
  split_and!.
  - done.
  - intros Hnd f. specialize (Hle f). pose proof (count_if_NoDup_le_1 _ f Hnd). lia.
  - intros j r Hr.
    pose proof (lookup_lt_Some _ _ _ Hr) as Hlt. rewrite (inv_report_len _ _ HI) in Hlt.
    destruct (lookup_lt_is_Some_2 _ _ Hlt) as [f Hf].
    destruct (Inv_lookup _ _ _ _ HI Hf) as (d & r' & _ & Hr' & Hrec).
    assert (r' = r) as -> by congruence.
    rewrite (rec_ok_reported_event _ _ _ _ Hrec).
    destruct (r !! KStr "firstReport") as [[|[]| | |]|]; split; try done; eauto.
    all: by intros [? ?].
  - intros j r. rewrite (tock_spec ns) by done. cbn [snd]. unfold tock_result. proj.
    rewrite list_lookup_fmap. destruct (report c !! j); [|done]. cbn.
    intros [= <-]. by rewrite lookup_insert_eq.
  - intros dt j r Hr Hnn.
    destruct (tick_report_flag_latched ns c dt HI j r Hr Hnn) as (r' & Hr' & E & _). eauto.
Qed.

(** C9 (amended): in every state of a run the lists of fires, detection
    records and report records have the same length and the records at an
    index carry the id of the fire at that index; the lists of positions,
    next positions and minimum elevations have the length of the list of
    satellites. *)
Theorem fires_and_records_aligned ns ES tles c0 ops :
  names_ok ns = true -> __init__ ns ES tles = Ok c0 ->
  let c := run ops c0 in
  length (detect c) = length (fires c) /\
  length (report c) = length (fires c) /\
  (forall j f, fires c !! j = Some f ->
     exists d r, detect c !! j = Some d /\ report c !! j = Some r /\
                 d !! KStr "fireId" = Some (VInt (fireId f)) /\
                 r !! KStr "fireId" = Some (VInt (fireId f))) /\
  length (positions c) = length (satellites c) /\
  length (next_positions c) = length (satellites c) /\
  length (min_elevations_fire c) = length (satellites c).
Proof.
  intros Hok Hi c. pose proof (Inv_reached ns ES tles c0 ops Hok Hi) as HI. fold c in HI.
  split_and!; try eapply HI.
  intros j f Hf. destruct (Inv_lookup _ _ _ _ HI Hf) as (d & r & Hd & Hr & Hrec).
  exists d, r. split_and!; try done; eapply Hrec.
Qed.

(** C10: from every state of a run, tock returns normally and changes only
    the positions (to the next positions), the clock (to the next time) and
    the [firstReport] entry of every report record (to False); and once
    [firstDetect] is True in a record it is True after every later
    operation. *)
Theorem tock_frame ns ES tles c0 ops :
  names_ok ns = true -> __init__ ns ES tles = Ok c0 ->
  let c := run ops c0 in
  (exists c', tock c = (Ok tt, c') /\
     positions c' = next_positions c /\
     time c' = next_time c /\
     report c' = (fun r => <[KStr "firstReport" := VBool false]> r) <$> report c /\
     names c' = names c /\ fires c' = fires c /\ grounds c' = grounds c /\
     satellites c' = satellites c /\ detect c' = detect c /\
     next_positions c' = next_positions c /\
     min_elevations_fire c' = min_elevations_fire c /\
     next_time c' = next_time c) /\
  (forall more j d, detect c !! j = Some d ->
     d !! KStr "firstDetect" = Some (VBool true) ->
     exists d', detect (run more c) !! j = Some d' /\
                d' !! KStr "firstDetect" = Some (VBool true)).
Proof.
  intros Hok Hi c. pose proof (Inv_reached ns ES tles c0 ops Hok Hi) as HI. fold c in HI.
  split.
  - exists (tock_result c). split; [by apply (tock_spec ns)|]. by split_and!.
  - intros more j d Hd Hflag.
    destruct (detect_evolves_run ns c more HI j d Hd) as (d' & Hd' & _ & Hkeep & _).
    eauto.
Qed.

End proofs.
End FiresatFacts.

(** ** Facts about the geometry, on the reals *)

Module GeometryFacts.
Local Open Scope R_scope.

Lemma dec_R m e : dec (F:=R) m e = IZR m / IZR (10 ^ Z.of_nat e).
Proof. reflexivity. Qed.

Lemma compute_min_elevation_R altitude field_of_regard :
  compute_min_elevation (F:=R) altitude field_of_regard =
    if Rgt_dec (cos_epsilon_R altitude field_of_regard) 1 then 0
    else acos (cos_epsilon_R altitude field_of_regard) * (180 / PI).
Proof.
  unfold compute_min_elevation, cos_epsilon_R, earth_mean_radius_R.
  cbn [fdiv fadd fmul fgt np_sin np_arccos np_radians np_degrees R_num].
  rewrite !dec_R.
  change (Z.of_nat 9) with 9%Z. change (Z.of_nat 0) with 0%Z. change (Z.of_nat 1) with 1%Z.
  change (10 ^ 9)%Z with 1000000000%Z. change (10 ^ 0)%Z with 1%Z.
  change (10 ^ 1)%Z with 10%Z.
  replace (IZR 6378137000000000 / 1000000000) with 6378137 by lra.
  replace (2 / 1) with 2 by lra. replace (3 / 1) with 3 by lra.
  replace (1 / 1) with 1 by lra. replace (0 / 10) with 0 by lra.
  cbv zeta. destruct (Rgt_dec _ _); reflexivity.
Qed.

Lemma earth_mean_radius_bounds : 6371000 < earth_mean_radius_R < 6372000.
Proof. unfold earth_mean_radius_R. lra. Qed.







End GeometryFacts.

(** ** Worked scenarios *)

Module ScenarioFacts.
Import Firesat Scenario FiresatFacts.

(** C1 (counterexample): one fire, two steps.  When satellite 0 is in view
    of the fire at the first step only, the observers still receive a
    Detected notification for fire 1 at each of the two tocks; when it is in
    view at both steps the second notification carries the later time. *)
Lemma detected_twice_for_one_fire :
  notified (run (two_steps first_step_only) (start_state first_step_only)) =
    [FireDetected (VInt 1) (VTime 1) (VInt 39634);
     FireDetected (VInt 1) (VTime 1) (VInt 39634)] /\
  notified (run (two_steps always) (start_state always)) =
    [FireDetected (VInt 1) (VTime 1) (VInt 39634);
     FireDetected (VInt 1) (VTime 2) (VInt 39634)] /\
  ~ count_if (is_detected 1)
      (notified (run (two_steps first_step_only) (start_state first_step_only))) <= 1.
Proof. split; [by vm_compute|]. split; [by vm_compute|]. vm_compute. lia. Qed.

(** C2 (counterexample): the entry of satellite 39634 for the fire holds the
    time 1 after the first step, and the second tick replaces it by 2. *)
Lemma detection_timestamp_rewritten :
  let c := run [OpInitialize 0; OpFire (fire always 1); OpTick 1; OpTock]
               (start_state always) in
  (detect c !! 0 ≫= (fun d => d !! KInt 39634)) = Some (VTime 1) /\
  (detect (tick 1 c).2 !! 0 ≫= (fun d => d !! KInt 39634)) = Some (VTime 2).
Proof. by vm_compute. Qed.

(** C2 (witness): at the first tick satellite 0 is in view of the fire and
    its entry receives the time 1. *)
Lemma detection_timestamp_follows_view_witness :
  exists now n d',
    time (run [OpInitialize 0; OpFire (fire always 1)] (start_state always)) = Some now /\
    names (run [OpInitialize 0; OpFire (fire always 1)] (start_state always)) !! 0 = Some n /\
    detect (tick 1 (run [OpInitialize 0; OpFire (fire always 1)] (start_state always))).2 !! 0
      = Some d' /\
    d' !! n = Some (VTime (now + 1)).
Proof.
  refine (proj1 (@detection_timestamp_follows_view (sky always) two_names (Some [0; 1]) None
                   (start_state always) [OpInitialize 0; OpFire (fire always 1)] _ _)
            1%Z _ 0 0 _ _).
  - vm_compute. reflexivity.
  - vm_compute. reflexivity.
  - vm_compute. reflexivity.
  - vm_compute. reflexivity.
Defined.

(** C3: the only station has groundId 7 and is operational and in range;
    [check_in_range] answers True with 0, the position of the row, where
    its docstring and the claim promise the groundId 7. *)
Theorem check_in_range_returns_row_index :
  groundId <$> [station always 7 true] = [7%Z] /\
  @check_in_range (sky always) 1 0 (Some [station always 7 true]) = Ok (true, VInt 0).
Proof. by vm_compute. Qed.

(** C4: after two messages for groundId 5 that differ in the operational
    flag the registry has two rows for groundId 5; and after two messages
    for groundId 0 it has one row, which still carries the first flag. *)
Theorem on_ground_twice_does_not_upsert :
  grounds (run [OpInitialize 0; OpGround (station always 5 true);
                OpGround (station always 5 false)] (start_state always)) =
    Some [station always 5 true; station always 5 false] /\
  grounds (run [OpInitialize 0; OpGround (station always 0 true);
                OpGround (station always 0 false)] (start_state always)) =
    Some [station always 0 true].
Proof. by vm_compute. Qed.

(** C6 (witness): the log after two steps with a station. *)
Lemma reported_after_detected_witness :
  report_after_detect (notified (run (two_steps_with_station always) (start_state always))).
Proof.
  refine (proj1 (@reported_after_detected (sky always) two_names (Some [0; 1]) None
                   (start_state always) (two_steps_with_station always) _ _)).
  - vm_compute. reflexivity.
  - vm_compute. reflexivity.
Defined.

(** C7 (witness): one Reported notification for fire 1, and one fire. *)
Lemma reported_at_most_once_witness :
  count_if (is_reported 1)
    (notified (run (two_steps_with_station always) (start_state always))) <=
  count_if (fun fire => bool_decide (fireId fire = 1%Z))
    (fires (run (two_steps_with_station always) (start_state always))).
Proof.
  refine (proj1 (@reported_at_most_once (sky always) two_names (Some [0; 1]) None
                   (start_state always) (two_steps_with_station always) _ _) 1%Z).
  - vm_compute. reflexivity.
  - vm_compute. reflexivity.
Defined.

(** C9 (counterexample): with two satellites and two fires the three lists
    have the same length; one more fire and the records are three while
    the satellites are still two. *)
Lemma satellites_not_aligned_with_records :
  let c := run [OpFire (fire never 1); OpFire (fire never 2)] (start_state never) in
  let c' := (exec (OpFire (fire never 3)) c).2 in
  (length (satellites c) = length (detect c) /\ length (detect c) = length (report c)) /\
  ~ (length (satellites c') = length (detect c') /\ length (detect c') = length (report c')).
Proof. split; [by vm_compute|]. vm_compute. intros [H _]. lia. Qed.

(** C9 (witness): one fire, one detection record. *)
Lemma fires_and_records_aligned_witness :
  length (detect (run (two_steps_with_station always) (start_state always))) =
  length (fires (run (two_steps_with_station always) (start_state always))).
Proof.
  refine (proj1 (@fires_and_records_aligned (sky always) two_names (Some [0; 1]) None
                   (start_state always) (two_steps_with_station always) _ _)).
  - vm_compute. reflexivity.
  - vm_compute. reflexivity.
Defined.

(** C10 (witness): the detection record of the fire has its flag set after
    two steps, and still has it after two more. *)
Lemma tock_frame_witness :
  exists d',
    detect (run [OpTick 1; OpTock; OpTick 1; OpTock]
              (run (two_steps_with_station always) (start_state always))) !! 0 = Some d' /\
    d' !! KStr "firstDetect" = Some (VBool true).
Proof.
  refine (proj2 (@tock_frame (sky always) two_names (Some [0; 1]) None
                   (start_state always) (two_steps_with_station always) _ _)
            [OpTick 1; OpTock; OpTick 1; OpTock] 0 _ _ _).
  - vm_compute. reflexivity.
  - vm_compute. reflexivity.
  - vm_compute. reflexivity.
  - vm_compute. reflexivity.
Defined.

(** Why the theorems ask that no satellite bears a field name: a satellite
    called "firstDetector" shares its entry with the field, the latch at
    line 267 then never finds the field [None], and the fire it sees at both
    steps is never announced. *)
Lemma name_clash_hides_detection :
  names_ok [KStr "firstDetector"; KInt 40697] = false /\
  (exists c0,
     @__init__ (sky always) [KStr "firstDetector"; KInt 40697] (Some [0; 1]) None = Ok c0 /\
     notified (run (two_steps always) c0) = [] /\
     (detect (run (two_steps always) c0) !! 0 ≫= (fun d => d !! KStr "firstDetector")) =
       Some (VTime 2)).
Proof. split; [by vm_compute|]. eexists. split; [vm_compute; reflexivity|]. by vm_compute. Qed.

End ScenarioFacts.

(** ** Facts about the sensor geometry, on the reals *)

Module SensorFacts.
Import GeometryFacts.
Local Open Scope R_scope.

Lemma compute_sensor_radius_R altitude min_elevation :
  compute_sensor_radius (F:=R) altitude min_elevation =
    if Rlt_dec (sw_HalfAngle_R altitude min_elevation) 0 then 0
    else earth_mean_radius_R * (sw_HalfAngle_R altitude min_elevation * (PI / 180)).
Proof.
  unfold compute_sensor_radius, sw_HalfAngle_R, sin_rho_R, earth_mean_radius_R.
  cbn [fdiv fadd fmul fsub flt fgt np_sin np_cos np_arcsin np_arccos np_radians np_degrees
       R_num R_trig].
  rewrite !dec_R.
  change (Z.of_nat 9) with 9%Z. change (Z.of_nat 0) with 0%Z. change (Z.of_nat 1) with 1%Z.
  change (10 ^ 9)%Z with 1000000000%Z. change (10 ^ 0)%Z with 1%Z.
  change (10 ^ 1)%Z with 10%Z.
  replace (IZR 63781370 / 10) with 6378137 by lra.
  replace (2 / 1) with 2 by lra. replace (3 / 1) with 3 by lra.
  replace (90 / 1) with 90 by lra. replace (0 / 10) with 0 by lra.
  cbv zeta. destruct (Rlt_dec _ _); reflexivity.
Qed.

(** The arc cosine is decreasing on [-1, 1]. *)
Lemma acos_antitone x y : -1 <= x -> x <= y -> y <= 1 -> acos y <= acos x.
Proof.
  intros Hx Hxy Hy. destruct (Rle_or_lt (acos y) (acos x)) as [|Hlt]; [done|].
  pose proof (acos_bound x) as [Bx1 Bx2]. pose proof (acos_bound y) as [By1 By2].
  pose proof (cos_decreasing_1 (acos x) (acos y) Bx1 Bx2 By1 By2 Hlt) as Hc.
  rewrite !cos_acos in Hc by lra. lra.
Qed.

Lemma acos_le_PI2 x : 0 <= x -> x <= 1 -> acos x <= PI / 2.
Proof.
  intros H0 H1. rewrite <- acos_0. apply acos_antitone; lra.
Qed.

Lemma asin_monotone x y : -1 <= x -> x <= y -> y <= 1 -> asin x <= asin y.
Proof.
  intros Hx Hxy Hy. rewrite !asin_acos by lra.
  pose proof (acos_antitone x y Hx Hxy Hy). lra.
Qed.

Lemma asin_nonneg x : 0 <= x -> x <= 1 -> 0 <= asin x.
Proof. intros H0 H1. rewrite <- asin_0. apply asin_monotone; lra. Qed.

Lemma sin_rho_bounds altitude : 0 <= altitude -> 0 < sin_rho_R altitude <= 1.
Proof.
  intros Ha. pose proof earth_mean_radius_bounds as Hr. unfold sin_rho_R. split.
  - apply Rdiv_lt_0_compat; lra.
  - apply Rmult_le_reg_r with (earth_mean_radius_R + altitude); [lra|].
    unfold Rdiv. rewrite Rmult_assoc, Rinv_l by lra. lra.
Qed.

Lemma sin_rho_antitone a1 a2 : 0 <= a1 -> a1 <= a2 -> sin_rho_R a2 <= sin_rho_R a1.
Proof.
  intros H1 H2. pose proof earth_mean_radius_bounds as Hr. unfold sin_rho_R, Rdiv.
  apply Rmult_le_compat_l; [lra|]. apply Rinv_le_contravar; lra.
Qed.

Lemma cos_epsilon_sin_rho altitude field_of_regard :
  cos_epsilon_R altitude field_of_regard =
    sin (field_of_regard / 2 * (PI / 180)) / sin_rho_R altitude.
Proof. reflexivity. Qed.

Lemma half_angle_bounds field_of_regard :
  0 <= field_of_regard <= 180 -> 0 <= field_of_regard / 2 * (PI / 180) <= PI / 2.
Proof.
  intros [H0 H1]. pose proof PI_RGT_0 as HPI. split.
  - apply Rmult_le_pos; [lra|]. apply Rlt_le, Rdiv_lt_0_compat; lra.
  - replace (PI / 2) with (180 / 2 * (PI / 180)) by field.
    apply Rmult_le_compat_r; [|lra]. apply Rlt_le, Rdiv_lt_0_compat; lra.
Qed.

Lemma sin_half_angle_bounds field_of_regard :
  0 <= field_of_regard <= 180 -> 0 <= sin (field_of_regard / 2 * (PI / 180)) <= 1.
Proof.
  intros H. pose proof (half_angle_bounds _ H) as [B0 B1]. pose proof PI_RGT_0 as HPI. split.
  - apply sin_ge_0; lra.
  - pose proof (SIN_bound (field_of_regard / 2 * (PI / 180))). lra.
Qed.

Lemma cos_epsilon_nonneg altitude field_of_regard :
  0 <= altitude -> 0 <= field_of_regard <= 180 ->
  0 <= cos_epsilon_R altitude field_of_regard.
Proof.
  intros Ha Hf. rewrite cos_epsilon_sin_rho.
  pose proof (sin_rho_bounds _ Ha) as [S0 S1].
  pose proof (sin_half_angle_bounds _ Hf) as [T0 T1].
  apply Rmult_le_pos; [done|]. apply Rlt_le, Rinv_0_lt_compat. done.
Qed.

Lemma min_elevation_range altitude field_of_regard :
  0 <= altitude -> 0 <= field_of_regard <= 180 ->
  0 <= compute_min_elevation (F:=R) altitude field_of_regard <= 90.
Proof.
  intros Ha Hf. rewrite compute_min_elevation_R.
  pose proof (cos_epsilon_nonneg _ _ Ha Hf) as Hc. pose proof PI_RGT_0 as HPI.
  destruct (Rgt_dec _ _) as [|Hn]; [lra|].
  pose proof (acos_bound (cos_epsilon_R altitude field_of_regard)) as [B0 _].
  pose proof (acos_le_PI2 (cos_epsilon_R altitude field_of_regard) Hc ltac:(lra)) as B1.
  assert (HK : 0 < 180 / PI) by (apply Rdiv_lt_0_compat; lra).
  split.
  - apply Rmult_le_pos; lra.
  - replace 90 with (PI / 2 * (180 / PI)) by (field; lra).
    apply Rmult_le_compat_r; lra.
Qed.

(** X1: at an altitude that is not negative and for a field of regard
    between 0 and 180 degrees, [compute_min_elevation] returns an angle
    between 0 and 90 degrees. *)
Theorem min_elevation_between_0_and_90 altitude field_of_regard :
  0 <= altitude -> 0 <= field_of_regard <= 180 ->
  0 <= compute_min_elevation (F:=R) altitude field_of_regard <= 90.
Proof. apply min_elevation_range. Qed.

Lemma cos_epsilon_monotone a1 f1 a2 f2 :
  0 <= a1 -> a1 <= a2 -> 0 <= f1 -> f1 <= f2 -> f2 <= 180 ->
  cos_epsilon_R a1 f1 <= cos_epsilon_R a2 f2.
Proof.
  intros Ha1 Ha Hf1 Hf Hf2. rewrite !cos_epsilon_sin_rho.
  pose proof (sin_rho_bounds a1 Ha1) as [S0 S1].
  pose proof (sin_rho_bounds a2 ltac:(lra)) as [S2 S3].
  pose proof (sin_rho_antitone a1 a2 Ha1 Ha) as Hs.
  pose proof (half_angle_bounds f1 ltac:(lra)) as [B0 B1].
  pose proof (half_angle_bounds f2 ltac:(lra)) as [B2 B3].
  pose proof (sin_half_angle_bounds f1 ltac:(lra)) as [T0 T1].
  pose proof PI_RGT_0 as HPI.
  assert (Hsin : sin (f1 / 2 * (PI / 180)) <= sin (f2 / 2 * (PI / 180))).
  { apply sin_incr_1; try lra.
    apply Rmult_le_compat_r; [|lra]. apply Rlt_le, Rdiv_lt_0_compat; lra. }
  unfold Rdiv at 1 3.
  apply Rmult_le_compat; try lra.
  - apply Rlt_le, Rinv_0_lt_compat. done.
  - apply Rinv_le_contravar; lra.
Qed.

(** X2: [compute_min_elevation] never grows when the altitude grows or the
    field of regard widens (altitudes not negative, fields of regard
    between 0 and 180 degrees). *)
Theorem min_elevation_antitone a1 f1 a2 f2 :
  0 <= a1 -> a1 <= a2 -> 0 <= f1 -> f1 <= f2 -> f2 <= 180 ->
  compute_min_elevation (F:=R) a2 f2 <= compute_min_elevation (F:=R) a1 f1.
Proof.
  intros Ha1 Ha Hf1 Hf Hf2.
  pose proof (min_elevation_range a1 f1 Ha1 ltac:(lra)) as [L _].
  pose proof (cos_epsilon_monotone a1 f1 a2 f2 Ha1 Ha Hf1 Hf Hf2) as Hc.
  pose proof (cos_epsilon_nonneg a1 f1 Ha1 ltac:(lra)) as Hc0.
  rewrite compute_min_elevation_R in L. rewrite !compute_min_elevation_R.
  destruct (Rgt_dec (cos_epsilon_R a2 f2) 1) as [|H2]; [lra|].
  destruct (Rgt_dec (cos_epsilon_R a1 f1) 1) as [|H1]; [lra|].
  pose proof PI_RGT_0 as HPI.
  apply Rmult_le_compat_r; [apply Rlt_le, Rdiv_lt_0_compat; lra|].
  apply acos_antitone; lra.
Qed.

Lemma radians_bounds e : 0 <= e <= 90 -> 0 <= e * (PI / 180) <= PI / 2.
Proof.
  intros [H0 H1]. pose proof PI_RGT_0 as HPI.
  assert (HK : 0 < PI / 180) by (apply Rdiv_lt_0_compat; lra). split.
  - apply Rmult_le_pos; lra.
  - replace (PI / 2) with (90 * (PI / 180)) by field. apply Rmult_le_compat_r; lra.
Qed.

Lemma cos_radians_bounds e : 0 <= e <= 90 -> 0 <= cos (e * (PI / 180)) <= 1.
Proof.
  intros H. pose proof (radians_bounds _ H) as [B0 B1]. pose proof PI_RGT_0 as HPI. split.
  - apply cos_ge_0; lra.
  - pose proof (COS_bound (e * (PI / 180))). lra.
Qed.

(** The argument of the arc sine in [compute_sensor_radius] is a sine. *)
Lemma nadir_sine_bounds altitude e :
  0 <= altitude -> 0 <= e <= 90 -> 0 <= cos (e * (PI / 180)) * sin_rho_R altitude <= 1.
Proof.
  intros Ha He. pose proof (sin_rho_bounds _ Ha) as [S0 S1].
  pose proof (cos_radians_bounds _ He) as [C0 C1]. split.
  - apply Rmult_le_pos; lra.
  - replace 1 with (1 * 1) by lra. apply Rmult_le_compat; lra.
Qed.

Lemma sw_HalfAngle_le altitude e :
  0 <= altitude -> 0 <= e <= 90 -> sw_HalfAngle_R altitude e <= 90 - e.
Proof.
  intros Ha He. unfold sw_HalfAngle_R.
  pose proof (nadir_sine_bounds _ _ Ha He) as [N0 N1].
  pose proof (asin_nonneg _ N0 N1) as Hs. pose proof PI_RGT_0 as HPI.
  assert (HK : 0 < 180 / PI) by (apply Rdiv_lt_0_compat; lra).
  assert (0 <= asin (cos (e * (PI / 180)) * sin_rho_R altitude) * (180 / PI))
    by (apply Rmult_le_pos; lra).
  lra.
Qed.

Lemma sw_HalfAngle_monotone a1 a2 e :
  0 <= a1 -> a1 <= a2 -> 0 <= e <= 90 -> sw_HalfAngle_R a1 e <= sw_HalfAngle_R a2 e.
Proof.
  intros Ha1 Ha He. unfold sw_HalfAngle_R.
  pose proof (nadir_sine_bounds a1 e Ha1 He) as [N0 N1].
  pose proof (nadir_sine_bounds a2 e ltac:(lra) He) as [M0 M1].
  pose proof (cos_radians_bounds _ He) as [C0 C1].
  pose proof (sin_rho_antitone a1 a2 Ha1 Ha) as Hs.
  assert (Hx : cos (e * (PI / 180)) * sin_rho_R a2 <= cos (e * (PI / 180)) * sin_rho_R a1)
    by (apply Rmult_le_compat_l; lra).
  assert (Hm := asin_monotone _ _ (Rle_trans _ _ _ (Rle_trans (-1) 0 _ ltac:(lra) (Rle_refl 0)) M0) Hx N1). pose proof PI_RGT_0 as HPI.
  assert (HK : 0 < 180 / PI) by (apply Rdiv_lt_0_compat; lra).
  assert (asin (cos (e * (PI / 180)) * sin_rho_R a2) * (180 / PI) <=
          asin (cos (e * (PI / 180)) * sin_rho_R a1) * (180 / PI))
    by (apply Rmult_le_compat_r; lra).
  lra.
Qed.

(** X3: at an altitude that is not negative and for a minimum elevation
    between 0 and 90 degrees, [compute_sensor_radius] returns a radius that
    is not negative and is at most the arc of 90 - min_elevation degrees on
    the mean earth sphere. *)
Theorem sensor_radius_bounds altitude min_elevation :
  0 <= altitude -> 0 <= min_elevation <= 90 ->
  0 <= compute_sensor_radius (F:=R) altitude min_elevation
    <= earth_mean_radius_R * ((90 - min_elevation) * (PI / 180)).
Proof.
  intros Ha He. rewrite compute_sensor_radius_R.
  pose proof (sw_HalfAngle_le _ _ Ha He) as Hle.
  pose proof earth_mean_radius_bounds as Hr. pose proof PI_RGT_0 as HPI.
  assert (HK : 0 < PI / 180) by (apply Rdiv_lt_0_compat; lra).
  destruct (Rlt_dec _ _) as [Hlt|Hge].
  - split; [lra|]. apply Rmult_le_pos; [lra|]. apply Rmult_le_pos; lra.
  - split.
    + apply Rmult_le_pos; [lra|]. apply Rmult_le_pos; lra.
    + apply Rmult_le_compat_l; [lra|]. apply Rmult_le_compat_r; lra.
Qed.

(** X4: for a minimum elevation between 0 and 90 degrees,
    [compute_sensor_radius] never shrinks when the altitude grows. *)
Theorem sensor_radius_grows_with_altitude a1 a2 min_elevation :
  0 <= a1 -> a1 <= a2 -> 0 <= min_elevation <= 90 ->
  compute_sensor_radius (F:=R) a1 min_elevation
    <= compute_sensor_radius (F:=R) a2 min_elevation.
Proof.
  intros Ha1 Ha He. rewrite !compute_sensor_radius_R.
  pose proof (sw_HalfAngle_monotone a1 a2 _ Ha1 Ha He) as Hm.
  pose proof earth_mean_radius_bounds as Hr. pose proof PI_RGT_0 as HPI.
  assert (HK : 0 < PI / 180) by (apply Rdiv_lt_0_compat; lra).
  destruct (Rlt_dec (sw_HalfAngle_R a1 min_elevation) 0) as [H1|H1];
    destruct (Rlt_dec (sw_HalfAngle_R a2 min_elevation) 0) as [H2|H2]; try lra.
  - apply Rmult_le_pos; [lra|]. apply Rmult_le_pos; lra.
  - apply Rmult_le_compat_l; [lra|]. apply Rmult_le_compat_r; lra.
Qed.

(** With the minimum elevation that [compute_min_elevation] returns, the
    nadir angle that [compute_sensor_radius] recovers is half the field of
    regard. *)
Lemma sw_HalfAngle_of_min_elevation altitude field_of_regard :
  0 <= altitude -> 0 <= field_of_regard <= 180 ->
  cos_epsilon_R altitude field_of_regard <= 1 ->
  sw_HalfAngle_R altitude (compute_min_elevation (F:=R) altitude field_of_regard) =
    90 - field_of_regard / 2 - compute_min_elevation (F:=R) altitude field_of_regard.
Proof.
  intros Ha Hf Hc. rewrite compute_min_elevation_R.
  destruct (Rgt_dec _ _) as [|_]; [lra|].
  pose proof (cos_epsilon_nonneg _ _ Ha Hf) as Hc0.
  pose proof (sin_rho_bounds _ Ha) as [S0 S1].
  pose proof (half_angle_bounds _ Hf) as [B0 B1]. pose proof PI_RGT_0 as HPI.
  unfold sw_HalfAngle_R.
  replace (acos (cos_epsilon_R altitude field_of_regard) * (180 / PI) * (PI / 180))
    with (acos (cos_epsilon_R altitude field_of_regard)) by (field; lra).
  rewrite cos_acos by lra.
  replace (cos_epsilon_R altitude field_of_regard * sin_rho_R altitude)
    with (sin (field_of_regard / 2 * (PI / 180)))
    by (rewrite cos_epsilon_sin_rho; field; lra).
  rewrite asin_sin by lra.
  replace (field_of_regard / 2 * (PI / 180) * (180 / PI)) with (field_of_regard / 2)
    by (field; lra).
  reflexivity.
Qed.

(** X5: fed with the minimum elevation that [compute_min_elevation]
    returns for a field of regard between 0 and 180 degrees whose grazing
    cosine is at most 1, [compute_sensor_radius] recovers half the field of
    regard as nadir angle: the swath half angle is
    90 - field_of_regard / 2 - min_elevation, it is not negative (the guard
    of line 83 does not fire), and the radius is its arc on the mean earth
    sphere. *)
Theorem sensor_radius_of_min_elevation altitude field_of_regard :
  0 <= altitude -> 0 <= field_of_regard <= 180 ->
  cos_epsilon_R altitude field_of_regard <= 1 ->
  let e := compute_min_elevation (F:=R) altitude field_of_regard in
  0 <= 90 - field_of_regard / 2 - e /\
  compute_sensor_radius (F:=R) altitude e =
    earth_mean_radius_R * ((90 - field_of_regard / 2 - e) * (PI / 180)).
Proof.
  intros Ha Hf Hc e.
  assert (Hsw : 0 <= 90 - field_of_regard / 2 - e).
  { subst e. rewrite compute_min_elevation_R.
    destruct (Rgt_dec _ _) as [|_]; [lra|].
    pose proof (cos_epsilon_nonneg _ _ Ha Hf) as Hc0.
    pose proof (sin_rho_bounds _ Ha) as [S0 S1].
    pose proof (half_angle_bounds _ Hf) as [B0 B1].
    pose proof (sin_half_angle_bounds _ Hf) as [T0 T1]. pose proof PI_RGT_0 as HPI.
    assert (Hge : sin (field_of_regard / 2 * (PI / 180)) <=
                  cos_epsilon_R altitude field_of_regard).
    { rewrite cos_epsilon_sin_rho.
      set (s := sin (field_of_regard / 2 * (PI / 180))) in *.
      apply Rmult_le_reg_r with (sin_rho_R altitude); [lra|].
      replace (s / sin_rho_R altitude * sin_rho_R altitude) with (s * 1) by (field; lra).
      apply Rmult_le_compat_l; lra. }
    assert (Hac := acos_antitone _ _ (Rle_trans (-1) 0 _ ltac:(lra) T0) Hge Hc).
    rewrite <- cos_shift in Hac. rewrite acos_cos in Hac by lra.
    assert (HK : 0 < 180 / PI) by (apply Rdiv_lt_0_compat; lra).
    assert (acos (cos_epsilon_R altitude field_of_regard) * (180 / PI) <=
            (PI / 2 - field_of_regard / 2 * (PI / 180)) * (180 / PI))
      by (apply Rmult_le_compat_r; lra).
    replace ((PI / 2 - field_of_regard / 2 * (PI / 180)) * (180 / PI))
      with (90 - field_of_regard / 2) in * by (field; lra).
    lra. }
  split; [done|].
  rewrite compute_sensor_radius_R. subst e.
  rewrite sw_HalfAngle_of_min_elevation by done.
  destruct (Rlt_dec _ _); [lra|reflexivity].
Qed.

(** X6: with a minimum elevation of 0 the radius is the distance to the
    horizon, the mean earth radius times the arc cosine of [sin_rho]. *)
Theorem sensor_radius_at_horizon altitude :
  0 <= altitude ->
  compute_sensor_radius (F:=R) altitude 0 = earth_mean_radius_R * acos (sin_rho_R altitude).
Proof.
  intros Ha. rewrite compute_sensor_radius_R.
  pose proof (sin_rho_bounds _ Ha) as [S0 S1]. pose proof PI_RGT_0 as HPI.
  assert (E : sw_HalfAngle_R altitude 0 = acos (sin_rho_R altitude) * (180 / PI)).
  { unfold sw_HalfAngle_R. rewrite Rmult_0_l, cos_0, Rmult_1_l.
    rewrite asin_acos by lra. field. lra. }
  rewrite E. pose proof (acos_bound (sin_rho_R altitude)) as [A0 _].
  assert (HK : 0 < 180 / PI) by (apply Rdiv_lt_0_compat; lra).
  destruct (Rlt_dec _ _) as [Hlt|_].
  - assert (0 <= acos (sin_rho_R altitude) * (180 / PI)) by (apply Rmult_le_pos; lra). lra.
  - f_equal. field. lra.
Qed.

Lemma cos_epsilon_60 :
  cos_epsilon_R 500000 60 = (earth_mean_radius_R + 500000) / (2 * earth_mean_radius_R).
Proof.
  pose proof earth_mean_radius_bounds as Hr. unfold cos_epsilon_R.
  replace (60 / 2 * (PI / 180)) with (PI / 6) by field.
  rewrite sin_PI6. field. lra.
Qed.

Lemma cos_epsilon_60_le_1 : cos_epsilon_R 500000 60 <= 1.
Proof.
  rewrite cos_epsilon_60. pose proof earth_mean_radius_bounds as Hr.
  apply Rmult_le_reg_r with (2 * earth_mean_radius_R); [lra|].
  unfold Rdiv. rewrite Rmult_assoc, Rinv_l by lra. lra.
Qed.

(** X1 (witness): at 500 km with a field of regard of 110 degrees. *)
Lemma min_elevation_between_0_and_90_witness :
  0 <= compute_min_elevation (F:=R) 500000 110 <= 90.
Proof. apply (min_elevation_between_0_and_90 500000 110); lra. Defined.

(** X2 (witness): 500 km and 60 degrees against 700 km and 110 degrees. *)
Lemma min_elevation_antitone_witness :
  compute_min_elevation (F:=R) 700000 110 <= compute_min_elevation (F:=R) 500000 60.
Proof. apply (min_elevation_antitone 500000 60 700000 110); lra. Defined.

(** X3 (witness): at 500 km with a minimum elevation of 30 degrees. *)
Lemma sensor_radius_bounds_witness :
  0 <= compute_sensor_radius (F:=R) 500000 30
    <= earth_mean_radius_R * ((90 - 30) * (PI / 180)).
Proof. apply (sensor_radius_bounds 500000 30); lra. Defined.

(** X5 (witness): at 500 km with a field of regard of 60 degrees. *)
Lemma sensor_radius_of_min_elevation_witness :
  0 <= 90 - 60 / 2 - compute_min_elevation (F:=R) 500000 60 /\
  compute_sensor_radius (F:=R) 500000 (compute_min_elevation (F:=R) 500000 60) =
    earth_mean_radius_R *
      ((90 - 60 / 2 - compute_min_elevation (F:=R) 500000 60) * (PI / 180)).
Proof.
  apply (sensor_radius_of_min_elevation 500000 60); [lra|lra|].
  exact cos_epsilon_60_le_1.
Defined.

(** X4 (witness): 500 km against 700 km, at 30 degrees. *)
Lemma sensor_radius_grows_with_altitude_witness :
  compute_sensor_radius (F:=R) 500000 30 <= compute_sensor_radius (F:=R) 700000 30.
Proof. apply (sensor_radius_grows_with_altitude 500000 700000 30); lra. Defined.

(** X6 (witness): at 500 km. *)
Lemma sensor_radius_at_horizon_witness :
  compute_sensor_radius (F:=R) 500000 0 = earth_mean_radius_R * acos (sin_rho_R 500000).
Proof. apply (sensor_radius_at_horizon 500000). lra. Defined.

End SensorFacts.

(** ** Further facts about the constellation *)

Module BehaviourFacts.
Import Firesat FiresatFacts Behaviour.
Section proofs.
Context `{Ext : External}.

Ltac proj :=
  cbn [names fires grounds satellites detect report positions next_positions
       min_elevations_fire time next_time notified
       with_fires with_grounds with_detect with_report with_positions
       with_next_positions with_min_elevations_fire with_time with_next_time
       with_notified] in *.

(** *** Framing *)

Section framing.
Context (R : Constellation -> Constellation -> Prop).
Context (R_refl : forall c, R c c).
Context (R_trans : forall c1 c2 c3, R c1 c2 -> R c2 c3 -> R c1 c3).

Lemma preserves_ret {A} (a : A) : preserves R (ret a).
Proof. intros c. apply R_refl. Qed.

Lemma preserves_raise {A} e : preserves R (raise (A:=A) e).
Proof. intros c. apply R_refl. Qed.

Lemma preserves_lift {A} (r : res A) : preserves R (lift r).
Proof. intros c. apply R_refl. Qed.

Lemma preserves_gets {A} (f : Constellation -> A) : preserves R (gets f).
Proof. intros c. apply R_refl. Qed.

Lemma preserves_modify f : (forall c, R c (f c)) -> preserves R (modify f).
Proof. intros H c. apply H. Qed.

Lemma preserves_bind {A B} (m : M A) (k : A -> M B) :
  preserves R m -> (forall a, preserves R (k a)) -> preserves R (bind m k).
Proof.
  intros Hm Hk c. unfold bind. specialize (Hm c).
  destruct (m c) as [[a|e] c1]; cbn in *; [|done].
  eapply R_trans; [exact Hm|apply Hk].
Qed.

Lemma preserves_for_from {A} (body : nat -> A -> M unit) l i :
  (forall k x, preserves R (body k x)) -> preserves R (for_from i l body).
Proof.
  intros Hb. revert i. induction l as [|x l IH]; intros i; cbn [for_from].
  - apply preserves_ret.
  - apply preserves_bind; [apply Hb|intros _; apply IH].
Qed.

End framing.

Ltac frame_step solve_update :=
  first
    [ apply preserves_bind; [assumption| |intros ?]
    | apply preserves_ret; assumption
    | apply preserves_raise; assumption
    | apply preserves_lift; assumption
    | apply preserves_gets; assumption
    | apply preserves_for_from; [assumption|assumption|intros ? ?]
    | apply preserves_modify; intros ?; solve_update
    | match goal with
      | |- preserves _ (if ?b then _ else _) => destruct b
      | |- preserves _ (match ?x with _ => _ end) => destruct x
      end ].

Lemma tick_keeps_refl c : tick_keeps c c.
Proof. by repeat split. Qed.

Lemma tick_keeps_trans c1 c2 c3 : tick_keeps c1 c2 -> tick_keeps c2 c3 -> tick_keeps c1 c3.
Proof.
  intros (A1 & A2 & A3 & A4 & A5 & A6 & A7) (B1 & B2 & B3 & B4 & B5 & B6 & B7).
  repeat split; congruence.
Qed.

Lemma tick_keeps_tick dt : preserves tick_keeps (tick dt).
Proof.
  pose proof tick_keeps_refl. pose proof tick_keeps_trans.
  unfold tick, Entity_tick, tick_satellite, tick_fire, tick_fire_detect, tick_fire_report,
    for_enumerate, get_time_plus, names_getitem, detect_getitem, detect_setitem,
    report_getitem, report_setitem.
  repeat frame_step ltac:(repeat split; proj; rewrite ?length_insert; done).
Qed.

(** X7: whether it returns or raises, [tick] changes neither the committed
    positions, nor the clock, nor the fires, nor the ground registry, nor the
    names, nor the satellites, nor what the observers have received. *)
Theorem tick_leaves_the_rest_alone dt c : tick_keeps c (tick dt c).2.
Proof. apply tick_keeps_tick. Qed.

Lemma same_tables_refl c : same_tables c c.
Proof. by repeat split. Qed.

Lemma same_tables_trans c1 c2 c3 : same_tables c1 c2 -> same_tables c2 c3 -> same_tables c1 c3.
Proof. intros (A1 & A2 & A3 & A4) (B1 & B2 & B3 & B4). repeat split; congruence. Qed.

Lemma same_tables_tock : preserves same_tables tock.
Proof.
  pose proof same_tables_refl. pose proof same_tables_trans.
  unfold tock, Entity_tock, tock_detected, tock_reported, notify_observers, for_enumerate,
    report_setitem.
  repeat frame_step ltac:(repeat split; proj; done).
Qed.

Lemma same_tables_tick dt c : same_tables c (tick dt c).2.
Proof. destruct (tick_keeps_tick dt c) as (_ & _ & ? & ? & ? & ? & _). by repeat split. Qed.

(** The fires after a call. *)
Lemma fires_exec o c :
  fires (exec o c).2 =
    fires c ++ match o with OpFire started => [started] | _ => [] end.
Proof.
  destruct o as [t|dt| |f|g]; cbn [exec]; rewrite ?app_nil_r.
  - by rewrite initialize_spec.
  - apply same_tables_tick.
  - apply same_tables_tock.
  - by rewrite on_fire_spec.
  - rewrite on_ground_spec. destruct (grounds c); [|done]. by destruct (series_contains _ _).
Qed.

Lemma run_cons o ops c : run (o :: ops) c = run ops (exec o c).2.
Proof. reflexivity. Qed.

(** X8: after any sequence of calls the list of fires is the list it was,
    followed by the [FireStarted] messages received, in their order: no
    message is dropped, merged with an earlier one of the same id, or
    reordered, and no other call touches the list. *)
Theorem fires_are_the_messages_received ops c :
  fires (run ops c) = fires c ++ fire_messages ops.
Proof.
  revert c. induction ops as [|o ops IH]; intros c.
  - by rewrite app_nil_r.
  - rewrite run_cons, IH, fires_exec, <- app_assoc. f_equal.
    unfold fire_messages. by destruct o.
Qed.

(** The ground registry after a call other than [initialize]. *)
Lemma grounds_exec o c frame :
  is_initialize o = false -> grounds c = Some frame ->
  grounds (exec o c).2 =
    Some (frame ++ match o with
                   | OpGround location =>
                       if series_contains frame (groundId location) then [] else [location]
                   | _ => []
                   end).
Proof.
  intros Ho Hg. destruct o as [t|dt| |f|g]; cbn [exec]; try done; rewrite ?app_nil_r.
  - etrans; [apply same_tables_tick|done].
  - etrans; [apply same_tables_tock|done].
  - by rewrite on_fire_spec.
  - rewrite on_ground_spec, Hg. destruct (series_contains _ _); [|done].
    by rewrite app_nil_r.
Qed.

(** X9: as long as [initialize] is not called again the ground registry
    only grows at its end: every row stays at its index with its values,
    whatever messages arrive, and the rows added are ground messages of the
    run, in their order. *)
Theorem grounds_append_only ops c frame :
  forallb (fun o => negb (is_initialize o)) ops = true ->
  grounds c = Some frame ->
  exists more, grounds (run ops c) = Some (frame ++ more) /\
               sublist more (ground_messages ops).
Proof.
  revert c frame. induction ops as [|o ops IH]; intros c frame Hops Hg.
  - exists []. by rewrite app_nil_r.
  - cbn [forallb] in Hops. apply andb_prop in Hops as [Ho Hops].
    apply negb_true_iff in Ho.
    pose proof (grounds_exec o c frame Ho Hg) as Hstep.
    destruct (IH _ _ Hops Hstep) as (more & Hrun & Hsub).
    rewrite run_cons, Hrun, <- app_assoc. eexists. split; [done|].
    unfold ground_messages in *.
    destruct o as [t|dt| |f|g]; cbn [omap option_list]; try done.
    destruct (series_contains _ _); cbn [app].
    + by apply sublist_cons.
    + by apply sublist_skip.
Qed.

(** The registry exists exactly once [initialize] has run. *)
Lemma grounds_None_iff ns ES tles c0 ops :
  __init__ ns ES tles = Ok c0 ->
  grounds (run ops c0) = None <-> existsb is_initialize ops = false.
Proof.
  intros Hinit.
  assert (H0 : grounds c0 = None).
  { unfold __init__ in Hinit. repeat case_match; try done; by inversion Hinit. }
  clear Hinit. revert H0. generalize c0. clear c0.
  assert (Hsome : forall ops c, is_Some (grounds c) -> is_Some (grounds (run ops c))).
  { clear. induction ops as [|o ops IH]; intros c Hc; [done|].
    rewrite run_cons. apply IH. destruct Hc as [frame Hg].
    destruct (is_initialize o) eqn:Ho.
    - destruct o; try done; cbn [exec]; rewrite initialize_spec; cbn; eauto.
    - rewrite (grounds_exec o c frame Ho Hg). eauto. }
  induction ops as [|o ops IH]; intros c Hc; [done|].
  rewrite run_cons. cbn [existsb]. destruct o as [t|dt| |f|g]; cbn [is_initialize orb].
  - split; [|done]. intros Hn.
    destruct (Hsome ops (exec (OpInitialize t) c).2) as [x Hx].
    + cbn [exec]. rewrite initialize_spec. eauto.
    + congruence.
  - apply IH. etrans; [apply same_tables_tick|done].
  - apply IH. etrans; [apply same_tables_tock|done].
  - apply IH. cbn [exec]. by rewrite on_fire_spec.
  - apply IH. cbn [exec]. rewrite on_ground_spec. by rewrite Hc.
Qed.

(** X10: in a state reached from the constructor, [on_ground] raises
    AttributeError and changes nothing as long as [initialize] has never
    been called, and returns normally once it has. *)
Theorem on_ground_needs_initialize ns ES tles c0 ops location :
  __init__ ns ES tles = Ok c0 ->
  let c := run ops c0 in
  if existsb is_initialize ops
  then (on_ground location c).1 = Ok tt
  else on_ground location c = (Raise AttributeError, c).
Proof.
  intros Hinit c. pose proof (grounds_None_iff ns ES tles c0 ops Hinit) as Hiff.
  rewrite on_ground_spec. fold c in Hiff.
  destruct (existsb is_initialize ops).
  - destruct (grounds c) as [frame|]; [|by pose proof (proj1 Hiff eq_refl)].
    by destruct (series_contains _ _).
  - by rewrite (proj2 Hiff eq_refl).
Qed.

(** *** check_in_range *)

Lemma check_in_range_rows_spec t sat (frame : DataFrame) k0 :
  match check_in_range_rows t sat (imap (fun k ground => (k0 + k, ground)) frame) with
  | (true, gid) =>
      exists k ground, gid = VInt (Z.of_nat (k0 + k)) /\ frame !! k = Some ground /\
        in_range_of t sat ground = true /\
        forall k' ground', k' < k -> frame !! k' = Some ground' ->
                           in_range_of t sat ground' = false
  | (false, gid) =>
      gid = VNone /\ forall ground, ground ∈ frame -> in_range_of t sat ground = false
  end.
Proof.
  revert k0. induction frame as [|g frame IH]; intros k0.
  - cbn. split; [done|]. intros ground Hin. by apply elem_of_nil in Hin.
  - rewrite imap_cons. cbn [check_in_range_rows].
    rewrite (imap_ext _ (fun k ground => (S k0 + k, ground))) by (intros; cbn; f_equal; lia).
    specialize (IH (S k0)).
    destruct (operational g) eqn:Hop;
      [destruct (fge _ (elevAngle g)) eqn:Hge|].
    + exists 0, g. rewrite Nat.add_0_r. split_and!; try done.
      * unfold in_range_of. by rewrite Hop, Hge.
      * intros k' ? Hk'. lia.
    + destruct (check_in_range_rows _ _ _) as [[] gid].
      * destruct IH as (k & ground & -> & Hk & Hin & Hbefore).
        exists (S k), ground. split_and!; try done.
        -- do 2 f_equal. lia.
        -- intros [|k'] ground' Hlt Hl; cbn in Hl.
           ++ inversion Hl; subst. unfold in_range_of. by rewrite Hop, Hge.
           ++ apply (Hbefore k'); [lia|done].
      * destruct IH as [-> Hall]. split; [done|]. intros ground [->|Hin]%elem_of_cons.
        -- unfold in_range_of. by rewrite Hop, Hge.
        -- by apply Hall.
    + destruct (check_in_range_rows _ _ _) as [[] gid].
      * destruct IH as (k & ground & -> & Hk & Hin & Hbefore).
        exists (S k), ground. split_and!; try done.
        -- do 2 f_equal. lia.
        -- intros [|k'] ground' Hlt Hl; cbn in Hl.
           ++ inversion Hl; subst. unfold in_range_of. by rewrite Hop.
           ++ apply (Hbefore k'); [lia|done].
      * destruct IH as [-> Hall]. split; [done|]. intros ground [->|Hin]%elem_of_cons.
        -- unfold in_range_of. by rewrite Hop.
        -- by apply Hall.
Qed.

(** X11: when [check_in_range] answers True, the number it returns is the
    index of the first row of the registry that is operational and whose
    elevation angle the satellite reaches; when it answers False it returns
    None and no row is such. *)
Theorem check_in_range_first_match t sat (frame : DataFrame) b gid :
  check_in_range t sat (Some frame) = Ok (b, gid) ->
  if b then
    exists k ground, gid = VInt (Z.of_nat k) /\ frame !! k = Some ground /\
      in_range_of t sat ground = true /\
      forall k' ground', k' < k -> frame !! k' = Some ground' ->
                         in_range_of t sat ground' = false
  else
    gid = VNone /\ forall ground, ground ∈ frame -> in_range_of t sat ground = false.
Proof.
  unfold check_in_range, iterrows. intros Heq. inversion Heq as [Hrows]. clear Heq.
  pose proof (check_in_range_rows_spec t sat frame 0) as Hspec.
  cbn [Nat.add] in Hspec. rewrite Hrows in Hspec. by destruct b.
Qed.

(** X12: if every row of the registry sits at the index equal to its
    groundId, the number [check_in_range] returns with True is the groundId
    of an operational station in range. *)
Theorem check_in_range_returns_groundId t sat (frame : DataFrame) gid :
  ids_in_order frame ->
  check_in_range t sat (Some frame) = Ok (true, gid) ->
  exists ground, ground ∈ frame /\ gid = VInt (groundId ground) /\
                 in_range_of t sat ground = true.
Proof.
  intros Hids Heq. unfold check_in_range, iterrows in Heq. inversion Heq as [Hrows].
  pose proof (check_in_range_rows_spec t sat frame 0) as Hspec.
  cbn [Nat.add] in Hspec. rewrite Hrows in Hspec.
  destruct Hspec as (k & ground & -> & Hk & Hin & _).
  exists ground. split; [by eapply list_elem_of_lookup_2|]. split; [|done].
  by rewrite (Hids _ _ Hk).
Qed.

(** X13: on a registry whose rows sit at the indices equal to their
    groundIds, [on_ground] keeps that property exactly when the groundId of
    the message is between 0 and the number of rows. *)
Theorem on_ground_keeps_ids_in_order c (frame : DataFrame) location :
  grounds c = Some frame -> ids_in_order frame ->
  exists frame', grounds (on_ground location c).2 = Some frame' /\
    (ids_in_order frame' <-> (0 <= groundId location <= Z.of_nat (length frame))%Z).
Proof.
  intros Hg Hids. rewrite on_ground_spec, Hg. unfold series_contains.
  case_bool_decide as Hin.
  - exists frame. split; [done|]. split; [lia|done].
  - eexists. split; [done|]. split.
    + intros Hnew.
      assert (Hl : (frame ++ [location]) !! length frame = Some location).
      { rewrite lookup_app_r by lia. by rewrite Nat.sub_diag. }
      specialize (Hnew _ _ Hl). lia.
    + intros Hid k ground Hk. unfold DataFrame in *.
      destruct (decide (k < length frame)) as [Hlt|Hge].
      * rewrite lookup_app_l in Hk by done. by apply Hids.
      * rewrite lookup_app_r in Hk by lia.
        destruct (k - length frame) as [|m] eqn:Hm; [|done]. cbn in Hk.
        inversion Hk; subst. lia.
Qed.

(** *** Report records *)

Lemma entry_ok_non_null v : entry_ok v -> v <> Some VNone -> non_null v.
Proof. intros [->|[t ->]] Hv; [done|]. by exists (VTime t). Qed.

Lemma non_null_not_None v : non_null v -> v <> Some VNone.
Proof. intros (x & -> & Hx) [= ->]. done. Qed.

(** X14: in every state reached from the constructor, a satellite that has
    a report timestamp for a fire has a detection timestamp for it, and the
    fire then has a first detector and a first reporter. *)
Theorem report_needs_own_detection ns ES tles c0 ops :
  names_ok ns = true -> __init__ ns ES tles = Ok c0 ->
  let c := run ops c0 in
  forall j d r n, detect c !! j = Some d -> report c !! j = Some r ->
    n ∈ ns -> non_null (r !! n) ->
    non_null (d !! n) /\ non_null (d !! KStr "firstDetector") /\
    non_null (r !! KStr "firstReporter").
Proof.
  intros Hok Hinit c j d r n Hd Hr Hn Hrn.
  pose proof (Inv_reached ns ES tles c0 ops Hok Hinit) as HI. fold c in HI.
  destruct (Inv_detect_lookup _ _ _ _ HI Hd) as (f & r' & Hf & Hr' & Hrec).
  assert (r' = r) as -> by congruence.
  destruct Hrec as [_ _ Hdn _ Hrd Hdl Hrl _].
  pose proof (non_null_not_None _ Hrn) as Hrn'.
  assert (Hdn' : non_null (d !! n)) by (apply entry_ok_non_null; auto).
  split; [done|]. split.
  - destruct Hdl as [(_ & _ & Hall)|(_ & n0 & _ & Hfd & _)].
    + by destruct (non_null_not_None _ Hdn' (Hall _ Hn)).
    + exists (val_of_key n0). split; [done|apply val_of_key_not_None].
  - destruct Hrl as [(_ & _ & Hall)|(b & n0 & _ & _ & Hfr & _)].
    + by destruct (Hrn' (Hall _ Hn)).
    + exists (val_of_key n0). split; [done|apply val_of_key_not_None].
Qed.

Lemma r_stable_refl ns r : r_stable ns r r.
Proof. split; [done|]. intros v _ Hv. done. Qed.

Lemma r_stable_trans ns r1 r2 r3 : r_stable ns r1 r2 -> r_stable ns r2 r3 -> r_stable ns r1 r3.
Proof.
  intros [A1 A2] [B1 B2]. split.
  - intros n v Hn Hv H1. eauto.
  - intros v Hv H1. destruct (A2 v Hv H1) as [H2 H2'].
    destruct (B2 v Hv H2) as [H3 H3']. split; [done|congruence].
Qed.

Lemma r_stable_report_step ns n t gid (r : gmap pykey pyval) :
  names_ok ns = true -> n ∈ ns -> r !! n = Some VNone ->
  r_stable ns r (report_step n t gid r).
Proof.
  intros Hok Hn Hrn.
  destruct (name_not_field _ _ Hok Hn) as (N1 & N2 & N3 & N4 & N5 & N6).
  split.
  - intros m v Hm Hv Hrm.
    destruct (name_not_field _ _ Hok Hm) as (M1 & M2 & M3 & M4 & M5 & M6).
    assert (n <> m) by (intros ->; congruence).
    unfold report_step. destruct (<[n:=VTime t]> r !! KStr "firstReporter") as [[]|];
      by rewrite ?lookup_insert_ne by done.
  - intros v Hv Hfr. unfold report_step.
    rewrite lookup_insert_ne by done. rewrite Hfr.
    destruct v; try done; by rewrite !lookup_insert_ne by done.
Qed.

Lemma r_stable_clear ns (r : gmap pykey pyval) :
  names_ok ns = true -> r_stable ns r (<[KStr "firstReport" := VBool false]> r).
Proof.
  intros Hok. split.
  - intros m v Hm Hv Hrm.
    destruct (name_not_field _ _ Hok Hm) as (M1 & M2 & M3 & M4 & M5 & M6).
    by rewrite lookup_insert_ne by done.
  - intros v Hv Hfr. by rewrite !lookup_insert_ne by done.
Qed.


Lemma report_evolves_refl ns c : report_evolves_to ns c c.
Proof. intros j r Hr. eauto using r_stable_refl. Qed.

Lemma report_evolves_trans ns c1 c2 c3 :
  report_evolves_to ns c1 c2 -> report_evolves_to ns c2 c3 -> report_evolves_to ns c1 c3.
Proof.
  intros H12 H23 j r Hr. destruct (H12 j r Hr) as (r2 & Hr2 & S2).
  destruct (H23 j r2 Hr2) as (r3 & Hr3 & S3). eauto using r_stable_trans.
Qed.

Lemma report_evolves_same ns c c' : report c' = report c -> report_evolves_to ns c c'.
Proof. intros E j r Hr. rewrite E. eauto using r_stable_refl. Qed.

Lemma report_evolves_tick ns c dt : Inv ns c -> report_evolves_to ns c (tick dt c).2.
Proof.
  intros HI. destruct (time c) as [now|] eqn:Ht.
  2: { rewrite tick_time_None by done. apply report_evolves_refl. }
  destruct (tick_ind ns (report_evolves_to ns c) dt now c) as (_ & HP & _);
    try done; [|apply report_evolves_refl].
  split_and!.
  - intros c1 v HP. by apply (report_evolves_trans _ _ c1); [|apply report_evolves_same].
  - intros c1 v HP _. by apply (report_evolves_trans _ _ c1); [|apply report_evolves_same].
  - intros c1 i v HP. by apply (report_evolves_trans _ _ c1); [|apply report_evolves_same].
  - intros c1 i j n d HI1 HP _ _.
    by apply (report_evolves_trans _ _ c1); [|apply report_evolves_same].
  - intros c1 i j n gid d r HI1 HP Hn Hd Hr Hel.
    apply (report_evolves_trans _ _ c1); [done|].
    intros j' r' Hr'. proj. destruct (decide (j = j')) as [->|Hne].
    + rewrite list_lookup_insert_eq by (by eapply lookup_lt_Some).
      assert (r' = r) as -> by congruence. eexists. split; [done|].
      apply r_stable_report_step; [by eapply inv_names_ok|by eapply Inv_name_in|].
      by apply eligible_true in Hel as [_ ?].
    + rewrite list_lookup_insert_ne by done. eauto using r_stable_refl.
Qed.

Lemma report_evolves_exec ns c o : Inv ns c -> report_evolves_to ns c (exec o c).2.
Proof.
  intros HI. destruct o as [t|dt| |f|g]; cbn [exec].
  - rewrite initialize_spec. by apply report_evolves_same.
  - by apply report_evolves_tick.
  - rewrite (tock_spec ns) by done. intros j r Hr. cbn [snd]. unfold tock_result. proj.
    rewrite list_lookup_fmap, Hr. cbn. eexists. split; [done|].
    apply r_stable_clear. by eapply inv_names_ok.
  - rewrite on_fire_spec. intros j r Hr. cbn [snd]. proj.
    rewrite lookup_app_l by (by eapply lookup_lt_Some). eauto using r_stable_refl.
  - rewrite on_ground_spec. destruct (grounds c); [|apply report_evolves_refl].
    destruct (series_contains _ _); by apply report_evolves_same.
Qed.

Lemma report_evolves_run ns c ops : Inv ns c -> report_evolves_to ns c (run ops c).
Proof.
  revert c. induction ops as [|o ops IH]; intros c HI; [apply report_evolves_refl|].
  rewrite run_cons. eapply report_evolves_trans; [by apply report_evolves_exec|].
  apply IH. by apply Inv_exec.
Qed.

(** X15: a report timestamp, once set, is never changed by any later call
    (the guard of line 272; the detection timestamps have no such guard), and
    neither are the first reporter and the station it reported to. *)
Theorem report_entries_written_once ns ES tles c0 ops :
  names_ok ns = true -> __init__ ns ES tles = Ok c0 ->
  let c := run ops c0 in
  forall more j r, report c !! j = Some r ->
    exists r', report (run more c) !! j = Some r' /\
      (forall n v, n ∈ ns -> v <> VNone -> r !! n = Some v -> r' !! n = Some v) /\
      (forall v, v <> VNone -> r !! KStr "firstReporter" = Some v ->
         r' !! KStr "firstReporter" = Some v /\
         r' !! KStr "firstReportedTo" = r !! KStr "firstReportedTo").
Proof.
  intros Hok Hinit c more j r Hr.
  pose proof (Inv_reached ns ES tles c0 ops Hok Hinit) as HI. fold c in HI.
  destruct (report_evolves_run ns c more HI j r Hr) as (r' & Hr' & Hst). eauto.
Qed.

(** *** The clock and the positions *)

Ltac unfold_monad :=
  cbv beta iota zeta delta [bind gets lift modify ret raise names_getitem detect_getitem
       detect_setitem report_getitem report_setitem get_time_plus list_getitem dict_getitem].

Lemma tick_keeps_tick_satellite dt i sat : preserves tick_keeps (tick_satellite dt i sat).
Proof.
  pose proof tick_keeps_refl. pose proof tick_keeps_trans.
  unfold tick_satellite, tick_fire, tick_fire_detect, tick_fire_report,
    for_enumerate, get_time_plus, names_getitem, detect_getitem, detect_setitem,
    report_getitem, report_setitem.
  repeat frame_step ltac:(repeat split; proj; done).
Qed.

Lemma tick_keeps_tick_fire dt i sat then_ j fire :
  preserves tick_keeps (tick_fire dt i sat then_ j fire).
Proof.
  pose proof tick_keeps_refl. pose proof tick_keeps_trans.
  unfold tick_fire, tick_fire_detect, tick_fire_report,
    get_time_plus, names_getitem, detect_getitem, detect_setitem,
    report_getitem, report_setitem.
  repeat frame_step ltac:(repeat split; proj; done).
Qed.

Lemma next_keeps_refl c : next_keeps c c.
Proof. by split. Qed.

Lemma next_keeps_trans c1 c2 c3 : next_keeps c1 c2 -> next_keeps c2 c3 -> next_keeps c1 c3.
Proof. intros [A1 A2] [B1 B2]. split; congruence. Qed.

Lemma next_keeps_tick_satellite dt i sat : preserves next_keeps (tick_satellite dt i sat).
Proof.
  pose proof next_keeps_refl. pose proof next_keeps_trans.
  unfold tick_satellite, tick_fire, tick_fire_detect, tick_fire_report,
    for_enumerate, get_time_plus, names_getitem, detect_getitem, detect_setitem,
    report_getitem, report_setitem.
  repeat frame_step ltac:(repeat split; proj; done).
Qed.

(** The header of [tick], lines 245-250. *)
Lemma tick_header dt c now :
  time c = Some now ->
  tick dt c =
    for_enumerate (satellites c) (tick_satellite dt)
      (with_next_positions (subpoints_at (now + dt) (satellites c))
         (with_next_time (Some (now + dt)%Z) c)).
Proof.
  intros Ht. unfold tick, Entity_tick. unfold_monad. rewrite Ht. cbv beta iota zeta.
  change (time (with_next_time (Some (now + dt)%Z) c)) with (time c).
  rewrite Ht. reflexivity.
Qed.

(** What a tick from an initialized state leaves behind, whether it
    returns or raises. *)
Lemma tick_next dt c now :
  time c = Some now ->
  next_time (tick dt c).2 = Some (now + dt)%Z /\
  next_positions (tick dt c).2 = subpoints_at (now + dt) (satellites c).
Proof.
  intros Ht. rewrite (tick_header dt c now Ht). unfold for_enumerate.
  set (c1 := with_next_positions _ _).
  pose proof (preserves_for_from next_keeps next_keeps_refl next_keeps_trans
                (tick_satellite dt) (satellites c) 0
                (next_keeps_tick_satellite dt) c1) as [E1 E2].
  rewrite E1, E2. done.
Qed.

Lemma positions_on_clock_exec ns c o :
  Inv ns c -> positions_on_clock c -> positions_on_clock (exec o c).2.
Proof.
  intros HI Hc. destruct o as [t|dt| |f|g]; cbn [exec].
  - rewrite initialize_spec. unfold positions_on_clock. cbn. eauto.
  - destruct (tick_keeps_tick dt c) as (Ep & Et & _ & Eg & _ & Es & _).
    unfold positions_on_clock in *. rewrite Et, Ep, Es, Eg.
    destruct (time c) as [now|] eqn:Ht.
    + destruct (tick_next dt c now Ht) as [-> ->].
      destruct (next_time c); [|done]. by destruct Hc as (? & ? & ?).
    + rewrite (tick_time_None dt c Ht). exact Hc.
  - rewrite (tock_spec ns) by done. unfold positions_on_clock in *. cbn.
    destruct (time c), (next_time c); try done; by destruct Hc as (? & ? & ?).
  - rewrite on_fire_spec. done.
  - rewrite on_ground_spec. destruct (grounds c) as [frame|] eqn:Hg; [|done].
    destruct (series_contains _ _); [done|].
    unfold positions_on_clock in *. cbn.
    destruct (time c), (next_time c); try done.
    + destruct Hc as (? & ? & ?). eauto.
    + destruct Hc as (? & ? & ?). congruence.
Qed.

Lemma positions_on_clock_run ns c ops :
  Inv ns c -> positions_on_clock c -> positions_on_clock (run ops c).
Proof.
  revert c. induction ops as [|o ops IH]; intros c HI Hc; [done|].
  rewrite run_cons. apply IH; [by apply Inv_exec|by eapply positions_on_clock_exec].
Qed.

Lemma positions_on_clock_init ns ES tles c0 :
  __init__ ns ES tles = Ok c0 -> positions_on_clock c0.
Proof.
  unfold __init__. intros Hinit. repeat case_match; try done; inversion Hinit; by cbn.
Qed.

Lemma positions_follow_the_clock_aux ns ES tles c0 ops :
  names_ok ns = true -> __init__ ns ES tles = Ok c0 ->
  positions_on_clock (run ops c0).
Proof.
  intros Hok Hinit. eapply positions_on_clock_run.
  - by eapply Inv_init.
  - by eapply positions_on_clock_init.
Qed.

(** X16: in every state reached from the constructor the positions agree
    with the clock: before [initialize] there is no time, no registry and no
    position; afterwards the committed positions are the sub-satellite
    points at the current time and the pending ones those at the next
    time. *)
Theorem positions_follow_the_clock ns ES tles c0 ops :
  names_ok ns = true -> __init__ ns ES tles = Ok c0 ->
  positions_on_clock (run ops c0).
Proof. apply positions_follow_the_clock_aux. Qed.

(** *** When tick returns *)

Lemma for_from_total {A} (I : Constellation -> Prop) (body : nat -> A -> M unit) l i c :
  I c ->
  (forall k x c, l !! k = Some x -> I c ->
     exists c', body (i + k) x c = (Ok tt, c') /\ I c') ->
  exists c', for_from i l body c = (Ok tt, c') /\ I c'.
Proof.
  revert i c. induction l as [|x l IH]; intros i c Hc Hb.
  - exists c. done.
  - cbn [for_from]. unfold bind.
    destruct (Hb 0 x c eq_refl Hc) as (c1 & Hx & H1). rewrite Nat.add_0_r in Hx.
    rewrite Hx. apply IH; [done|]. intros k y c2 Hk H2.
    replace (S i + k) with (i + S k) by lia. by apply Hb.
Qed.

Lemma tick_closed_True ns t : tick_closed ns t (fun _ => True).
Proof. by repeat split. Qed.

Lemma tick_fire_returns ns dt i sat now j fire c n :
  Inv ns c -> time c = Some now -> is_Some (grounds c) ->
  is_Some (min_elevations_fire c !! i) -> fires c !! j = Some fire ->
  names c !! i = Some n ->
  exists c', tick_fire dt i sat (now + dt) j fire c = (Ok tt, c').
Proof.
  intros HI Ht [g Hg] [m Hm] Hf Hn.
  destruct (Inv_lookup _ _ _ _ HI Hf) as (d & r & Hd & Hr & _).
  erewrite tick_fire_outcome by eauto. unfold tick_fire_result. rewrite Hg.
  destruct (eligible _ _ _); [|eauto].
  destruct (check_in_range_rows _ _ _) as [[] gid]; eauto.
Qed.

Lemma tick_satellite_returns ns dt i sat now c :
  Inv ns c -> time c = Some now -> is_Some (grounds c) ->
  (exists p, next_positions c !! i = Some (Some p)) ->
  i < length (satellites c) ->
  (fires c = [] \/ is_Some (names c !! i)) ->
  exists c', tick_satellite dt i sat c = (Ok tt, c').
Proof.
  intros HI Ht Hg [p Hp] Hi Hnames.
  pose proof HI as [_ _ _ _ _ _ Hmin Hfor _].
  destruct (lookup_lt_is_Some_2 FIELD_OF_REGARD i) as [fr Hfr]; [lia|].
  unfold tick_satellite. unfold_monad. rewrite Ht, Hp, Hfr. cbv beta iota zeta.
  rewrite bool_decide_true by lia. cbv beta iota zeta.
  set (c1 := with_min_elevations_fire _ c).
  assert (HI1 : Inv ns c1).
  { eapply Inv_frame; [exact HI|..]; subst c1; proj; try done;
      rewrite ?length_insert; eapply HI. }
  assert (Hm1 : is_Some (min_elevations_fire c1 !! i)).
  { subst c1. proj. apply lookup_lt_is_Some_2. rewrite length_insert. lia. }
  change (fires c1) with (fires c). unfold for_enumerate.
  destruct (for_from_total
              (fun c' => Inv ns c' /\ time c' = Some now /\ is_Some (grounds c') /\
                         is_Some (min_elevations_fire c' !! i) /\
                         fires c' = fires c /\ names c' = names c)
              (tick_fire dt i sat (now + dt)) (fires c) 0 c1) as (c' & Hrun & _);
    [by split_and!| |by eauto].
  intros k fire c2 Hk (HI2 & Ht2 & Hg2 & Hm2 & Hf2 & Hn2). cbn [Nat.add].
  destruct Hnames as [Hnil|[n Hn]]; [by rewrite Hnil in Hk|].
  destruct (tick_fire_returns ns dt i sat now k fire c2 n) as [c3 Hc3];
    try done; [by rewrite Hf2|by rewrite Hn2|].
  exists c3. split; [done|].
  assert (Hk2 : fires c2 !! k = Some fire) by (by rewrite Hf2).
  pose proof (tick_fire_ind ns (fun _ => True) dt now i sat (now + dt) k fire c2
                (tick_closed_True ns _) HI2 I Ht2 Hm2 Hk2) as Hind.
  cbv zeta in Hind. destruct Hind as (HI3 & _ & Ht3 & Hm3 & Hf3).
  destruct (tick_keeps_tick_fire dt i sat (now + dt) k fire c2)
    as (_ & _ & _ & Eg & En & _).
  rewrite Hc3 in *. cbn [snd] in *.
  split_and!; try done; congruence.
Qed.

Lemma tick_returns ns dt c now :
  Inv ns c -> time c = Some now -> is_Some (grounds c) ->
  (fires c = [] \/ length (satellites c) <= length (names c)) ->
  exists c', tick dt c = (Ok tt, c').
Proof.
  intros HI Ht Hg Hnames. rewrite (tick_header dt c now Ht). unfold for_enumerate.
  set (c1 := with_next_positions _ _).
  assert (HI1 : Inv ns c1).
  { eapply Inv_frame; [exact HI|..]; subst c1; proj; try done;
      unfold subpoints_at; rewrite ?length_fmap; try done; eapply HI. }
  destruct (for_from_total
              (fun c' => Inv ns c' /\ time c' = Some now /\ is_Some (grounds c') /\
                         next_positions c' = subpoints_at (now + dt) (satellites c) /\
                         satellites c' = satellites c /\
                         fires c' = fires c /\ names c' = names c)
              (tick_satellite dt) (satellites c) 0 c1) as (c' & Hrun & _);
    [by split_and!| |by eauto].
  intros i sat c2 Hi (HI2 & Ht2 & Hg2 & Hnp & Hs2 & Hf2 & Hn2). cbn [Nat.add].
  pose proof (lookup_lt_Some _ _ _ Hi) as Hlt.
  destruct (tick_satellite_returns ns dt i sat now c2) as [c3 Hc3]; try done.
  - rewrite Hnp. unfold subpoints_at. rewrite list_lookup_fmap, Hi. cbn. eauto.
  - by rewrite Hs2.
  - rewrite Hf2, Hn2. destruct Hnames as [?|Hle]; [by left|right].
    apply lookup_lt_is_Some_2. lia.
  - exists c3. split; [done|].
    pose proof (tick_satellite_ind ns (fun _ => True) dt now i sat c2
                  (tick_closed_True ns _) HI2 I Ht2) as Hind.
    cbv zeta in Hind. destruct Hind as (HI3 & _ & Ht3).
    destruct (tick_keeps_tick_satellite dt i sat c2) as (_ & _ & Ef & Eg & En & Es & _).
    destruct (next_keeps_tick_satellite dt i sat c2) as [Enp _].
    rewrite Hc3 in *. cbn [snd] in *.
    split_and!; try done; congruence.
Qed.

(** The clock runs exactly once [initialize] has run. *)
Lemma time_None_iff ns ES tles c0 ops :
  names_ok ns = true -> __init__ ns ES tles = Ok c0 ->
  time (run ops c0) = None <-> existsb is_initialize ops = false.
Proof.
  intros Hok Hinit.
  pose proof (positions_follow_the_clock_aux ns ES tles c0 ops Hok Hinit) as Hc.
  rewrite <- (grounds_None_iff ns ES tles c0 ops Hinit).
  unfold positions_on_clock in Hc.
  destruct (time (run ops c0)), (next_time (run ops c0)); try done.
  - destruct Hc as (_ & _ & [g Hg]). rewrite Hg. done.
  - destruct Hc as (_ & _ & ->). done.
Qed.

(** X17: in a state reached from the constructor, [tick] returns normally
    exactly when [initialize] has been called and there is no fire or every
    satellite has a name. *)
Theorem tick_returns_iff ns ES tles c0 ops dt :
  names_ok ns = true -> __init__ ns ES tles = Ok c0 ->
  let c := run ops c0 in
  (tick dt c).1 = Ok tt <->
  existsb is_initialize ops = true /\
  (fires c = [] \/ length (satellites c) <= length ns).
Proof.
  intros Hok Hinit c.
  pose proof (Inv_reached ns ES tles c0 ops Hok Hinit) as HI. fold c in HI.
  pose proof (time_None_iff ns ES tles c0 ops Hok Hinit) as Htime. fold c in Htime.
  pose proof (grounds_None_iff ns ES tles c0 ops Hinit) as Hgr. fold c in Hgr.
  rewrite <- (inv_names _ _ HI). split.
  - intros Hret. destruct (tick dt c) as [[[]|e] c'] eqn:Htick; [|done].
    destruct (tick_ok_detect ns c dt c' HI Htick) as (now & Ht & _ & Hnames).
    split.
    + destruct (existsb is_initialize ops); [done|].
      rewrite (proj2 Htime eq_refl) in Ht. done.
    + destruct (fires c) as [|f fs] eqn:Hf; [by left|right].
      destruct (decide (length (satellites c) <= length (names c))) as [|Hgt]; [done|].
      destruct (Hnames ltac:(done) (length (names c)) ltac:(lia)) as [n Hn].
      apply lookup_lt_Some in Hn. lia.
  - intros [Hi Hnames].
    destruct (time c) as [now|] eqn:Ht.
    2: { rewrite (proj1 Htime eq_refl) in Hi. done. }
    destruct (grounds c) as [g|] eqn:Hg.
    2: { rewrite (proj1 Hgr eq_refl) in Hi. done. }
    destruct (tick_returns ns dt c now HI Ht) as [c' Hc']; [by rewrite Hg|done|].
    by rewrite Hc'.
Qed.

(** *** A second induction principle for tick *)

Lemma tick_fire_ind_in_range ns P dt now i sat j fire c :
  tick_closed_in_range ns (now + dt) P ->
  Inv ns c -> P c -> time c = Some now ->
  is_Some (min_elevations_fire c !! i) -> fires c !! j = Some fire ->
  let c' := (tick_fire dt i sat (now + dt) j fire c).2 in
  Inv ns c' /\ P c' /\ time c' = Some now /\
  min_elevations_fire c' = min_elevations_fire c /\ fires c' = fires c.
Proof.
  intros (C1 & C2 & C3 & C4 & C5) HI HP Ht [m Hm] Hf. cbn zeta.
  destruct (Inv_lookup _ _ _ _ HI Hf) as (d & r & Hd & Hr & Hok).
  destruct (names c !! i) as [n|] eqn:Hn.
  2: { erewrite tick_fire_no_name by eauto. done. }
  erewrite tick_fire_outcome by eauto. unfold tick_fire_result.
  set (d' := if check_in_view _ _ _ _ then _ else _).
  set (c1 := with_detect (<[j:=d']> (detect c)) c).
  assert (H1 : Inv ns c1 /\ P c1).
  { subst c1 d'. destruct (check_in_view _ _ _ _).
    - split; [by eapply Inv_detect_step|by eapply C4].
    - rewrite list_insert_id by done. by rewrite with_detect_id. }
  destruct H1 as [HI1 HP1].
  assert (Hd1 : detect c1 !! j = Some d').
  { subst c1. proj. apply list_lookup_insert_eq. by eapply lookup_lt_Some. }
  destruct (eligible n d' r) eqn:Hel; [|done].
  destruct (grounds c) as [g|] eqn:Hg; [|done].
  destruct (check_in_range_rows _ _ _) as [[] gid] eqn:Hrows; [|done].
  cbn [snd]. split; [|split]; [| |done].
  - eapply (Inv_report_step ns c1); eauto.
  - eapply (C5 c1 i j n sat); eauto.
    change (grounds c1) with (grounds c). rewrite Hg. unfold check_in_range.
    by rewrite Hrows.
Qed.

Lemma tick_satellite_ind_in_range ns P dt now i sat c :
  tick_closed_in_range ns (now + dt) P ->
  Inv ns c -> P c -> time c = Some now ->
  let c' := (tick_satellite dt i sat c).2 in
  Inv ns c' /\ P c' /\ time c' = Some now.
Proof.
  intros HC HI HP Ht. cbn zeta. pose proof HC as (C1 & C2 & C3 & C4 & C5).
  unfold tick_satellite. unfold_monad. rewrite Ht.
  destruct (next_positions c !! i) as [[p|]|]; try done.
  destruct (FIELD_OF_REGARD !! i) as [fr|]; try done.
  case_bool_decide as Hlt; [|done]. cbv beta iota zeta.
  set (c1 := with_min_elevations_fire _ c).
  assert (HI1 : Inv ns c1).
  { eapply Inv_frame; [exact HI|..]; subst c1; proj; try done;
      rewrite ?length_insert; eapply HI. }
  assert (HP1 : P c1) by (apply C3; done).
  assert (Hm : is_Some (min_elevations_fire c1 !! i)).
  { subst c1. proj. apply lookup_lt_is_Some_2. by rewrite length_insert. }
  assert (Ht1 : time c1 = Some now) by done.
  clearbody c1. clear HI HP Ht Hlt c.
  unfold for_enumerate.
  pose proof (for_from_preserve
           (fun c => Inv ns c /\ P c /\ time c = Some now /\
                     is_Some (min_elevations_fire c !! i) /\ fires c = fires c1)
           (tick_fire dt i sat (now + dt)) (fires c1) 0 c1) as HH.
  cbn beta in HH. destruct HH as (? & ? & ? & _); [|done|done].
  intros k x c Hk (HI & HP & Ht & Hm' & Hfs). cbn [Nat.add].
  rewrite <- Hfs in Hk.
  destruct (tick_fire_ind_in_range ns P dt now i sat k x c) as (? & ? & ? & Hmm & Hff);
    try done.
  split_and!; try done; [by rewrite Hmm|by rewrite Hff].
Qed.

Lemma tick_ind_in_range ns P dt now c :
  tick_closed_in_range ns (now + dt) P ->
  Inv ns c -> P c -> time c = Some now ->
  let c' := (tick dt c).2 in
  Inv ns c' /\ P c' /\ time c' = Some now.
Proof.
  intros HC HI HP Ht. cbn zeta. pose proof HC as (C1 & C2 & C3 & C4 & C5).
  rewrite (tick_header dt c now Ht).
  set (c1 := with_next_positions _ _).
  assert (HI1 : Inv ns c1).
  { eapply Inv_frame; [exact HI|..]; subst c1; proj; try done;
      unfold subpoints_at; rewrite ?length_fmap; try done; eapply HI. }
  assert (HP1 : P c1).
  { subst c1. apply C2; [by apply C1|]. proj. unfold subpoints_at. by rewrite length_fmap. }
  assert (Ht1 : time c1 = Some now) by done.
  change (satellites c) with (satellites c1).
  clearbody c1. unfold for_enumerate.
  apply (for_from_preserve (fun c => Inv ns c /\ P c /\ time c = Some now)); [|done].
  intros k x c2 _ (? & ? & ?). by apply tick_satellite_ind_in_range.
Qed.

(** *** Without an operational station nothing is reported *)

Lemma in_range_operational t sat ground :
  in_range_of t sat ground = true -> operational ground = true.
Proof. unfold in_range_of. by intros [? _]%andb_prop. Qed.

Lemma check_in_range_true t sat (g : option DataFrame) gid :
  check_in_range t sat g = Ok (true, gid) ->
  exists frame k ground, g = Some frame /\ gid = VInt (Z.of_nat k) /\
    frame !! k = Some ground /\ in_range_of t sat ground = true.
Proof.
  destruct g as [frame|]; [|done]. unfold check_in_range, iterrows. intros [= Hrows].
  pose proof (check_in_range_rows_spec t sat frame 0) as Hspec. cbn [Nat.add] in Hspec.
  rewrite Hrows in Hspec. destruct Hspec as (k & ground & -> & Hk & Hin & _).
  by exists frame, k, ground.
Qed.

Lemma quiet_tick ns c dt : Inv ns c -> quiet c -> quiet (tick dt c).2.
Proof.
  intros HI Hq. destruct (time c) as [now|] eqn:Ht.
  2: { by rewrite tick_time_None by done. }
  destruct (tick_ind_in_range ns quiet dt now c) as (_ & HP & _); try done.
  split_and!; try done.
  intros c1 i j n sat gid d r HI1 (Hg & _ & _) _ _ _ _ Hin.
  apply check_in_range_true in Hin as (frame & k & ground & Hfr & _ & Hk & Hin).
  apply in_range_operational in Hin.
  rewrite (Hg frame ground Hfr) in Hin; [done|]. by eapply list_elem_of_lookup_2.
Qed.

Lemma quiet_exec ns c o :
  Inv ns c -> quiet c ->
  (forall location, o = OpGround location -> operational location = false) ->
  quiet (exec o c).2.
Proof.
  intros HI Hq Ho. destruct o as [t|dt| |f|g]; cbn [exec].
  - rewrite initialize_spec. destruct Hq as (Hg & Hr & Hn). split_and!; try done.
    cbn. intros frame ground [= <-] Hin. by apply elem_of_nil in Hin.
  - by eapply quiet_tick.
  - rewrite (tock_spec ns) by done. destruct Hq as (Hg & Hr & Hn).
    cbn [snd]. unfold tock_result. split_and!; proj.
    + done.
    + intros j r. rewrite list_lookup_fmap. destruct (report c !! j) as [r0|] eqn:Hr0; [|done].
      cbn. intros [= <-]. destruct (Hr j r0 Hr0) as [_ Hfr].
      rewrite lookup_insert_eq. by rewrite lookup_insert_ne by done.
    + intros e. rewrite !elem_of_app. intros [He|[He|He]]; [by apply Hn| |].
      * apply list_elem_of_omap in He as (d & _ & He). unfold detected_event in He.
        destruct (truthy _); [|done]. inversion He. eauto.
      * apply list_elem_of_omap in He as (r & Hin & He).
        apply list_elem_of_lookup_1 in Hin as [j Hj]. destruct (Hr j r Hj) as [Hflag _].
        unfold reported_event in He. by rewrite (lookup_total_Some _ _ _ Hflag) in He.
  - rewrite on_fire_spec. destruct Hq as (Hg & Hr & Hn). split_and!; try done.
    cbn [snd]. proj. intros j r Hj.
    apply lookup_app_Some in Hj as [Hj|[_ Hj]]; [by eapply Hr|].
    destruct (j - length (report c)); [|done]. cbn in Hj. inversion Hj. unfold new_report.
    split.
    + by rewrite !lookup_insert_ne, lookup_insert_eq by done.
    + by rewrite lookup_insert_ne, lookup_insert_eq by done.
  - rewrite on_ground_spec. destruct (grounds c) as [frame|] eqn:Hfr; [|done].
    destruct (series_contains _ _); [done|].
    destruct Hq as (Hg & Hr & Hn). split_and!; try done.
    cbn. intros frame' ground [= <-]. rewrite elem_of_app, list_elem_of_singleton.
    intros [Hin| ->]; [by eapply Hg|by apply Ho].
Qed.

Lemma ground_messages_cons o ops :
  ground_messages (o :: ops) =
    match o with OpGround location => [location] | _ => [] end ++ ground_messages ops.
Proof. unfold ground_messages. by destruct o. Qed.

Lemma quiet_run ns c ops :
  Inv ns c -> quiet c ->
  (forall location, location ∈ ground_messages ops -> operational location = false) ->
  quiet (run ops c).
Proof.
  revert c. induction ops as [|o ops IH]; intros c HI Hq Hops; [done|].
  rewrite run_cons. rewrite ground_messages_cons in Hops.
  apply IH; [by apply Inv_exec| |].
  - eapply quiet_exec; [done..|]. intros location ->. apply Hops. set_solver.
  - intros location Hin. apply Hops. set_solver.
Qed.

Lemma init_fields ns ES tles c0 :
  __init__ ns ES tles = Ok c0 ->
  names c0 = ns /\ fires c0 = [] /\ grounds c0 = None /\ detect c0 = [] /\
  report c0 = [] /\ time c0 = None /\ next_time c0 = None /\ notified c0 = [].
Proof.
  unfold __init__. intros Hinit. repeat case_match; try done; inversion Hinit; by cbn.
Qed.

(** X18: if every ground message of a run marks its station as not
    operational, the observers receive FireDetected notifications only and
    no report record ever gets a first reporter. *)
Theorem no_report_without_operational_station ns ES tles c0 ops :
  names_ok ns = true -> __init__ ns ES tles = Ok c0 ->
  (forall location, location ∈ ground_messages ops -> operational location = false) ->
  let c := run ops c0 in
  (forall e, e ∈ notified c -> exists fid t by_, e = FireDetected fid t by_) /\
  (forall j r, report c !! j = Some r -> r !! KStr "firstReporter" = Some VNone).
Proof.
  intros Hok Hinit Hops c.
  destruct (init_fields _ _ _ _ Hinit) as (_ & _ & Hg & _ & Hr & _ & _ & Hn).
  assert (Hq : quiet c).
  { apply (quiet_run ns); [by eapply Inv_init| |done].
    split_and!.
    - by rewrite Hg.
    - by rewrite Hr.
    - rewrite Hn. intros e He. by apply elem_of_nil in He. }
  destruct Hq as (_ & Hq2 & Hq3). split; [done|]. intros j r Hj. by apply (Hq2 j r).
Qed.

(** *** The notifications are well formed *)











(** *** The constructor *)

Lemma init_tles_spec ns (l : list Tle) i acc :
  init_tles i l ns acc =
    if bool_decide (l = [] \/ i + length l <= length ns)
    then Ok (acc ++ zip_with EarthSatellite l (drop i ns))
    else Raise IndexError.
Proof.
  revert i acc. induction l as [|tle l IH]; intros i acc.
  - cbn [init_tles zip_with]. rewrite bool_decide_true by (by left). by rewrite app_nil_r.
  - cbn [init_tles]. unfold list_getitem. destruct (ns !! i) as [n|] eqn:Hn.
    + rewrite IH. apply lookup_lt_Some in Hn as Hlt.
      rewrite (drop_S _ _ _ Hn). cbn [zip_with length].
      rewrite <- app_assoc. cbn [app].
      destruct l as [|tle' l'].
      * rewrite !bool_decide_true; [done|right; cbn; lia|by left].
      * case_bool_decide as H1; case_bool_decide as H2; try done.
        -- destruct H2. right. destruct H1 as [|H1]; [done|]. cbn in *. lia.
        -- destruct H1. right. destruct H2 as [|H2]; [done|]. cbn in *. lia.
    + apply lookup_ge_None in Hn. rewrite bool_decide_false; [done|].
      intros [|Hle]; [done|]. cbn in Hle. lia.
Qed.

Lemma init_min_elevations_spec (sats : list Satellite) i :
  init_min_elevations i sats =
    if bool_decide (sats = [] \/ i + length sats <= length FIELD_OF_REGARD)
    then Ok (zip_with (fun satellite field_of_regard =>
                         compute_min_elevation (elevation_m (subpoint_at_epoch satellite))
                           field_of_regard) sats (drop i FIELD_OF_REGARD))
    else Raise IndexError.
Proof.
  revert i. induction sats as [|sat sats IH]; intros i.
  - cbn [init_min_elevations zip_with]. by rewrite bool_decide_true by (by left).
  - cbn [init_min_elevations]. unfold list_getitem.
    destruct (FIELD_OF_REGARD !! i) as [fr|] eqn:Hfr.
    + rewrite IH. apply lookup_lt_Some in Hfr as Hlt.
      rewrite (drop_S _ _ _ Hfr). cbn [zip_with length].
      destruct sats as [|sat' sats'].
      * rewrite !bool_decide_true; [done|right; cbn; lia|by left].
      * case_bool_decide as H1; case_bool_decide as H2; try done.
        -- destruct H2. right. destruct H1 as [|H1]; [done|]. cbn in *. lia.
        -- destruct H1. right. destruct H2 as [|H2]; [done|]. cbn in *. lia.
    + apply lookup_ge_None in Hfr. rewrite bool_decide_false; [done|].
      intros [|Hle]; [done|]. cbn in Hle. lia.
Qed.

(** X20: the constructor raises IndexError exactly when there are more
    two-line elements than names or more satellites than entries of
    FIELD_OF_REGARD; otherwise it returns the empty constellation whose
    satellites are those given followed by one per two-line element, the
    k-th of them built with the k-th name, with one minimum elevation per
    satellite. *)
Theorem init_outcome ns ES tles :
  __init__ ns ES tles =
    if bool_decide (length (default [] tles) <= length ns /\
                    length (built_satellites ns ES tles) <= length FIELD_OF_REGARD)
    then Ok (initial_state ns (built_satellites ns ES tles))
    else Raise IndexError.
Proof.
  unfold __init__, built_satellites.
  assert (Htl : (match tles with
                 | Some l => init_tles 0 l ns (match ES with
                                               | Some sats => [] ++ sats
                                               | None => []
                                               end)
                 | None => Ok (match ES with Some sats => [] ++ sats | None => [] end)
                 end) =
                if bool_decide (length (default [] tles) <= length ns)
                then Ok (default [] ES ++ zip_with EarthSatellite (default [] tles) ns)
                else Raise IndexError).
  { destruct tles as [l|]; cbn [default].
    - rewrite init_tles_spec. rewrite drop_0. cbn [Nat.add].
      assert (E : (match ES with Some sats => [] ++ sats | None => [] end) = default [] ES)
        by (by destruct ES).
      rewrite E.
      destruct l as [|tle l].
      + rewrite !bool_decide_true; [done|cbn; lia|by left].
      + case_bool_decide as H1; case_bool_decide as H2; try done.
        * destruct H2. by destruct H1.
        * destruct H1. by right.
    - rewrite bool_decide_true by (cbn; lia). cbn. rewrite app_nil_r. by destruct ES. }
  rewrite Htl. clear Htl.
  case_bool_decide as H1.
  - rewrite init_min_elevations_spec, drop_0. cbn [Nat.add].
    set (sats := default [] ES ++ _).
    destruct sats as [|sat sats'] eqn:Hs.
    + rewrite !bool_decide_true; [done|split; [done|cbn; lia]|by left].
    + case_bool_decide as H2; case_bool_decide as H3; try done.
      * destruct H3. split; [done|]. by destruct H2.
      * destruct H2. right. by destruct H3.
  - rewrite bool_decide_false; [done|]. by intros [? _].
Qed.

(** *** Reports are made when in range *)

Lemma check_in_range_rows_existsb t sat (frame : DataFrame) k0 :
  (check_in_range_rows t sat (imap (fun k ground => (k0 + k, ground)) frame)).1 =
    existsb (in_range_of t sat) frame.
Proof.
  revert k0. induction frame as [|g frame IH]; intros k0; [done|].
  rewrite imap_cons. cbn [check_in_range_rows existsb].
  rewrite (imap_ext _ (fun k ground => (S k0 + k, ground))) by (intros; cbn; f_equal; lia).
  unfold in_range_of at 1. destruct (operational g); cbn [andb orb]; [|apply IH].
  destruct (fge _ _); cbn [orb fst]; [done|apply IH].
Qed.

Lemma satellites_exec o c : satellites (exec o c).2 = satellites c.
Proof.
  destruct o as [t|dt| |f|g]; cbn [exec].
  - by rewrite initialize_spec.
  - apply same_tables_tick.
  - apply same_tables_tock.
  - by rewrite on_fire_spec.
  - rewrite on_ground_spec. destruct (grounds c); [|done]. by destruct (series_contains _ _).
Qed.

Lemma satellites_run ops c : satellites (run ops c) = satellites c.
Proof.
  revert c. induction ops as [|o ops IH]; intros c; [done|].
  by rewrite run_cons, IH, satellites_exec.
Qed.

Lemma report_step_lookup_name ns n' t gid (r : gmap pykey pyval) n :
  names_ok ns = true -> n ∈ ns ->
  report_step n' t gid r !! n = if decide (n' = n) then Some (VTime t) else r !! n.
Proof.
  intros Hok Hn. destruct (name_not_field _ _ Hok Hn) as (N1 & N2 & N3 & N4 & N5 & N6).
  unfold report_step.
  destruct (<[n':=VTime t]> r !! KStr "firstReporter") as [[]|];
    rewrite ?lookup_insert_ne by done;
    (destruct (decide (n' = n)) as [->|];
      [by rewrite lookup_insert_eq|by rewrite lookup_insert_ne by done]).
Qed.

Lemma non_null_detect_step ns n' t (d : gmap pykey pyval) n :
  names_ok ns = true -> n' ∈ ns -> n ∈ ns ->
  non_null (d !! n) -> non_null (detect_step n' t d !! n).
Proof.
  intros Hok Hn' Hn Hd. by apply (d_stable_detect_step ns d n' t Hok Hn').
Qed.

Lemma tick_closed_pending ns j n t seen :
  names_ok ns = true -> n ∈ ns -> tick_closed ns t (report_pending j n t seen).
Proof.
  intros Hok Hn. split_and!; try done.
  - intros c i j' n' d HI ((d0 & Hd0 & Hseen) & Hr) Hn' Hd. split; [|done]. proj.
    destruct (decide (j' = j)) as [->|Hne].
    + rewrite list_lookup_insert_eq by (by eapply lookup_lt_Some).
      eexists. split; [done|]. destruct Hseen as [Hnn|?]; [left|by right].
      assert (d0 = d) as -> by congruence.
      eapply non_null_detect_step; eauto using Inv_name_in.
    + rewrite list_lookup_insert_ne by done. eauto.
  - intros c i j' n' gid d r HI (Hd0 & (r0 & Hr0 & Hrn)) Hn' Hd Hr Hel. split; [done|]. proj.
    destruct (decide (j' = j)) as [->|Hne].
    + rewrite list_lookup_insert_eq by (by eapply lookup_lt_Some).
      eexists. split; [done|]. assert (r0 = r) as -> by congruence.
      rewrite (report_step_lookup_name ns) by done.
      destruct (decide (n' = n)); [by right|done].
    + rewrite list_lookup_insert_ne by done. eauto.
Qed.

Lemma tick_closed_made ns j n t :
  names_ok ns = true -> n ∈ ns -> tick_closed ns t (report_made j n t).
Proof.
  intros Hok Hn. split_and!; try done.
  intros c i j' n' gid d r HI (r0 & Hr0 & Hrn) Hn' Hd Hr Hel. proj. unfold report_made. proj.
  destruct (decide (j' = j)) as [->|Hne].
  - rewrite list_lookup_insert_eq by (by eapply lookup_lt_Some).
    eexists. split; [done|]. assert (r0 = r) as -> by congruence.
    rewrite (report_step_lookup_name ns) by done.
    destruct (decide (n' = n)); done.
  - rewrite list_lookup_insert_ne by done. eauto.
Qed.

(** The block of satellite [i] and fire [j] makes a pending report when the
    satellite is in range. *)
Lemma tick_fire_makes_report ns dt i sat now j fire c n m frame :
  Inv ns c -> time c = Some now -> grounds c = Some frame ->
  min_elevations_fire c !! i = Some m -> fires c !! j = Some fire ->
  names c !! i = Some n ->
  report_pending j n (now + dt)
    (check_in_view (now + dt) sat (latlon (fire_latitude fire) (fire_longitude fire)) m) c ->
  existsb (in_range_of (now + dt) sat) frame = true ->
  report_made j n (now + dt) (tick_fire dt i sat (now + dt) j fire c).2.
Proof.
  intros HI Ht Hg Hm Hf Hn ((d & Hd & Hseen) & (r & Hr & Hrn)) Hin.
  pose proof (inv_names_ok _ _ HI) as Hok.
  pose proof (Inv_name_in _ _ _ _ HI Hn) as Hnin.
  erewrite tick_fire_outcome by eauto. unfold tick_fire_result.
  set (d' := if check_in_view _ _ _ _ then _ else _).
  assert (Hd' : non_null (d' !! n)).
  { subst d'. destruct (check_in_view _ _ _ _).
    - rewrite (detect_step_lookup_name ns) by done. rewrite decide_True by done.
      by exists (VTime (now + dt)).
    - by destruct Hseen. }
  destruct Hd' as (dv & Hdv & Hdv').
  unfold eligible. rewrite Hdv. rewrite Hg.
  pose proof (check_in_range_rows_existsb (now + dt) sat frame 0) as Hrows.
  cbn [Nat.add] in Hrows. fold (iterrows frame) in Hrows. rewrite Hin in Hrows.
  destruct (check_in_range_rows _ _ _) as [inrange gid]. cbn [fst] in Hrows. subst inrange.
  destruct Hrn as [Hrn|Hrn]; rewrite Hrn.
  - replace (negb (is_None dv) && is_None VNone) with true by (by destruct dv).
    cbn [snd]. unfold report_made. proj.
    rewrite list_lookup_insert_eq by (by eapply lookup_lt_Some).
    eexists. split; [done|]. rewrite (report_step_lookup_name ns) by done.
    by rewrite decide_True.
  - replace (negb (is_None dv) && is_None (VTime (now + dt))) with false
      by (by rewrite andb_false_r).
    cbn [snd]. unfold report_made. proj. eauto.
Qed.

Lemma tick_satellite_makes_report ns dt i sat now c c' j fire n frame fr :
  Inv ns c -> time c = Some now -> grounds c = Some frame ->
  names c !! i = Some n ->
  next_positions c !! i = Some (Some (subpoint_at sat (now + dt))) ->
  FIELD_OF_REGARD !! i = Some fr ->
  fires c !! j = Some fire ->
  report_pending j n (now + dt)
    (check_in_view (now + dt) sat (latlon (fire_latitude fire) (fire_longitude fire))
       (compute_min_elevation (elevation_m (subpoint_at sat (now + dt))) fr)) c ->
  existsb (in_range_of (now + dt) sat) frame = true ->
  tick_satellite dt i sat c = (Ok tt, c') ->
  report_made j n (now + dt) c'.
Proof.
  intros HI Ht Hg Hn Hp Hfr Hf Hpend Hin.
  pose proof (inv_names_ok _ _ HI) as Hok.
  pose proof (Inv_name_in _ _ _ _ HI Hn) as Hnin.
  unfold tick_satellite. unfold_monad. rewrite Ht, Hp, Hfr. cbv beta iota zeta.
  case_bool_decide as Hlt; [|done]. cbv beta iota zeta.
  set (m := compute_min_elevation _ _) in *.
  set (c1 := with_min_elevations_fire _ c).
  assert (HI1 : Inv ns c1).
  { eapply Inv_frame; [exact HI|..]; subst c1; proj; try done;
      rewrite ?length_insert; eapply HI. }
  assert (Hm1 : min_elevations_fire c1 !! i = Some m).
  { subst c1. proj. by apply list_lookup_insert_eq. }
  change (fires c1) with (fires c). unfold for_enumerate. intros Hrun.
  pose proof (for_from_rule
    (fun k c2 => Inv ns c2 /\ time c2 = Some now /\ grounds c2 = Some frame /\
                 names c2 !! i = Some n /\ min_elevations_fire c2 !! i = Some m /\
                 fires c2 = fires c /\
                 report_pending j n (now + dt)
                   (check_in_view (now + dt) sat
                      (latlon (fire_latitude fire) (fire_longitude fire)) m) c2 /\
                 (j < k -> report_made j n (now + dt) c2))
    (tick_fire dt i sat (now + dt)) (fires c) 0 c1 c') as Hrule.
  cbn beta in Hrule. destruct Hrule as (_ & _ & _ & _ & _ & _ & _ & Hmade); try done.
  - split_and!; try done. lia.
  - clear Hrun. intros k x c2 c3 Hk (HI2 & Ht2 & Hg2 & Hn2 & Hm2 & Hf2 & Hp2 & Hmade2) Hbody.
    cbn [Nat.add] in *.
    assert (Hk2 : fires c2 !! k = Some x) by (by rewrite Hf2).
    pose proof (tick_fire_ind ns _ dt now i sat (now + dt) k x c2
                  (tick_closed_pending ns j n (now + dt) _ Hok Hnin) HI2 Hp2 Ht2
                  ltac:(eauto) Hk2) as Hind.
    cbv zeta in Hind. destruct Hind as (HI3 & Hp3 & Ht3 & Hm3 & Hf3).
    destruct (tick_keeps_tick_fire dt i sat (now + dt) k x c2)
      as (_ & _ & _ & Eg & En & _).
    rewrite Hbody in *. cbn [snd] in *.
    split_and!; try done; try congruence.
    intros Hjk. destruct (decide (j = k)) as [->|Hne].
    + assert (x = fire) as -> by congruence.
      pose proof (tick_fire_makes_report ns dt i sat now k fire c2 n m frame
                    HI2 Ht2 Hg2 Hm2 Hk2 Hn2 Hp2 Hin) as Hdone.
      by rewrite Hbody in Hdone.
    + pose proof (tick_fire_ind ns _ dt now i sat (now + dt) k x c2
                    (tick_closed_made ns j n (now + dt) Hok Hnin) HI2
                    (Hmade2 ltac:(lia)) Ht2 ltac:(eauto) Hk2) as Hind.
      cbv zeta in Hind. rewrite Hbody in Hind. by destruct Hind as (_ & ? & _).
  - apply Hmade. apply lookup_lt_Some in Hf. lia.
Qed.

Lemma tick_makes_report ns dt c c' now frame i j n sat :
  Inv ns c -> time c = Some now -> grounds c = Some frame ->
  names c !! i = Some n -> satellites c !! i = Some sat ->
  report_pending j n (now + dt) (in_view c dt i j) c ->
  existsb (in_range_of (now + dt) sat) frame = true ->
  tick dt c = (Ok tt, c') ->
  report_made j n (now + dt) c'.
Proof.
  intros HI Ht Hg Hn Hs Hpend Hin.
  pose proof (inv_names_ok _ _ HI) as Hok.
  pose proof (Inv_name_in _ _ _ _ HI Hn) as Hnin.
  assert (Hi : i < length (satellites c)) by (by eapply lookup_lt_Some).
  destruct (lookup_lt_is_Some_2 FIELD_OF_REGARD i) as [fr Hfr].
  { pose proof (inv_for_len _ _ HI). lia. }
  destruct Hpend as ((d & Hd & Hseen) & Hrep).
  destruct (Inv_detect_lookup _ _ _ _ HI Hd) as (fire & r0 & Hf & _ & _).
  rewrite (in_view_eq c dt now i j sat fr fire Ht Hs Hfr Hf) in Hseen.
  rewrite (tick_header dt c now Ht). unfold for_enumerate.
  set (c1 := with_next_positions _ _).
  assert (HI1 : Inv ns c1).
  { eapply Inv_frame; [exact HI|..]; subst c1; proj; try done;
      unfold subpoints_at; rewrite ?length_fmap; try done; eapply HI. }
  intros Hrun.
  set (seen := check_in_view _ _ _ _) in *.
  pose proof (for_from_rule
    (fun k c2 => Inv ns c2 /\ time c2 = Some now /\ grounds c2 = Some frame /\
                 names c2 = names c /\ fires c2 = fires c /\
                 next_positions c2 = subpoints_at (now + dt) (satellites c) /\
                 report_pending j n (now + dt) seen c2 /\
                 (i < k -> report_made j n (now + dt) c2))
    (tick_satellite dt) (satellites c) 0 c1 c') as Hrule.
  cbn beta in Hrule. destruct Hrule as (_ & _ & _ & _ & _ & _ & _ & Hmade); try done.
  - split_and!; try done; [by split; eauto|lia].
  - clear Hrun. intros k x c2 c3 Hk (HI2 & Ht2 & Hg2 & Hn2 & Hf2 & Hnp2 & Hp2 & Hmade2) Hbody.
    cbn [Nat.add] in *.
    pose proof (tick_satellite_ind ns _ dt now k x c2
                  (tick_closed_pending ns j n (now + dt) _ Hok Hnin) HI2 Hp2 Ht2) as Hind.
    cbv zeta in Hind. destruct Hind as (HI3 & Hp3 & Ht3).
    destruct (tick_keeps_tick_satellite dt k x c2) as (_ & _ & Ef & Eg & En & _).
    destruct (next_keeps_tick_satellite dt k x c2) as [Enp _].
    rewrite Hbody in *. cbn [snd] in *.
    split_and!; try done; try congruence.
    intros Hik. destruct (decide (i = k)) as [->|Hne].
    + assert (x = sat) as -> by congruence.
      eapply (tick_satellite_makes_report ns dt k sat now c2 c3 j fire n frame fr);
        try done.
      * by rewrite Hn2.
      * rewrite Hnp2. unfold subpoints_at. by rewrite list_lookup_fmap, Hs.
      * by rewrite Hf2.
    + pose proof (tick_satellite_ind ns _ dt now k x c2
                    (tick_closed_made ns j n (now + dt) Hok Hnin) HI2
                    (Hmade2 ltac:(lia)) Ht2) as Hind.
      cbv zeta in Hind. rewrite Hbody in Hind. by destruct Hind as (_ & ? & _).
  - apply Hmade. lia.
Qed.

(** X21: if a tick returns, a satellite that has detected the fire, or
    detects it in this tick, has no report timestamp for it yet, and is in
    range of an operational station at the new time, has that time as its
    report timestamp afterwards. *)
Theorem tick_reports_when_in_range ns ES tles c0 ops dt c' now frame i j n sat d r :
  names_ok ns = true -> __init__ ns ES tles = Ok c0 ->
  let c := run ops c0 in
  tick dt c = (Ok tt, c') ->
  time c = Some now -> grounds c = Some frame ->
  names c !! i = Some n -> satellites c !! i = Some sat ->
  detect c !! j = Some d -> report c !! j = Some r ->
  non_null (d !! n) \/ in_view c dt i j = true ->
  r !! n = Some VNone ->
  existsb (in_range_of (now + dt) sat) frame = true ->
  exists r', report c' !! j = Some r' /\ r' !! n = Some (VTime (now + dt)).
Proof.
  intros Hok Hinit c Htick Ht Hg Hn Hs Hd Hr Hseen Hrn Hin.
  pose proof (Inv_reached ns ES tles c0 ops Hok Hinit) as HI. fold c in HI.
  eapply (tick_makes_report ns dt c c' now frame i j n sat); try done.
  split; [by exists d|]. exists r. split; [done|by left].
Qed.

(** *** The minimum elevations are refreshed *)

Lemma elevations_keep_tick_fire dt i sat then_ j fire :
  preserves elevations_keep (tick_fire dt i sat then_ j fire).
Proof.
  assert (Hrefl : forall c, elevations_keep c c) by done.
  assert (Htrans : forall c1 c2 c3, elevations_keep c1 c2 -> elevations_keep c2 c3 ->
                                    elevations_keep c1 c3).
  { unfold elevations_keep. intros. congruence. }
  unfold tick_fire, tick_fire_detect, tick_fire_report,
    get_time_plus, names_getitem, detect_getitem, detect_setitem,
    report_getitem, report_setitem.
  repeat frame_step ltac:(done).
Qed.

Lemma tick_refreshes ns dt c c' now :
  Inv ns c -> time c = Some now -> tick dt c = (Ok tt, c') ->
  forall i sat, satellites c !! i = Some sat ->
    exists fr, FIELD_OF_REGARD !! i = Some fr /\
      min_elevations_fire c' !! i =
        Some (compute_min_elevation (elevation_m (subpoint_at sat (now + dt))) fr).
Proof.
  intros HI Ht. rewrite (tick_header dt c now Ht). unfold for_enumerate.
  set (c1 := with_next_positions _ _). intros Hrun.
  pose proof (for_from_rule
    (fun k c2 => time c2 = Some now /\
                 next_positions c2 = subpoints_at (now + dt) (satellites c) /\
                 forall i sat, i < k -> satellites c !! i = Some sat ->
                   exists fr, FIELD_OF_REGARD !! i = Some fr /\
                     min_elevations_fire c2 !! i =
                       Some (compute_min_elevation
                               (elevation_m (subpoint_at sat (now + dt))) fr))
    (tick_satellite dt) (satellites c) 0 c1 c') as Hrule.
  cbn beta in Hrule. destruct Hrule as (_ & _ & Hall); try done.
  - split_and!; try done. intros i sat Hi. lia.
  - clear Hrun. intros k x c2 c3 Hk (Ht2 & Hnp2 & Hdone) Hbody. cbn [Nat.add] in *.
    destruct (tick_keeps_tick_satellite dt k x c2) as (_ & Et & _).
    destruct (next_keeps_tick_satellite dt k x c2) as [Enp _].
    rewrite Hbody in Et, Enp. cbn [snd] in Et, Enp.
    split_and!; try congruence.
    revert Hbody. unfold tick_satellite. unfold_monad. rewrite Ht2, Hnp2.
    unfold subpoints_at. rewrite list_lookup_fmap, Hk. cbn [fmap option_fmap option_map].
    cbv beta iota zeta.
    destruct (FIELD_OF_REGARD !! k) as [fr|] eqn:Hfr; [|done]. cbv beta iota zeta.
    case_bool_decide as Hlt; [|done]. cbv beta iota zeta.
    set (c4 := with_min_elevations_fire _ c2). change (fires c4) with (fires c2).
    unfold for_enumerate. intros Hbody.
    pose proof (preserves_for_from elevations_keep ltac:(done)
                  ltac:(unfold elevations_keep; intros; congruence)
                  (tick_fire dt k x (now + dt)) (fires c2) 0
                  (elevations_keep_tick_fire dt k x (now + dt)) c4) as Hkeep.
    rewrite Hbody in Hkeep. unfold elevations_keep in Hkeep. cbn [snd] in Hkeep.
    rewrite Hkeep. subst c4. proj.
    intros i sat Hi Hs. destruct (decide (i = k)) as [->|Hne].
    + assert (sat = x) as -> by congruence. exists fr. split; [done|].
      by apply list_lookup_insert_eq.
    + rewrite list_lookup_insert_ne by done. apply Hdone; [lia|done].
  - intros i sat Hs. apply Hall; [|done]. apply lookup_lt_Some in Hs. lia.
Qed.

(** X22: after a tick that returns, the stored minimum elevation of every
    satellite is [compute_min_elevation] of its altitude at the new time and
    its field of regard. *)
Theorem tick_refreshes_min_elevations ns ES tles c0 ops dt c' now :
  names_ok ns = true -> __init__ ns ES tles = Ok c0 ->
  let c := run ops c0 in
  time c = Some now -> tick dt c = (Ok tt, c') ->
  forall i sat, satellites c !! i = Some sat ->
    exists fr, FIELD_OF_REGARD !! i = Some fr /\
      min_elevations_fire c' !! i =
        Some (compute_min_elevation (elevation_m (subpoint_at sat (now + dt))) fr).
Proof.
  intros Hok Hinit c Ht Htick.
  pose proof (Inv_reached ns ES tles c0 ops Hok Hinit) as HI. fold c in HI.
  by eapply tick_refreshes.
Qed.

End proofs.
End BehaviourFacts.

(** ** Detection records along a run *)

Module DetectionFacts.
Import Firesat FiresatFacts Behaviour BehaviourFacts.
Section proofs.
Context `{Ext : External}.

Ltac proj :=
  cbn [names fires grounds satellites detect report positions next_positions
       min_elevations_fire time next_time notified
       with_fires with_grounds with_detect with_report with_positions
       with_next_positions with_min_elevations_fire with_time with_next_time
       with_notified] in *.

Ltac unfold_monad :=
  cbv beta iota zeta delta [bind gets lift modify ret raise names_getitem detect_getitem
       detect_setitem report_getitem report_setitem get_time_plus list_getitem dict_getitem].

(** *** The effect of any tick on the detection records *)

(** A loop that may raise: [I] holds after each pass that returns, [F]
    once a pass has raised. *)
Lemma for_from_rule_any {A} (I : nat -> Constellation -> Prop) (F : Constellation -> Prop)
    (body : nat -> A -> M unit) l i c :
  I i c ->
  (forall k x c c', l !! k = Some x -> I (i + k) c -> body (i + k) x c = (Ok tt, c') ->
                    I (S (i + k)) c') ->
  (forall k x c e c', l !! k = Some x -> I (i + k) c -> body (i + k) x c = (Raise e, c') ->
                      F c') ->
  match for_from i l body c with
  | (Ok _, c') => I (i + length l) c'
  | (Raise _, c') => F c'
  end.
Proof.
  revert i c. induction l as [|x l IH]; intros i c Hc Hok Hraise.
  - cbn. by rewrite Nat.add_0_r.
  - cbn [for_from]. unfold bind.
    destruct (body i x c) as [[[]|e] c1] eqn:Hx.
    + cbn [length]. replace (i + S (length l)) with (S i + length l) by lia.
      apply IH.
      * specialize (Hok 0 x c c1). rewrite Nat.add_0_r in Hok. by apply Hok.
      * intros k y c2 c3 Hk HI Hy.
        replace (S (S i + k)) with (S (i + S k)) by lia.
        apply (Hok (S k) y c2 c3); [done| |];
          by replace (i + S k) with (S i + k) by lia.
      * intros k y c2 e c3 Hk HI Hy.
        apply (Hraise (S k) y c2 e c3); [done| |];
          by replace (i + S k) with (S i + k) by lia.
    + specialize (Hraise 0 x c e c1). rewrite Nat.add_0_r in Hraise. by apply Hraise.
Qed.

Lemma detect_pass_no_time c dt j d k : time c = None -> detect_pass c dt j d k = d.
Proof.
  intros Ht. induction k as [|k IH]; [done|]. by rewrite detect_pass_S, Ht.
Qed.

Lemma detect_pass_unnamed c dt j d k k' :
  (forall i, k <= i -> names c !! i = None) -> k <= k' ->
  detect_pass c dt j d k' = detect_pass c dt j d k.
Proof.
  intros Hn Hle. induction Hle as [|k' Hle IH]; [done|].
  rewrite detect_pass_S, (Hn k') by done. by destruct (time c).
Qed.

(** An unnamed satellite stops the tick at its first fire, before any
    record is written. *)
Lemma tick_satellite_unnamed dt k sat c now :
  time c = Some now -> names c !! k = None ->
  detect (tick_satellite dt k sat c).2 = detect c.
Proof.
  intros Ht Hn. unfold tick_satellite. unfold_monad. rewrite Ht.
  destruct (next_positions c !! k) as [[p|]|]; try done.
  destruct (FIELD_OF_REGARD !! k) as [fr|]; try done.
  case_bool_decide as Hlt; [|done]. cbv beta iota zeta.
  set (c1 := with_min_elevations_fire _ c).
  change (detect c) with (detect c1). change (fires c1) with (fires c).
  assert (Hm : is_Some (min_elevations_fire c1 !! k)).
  { subst c1. proj. apply lookup_lt_is_Some_2. by rewrite length_insert. }
  assert (Ht1 : time c1 = Some now) by done.
  assert (Hn1 : names c1 !! k = None) by done.
  unfold for_enumerate. clearbody c1.
  destruct (fires c) as [|fire fs]; [done|].
  cbn [for_from]. unfold bind. destruct Hm as [m Hm].
  by rewrite (tick_fire_no_name dt k sat (now + dt) 0 fire c1 now m Ht1 Hm Hn1).
Qed.

Lemma tick_detect_exact ns c dt :
  Inv ns c -> positions_on_clock c ->
  forall j d, detect c !! j = Some d ->
    detect (tick dt c).2 !! j = Some (detect_pass c dt j d (length (satellites c))).
Proof.
  intros HI Hclock j d Hd. destruct (time c) as [now|] eqn:Ht.
  2: { rewrite tick_time_None by done. by rewrite detect_pass_no_time. }
  assert (Hg : is_Some (grounds c)).
  { unfold positions_on_clock in Hclock. rewrite Ht in Hclock.
    destruct (next_time c); [|done]. by destruct Hclock as (_ & _ & ?). }
  rewrite (tick_header dt c now Ht). unfold for_enumerate.
  set (c1 := with_next_positions _ _).
  assert (H1 : pass_state ns c dt now (fun _ => 0) 0 c1 /\ grounds c1 = grounds c).
  { split; [|done]. split_and!; try done.
    - eapply Inv_frame; [exact HI|..]; subst c1; proj; try done;
        unfold subpoints_at; rewrite ?length_fmap; try done; eapply HI.
    - intros _ i Hi. lia. }
  pose proof (for_from_rule_any
    (fun k c2 => pass_state ns c dt now (fun _ => k) k c2 /\ grounds c2 = grounds c)
    (fun c' => forall j d, detect c !! j = Some d ->
       detect c' !! j = Some (detect_pass c dt j d (length (satellites c))))
    (tick_satellite dt) (satellites c) 0 c1 H1) as Hloop.
  cbn beta in Hloop. cbn [Nat.add] in Hloop.
  assert (Hstep : forall k sat c2 c3, satellites c !! k = Some sat ->
            pass_state ns c dt now (fun _ => k) k c2 /\ grounds c2 = grounds c ->
            tick_satellite dt k sat c2 = (Ok tt, c3) ->
            pass_state ns c dt now (fun _ => S k) (S k) c3 /\ grounds c3 = grounds c).
  { intros k sat c2 c3 Hsat [Hps Hgr] Hbody. split.
    - eapply tick_satellite_ok_detect; eauto. eapply HI.
    - destruct (tick_keeps_tick_satellite dt k sat c2) as (_ & _ & _ & Eg & _).
      rewrite Hbody in Eg. cbn [snd] in Eg. congruence. }
  assert (Hstop : forall k sat c2 (e : exn) c3, satellites c !! k = Some sat ->
            pass_state ns c dt now (fun _ => k) k c2 /\ grounds c2 = grounds c ->
            tick_satellite dt k sat c2 = (Raise e, c3) ->
            forall j d, detect c !! j = Some d ->
              detect c3 !! j = Some (detect_pass c dt j d (length (satellites c)))).
  { intros k sat c2 e' c3 Hsat [Hps Hgr] Hbody j0 d0 Hd0.
    destruct Hps as (HI2 & Ht2 & En & Es & Ef & Enp & Hpass & Hnm).
    pose proof (lookup_lt_Some _ _ _ Hsat) as Hk.
    assert (Hnone : names c !! k = None).
    { destruct (names c !! k) as [n|] eqn:Hn; [|done]. exfalso.
      destruct (tick_satellite_returns ns dt k sat now c2) as [c4 Hc4]; try done.
      - by rewrite Hgr.
      - rewrite Enp, list_lookup_fmap, Hsat. cbn. eauto.
      - by rewrite Es.
      - right. rewrite En, Hn. eauto.
      - congruence. }
    pose proof (tick_satellite_unnamed dt k sat c2 now Ht2 ltac:(by rewrite En)) as Hsame.
    rewrite Hbody in Hsame. cbn [snd] in Hsame. rewrite Hsame, (Hpass _ _ Hd0).
    f_equal. symmetry. apply detect_pass_unnamed; [|lia].
    intros i Hi. apply lookup_ge_None. apply lookup_ge_None in Hnone. lia. }
  specialize (Hloop Hstep Hstop).
  destruct (for_from 0 (satellites c) (tick_satellite dt) c1) as [[[]|e] c'];
    cbn [snd].
  - destruct Hloop as [(_ & _ & _ & _ & _ & _ & Hpass & _) _]. by apply Hpass.
  - by apply Hloop.
Qed.

(** *** Entries, and who has seen the fire *)

Lemma detect_pass_entry ns c dt j d k n :
  names_ok ns = true -> names c = ns -> n ∈ ns ->
  non_null (detect_pass c dt j d k !! n) <->
  non_null (d !! n) \/
  exists i, i < k /\ names c !! i = Some n /\ in_view c dt i j = true.
Proof.
  intros Hok En Hn. induction k as [|k IH].
  - split; [by left|]. intros [?|(i & Hi & _)]; [done|lia].
  - rewrite detect_pass_S.
    assert (Hold : in_view c dt k j = false \/ names c !! k <> Some n ->
              (non_null (detect_pass c dt j d k !! n) <->
               non_null (d !! n) \/
               exists i, i < S k /\ names c !! i = Some n /\ in_view c dt i j = true)).
    { intros Hnot. rewrite IH. split.
      - intros [?|(i & Hi & ?)]; [by left|right]. exists i. split; [lia|done].
      - intros [?|(i & Hi & Hni & Hv)]; [by left|right].
        destruct (decide (i = k)) as [->|]; [|exists i; split; [lia|done]].
        destruct Hnot as [Hf|Hne]; congruence. }
    destruct (time c) as [now|] eqn:Ht.
    2: { apply Hold. left. unfold in_view. by rewrite Ht. }
    destruct (names c !! k) as [n'|] eqn:Hn'; [|apply Hold; by right].
    destruct (in_view c dt k j) eqn:Hv; [|apply Hold; by left].
    assert (Hin' : n' ∈ ns) by (rewrite <- En; by eapply list_elem_of_lookup_2).
    rewrite (detect_step_lookup_name ns) by done.
    destruct (decide (n' = n)) as [->|Hne].
    + split; [|by intros _; exists (VTime (now + dt))].
      intros _. right. exists k. split; [lia|done].
    + apply Hold. right. congruence.
Qed.

Lemma detect_pass_first_named ns c dt now j d k :
  names_ok ns = true -> names c = ns -> time c = Some now ->
  d !! KStr "firstDetector" = Some VNone ->
  match List.find (fun i => in_view c dt i j && bool_decide (is_Some (names c !! i)))
                  (seq 0 k) with
  | Some i => exists n, names c !! i = Some n /\
                        detect_pass c dt j d k !! KStr "firstDetector" = Some (val_of_key n)
  | None => detect_pass c dt j d k !! KStr "firstDetector" = Some VNone
  end.
Proof.
  intros Hok En Ht Hd. induction k as [|k IH]; [done|].
  rewrite seq_S, find_snoc. cbn [Nat.add]. rewrite detect_pass_S, Ht.
  destruct (names c !! k) as [n|] eqn:Hn.
  - assert (Hin : n ∈ ns) by (rewrite <- En; by eapply list_elem_of_lookup_2).
    rewrite bool_decide_true by eauto. rewrite andb_true_r.
    destruct (List.find _ (seq 0 k)) as [i|].
    + destruct IH as (n0 & Hn0 & Hfd). exists n0. split; [done|].
      destruct (in_view c dt k j); [|done].
      rewrite (detect_step_firstDetector ns) by done. rewrite Hfd. by destruct n0.
    + destruct (in_view c dt k j); [|done].
      exists n. split; [done|]. rewrite (detect_step_firstDetector ns) by done.
      by rewrite IH.
  - rewrite bool_decide_false by (by intros [? ?]). rewrite andb_false_r.
    by destruct (List.find _ (seq 0 k)).
Qed.

(** The records after a call other than [tick]. *)
Lemma detect_exec_other ns c o :
  Inv ns c -> (forall dt, o <> OpTick dt) ->
  detect (exec o c).2 =
    detect c ++ match o with
                | OpFire started => [new_detect (names c) (fireId started)]
                | _ => []
                end.
Proof.
  intros HI Ho. destruct o as [t|dt| |f|g]; cbn [exec]; rewrite ?app_nil_r.
  - by rewrite initialize_spec.
  - by destruct (Ho dt).
  - by rewrite (tock_spec ns) by done.
  - by rewrite on_fire_spec.
  - rewrite on_ground_spec. destruct (grounds c); [|done]. by destruct (series_contains _ _).
Qed.

(** The record [on_fire] creates: no satellite has a timestamp, the flag is
    down, there is no first detector, and it announces nothing. *)
Lemma new_detect_blank ns fid :
  names_ok ns = true ->
  (forall n, n ∈ ns -> new_detect ns fid !! n = Some VNone) /\
  new_detect ns fid !! KStr "firstDetect" = Some (VBool false) /\
  new_detect ns fid !! KStr "firstDetector" = Some VNone /\
  new_detect ns fid !! KStr "fireId" = Some (VInt fid) /\
  detected_event (new_detect ns fid) = None.
Proof.
  intros Hok. unfold new_detect. split_and!.
  - intros n Hn. destruct (name_not_field _ _ Hok Hn) as (N1 & N2 & N3 & _).
    rewrite !lookup_insert_ne by done. by apply fromkeys_lookup.
  - by rewrite lookup_insert_ne, lookup_insert_eq by done.
  - by rewrite lookup_insert_eq.
  - by rewrite !lookup_insert_ne, lookup_insert_eq by done.
  - unfold detected_event.
    assert (E : (<[KStr "firstDetector":=VNone]>
                   (<[KStr "firstDetect":=VBool false]>
                      (<[KStr "fireId":=VInt fid]> (fromkeys ns))) : gmap pykey pyval)
                !!! KStr "firstDetect" = VBool false).
    { apply lookup_total_Some. by rewrite lookup_insert_ne, lookup_insert_eq by done. }
    by rewrite E.
Qed.

Lemma seen_by_snoc c0 ops o j n :
  seen_by c0 (ops ++ [o]) j n <->
  seen_by c0 ops j n \/
  exists dt i, o = OpTick dt /\ names (run ops c0) !! i = Some n /\
               in_view (run ops c0) dt i j = true.
Proof.
  split.
  - intros (ops1 & dt & ops2 & i & Hops & Hn & Hv).
    destruct (decide (ops2 = [])) as [->|Hne].
    + apply app_inj_tail in Hops as [-> ->]. right. by exists dt, i.
    + destruct (exists_last Hne) as (ops2' & o' & ->).
      change (ops1 ++ OpTick dt :: ops2' ++ [o'])
        with (ops1 ++ (OpTick dt :: ops2') ++ [o']) in Hops.
      rewrite app_assoc in Hops. apply app_inj_tail in Hops as [-> ->].
      left. by exists ops1, dt, ops2', i.
  - intros [(ops1 & dt & ops2 & i & -> & Hn & Hv)|(dt & i & -> & Hn & Hv)].
    + exists ops1, dt, (ops2 ++ [o]), i. split; [by rewrite <- app_assoc|done].
    + exists ops, dt, [], i. done.
Qed.

Lemma fires_run_prefix ops c : exists more, fires (run ops c) = fires c ++ more.
Proof.
  revert c. induction ops as [|o ops IH]; intros c.
  - exists []. by rewrite app_nil_r.
  - rewrite run_cons. destruct (IH (exec o c).2) as [more Hmore].
    rewrite Hmore, fires_exec, <- app_assoc. eauto.
Qed.

(** A record can only have been seen after its fire has arrived. *)
Lemma seen_by_lt ns ES tles c0 ops j n :
  names_ok ns = true -> __init__ ns ES tles = Ok c0 ->
  seen_by c0 ops j n -> j < length (fires (run ops c0)).
Proof.
  intros Hok Hinit (ops1 & dt & ops2 & i & -> & Hn & Hv).
  rewrite run_app. destruct (fires_run_prefix (OpTick dt :: ops2) (run ops1 c0)) as [more ->].
  rewrite length_app. unfold in_view in Hv.
  destruct (time _); [|done]. destruct (satellites _ !! i); [|done].
  destruct (FIELD_OF_REGARD !! i); [|done].
  destruct (fires (run ops1 c0) !! j) eqn:Hf; [|done].
  apply lookup_lt_Some in Hf. lia.
Qed.

Lemma names_run ns ES tles c0 ops :
  names_ok ns = true -> __init__ ns ES tles = Ok c0 -> names (run ops c0) = ns.
Proof. intros Hok Hinit. eapply inv_names. by eapply Inv_reached. Qed.

Lemma entry_iff_seen ns ES tles c0 ops :
  names_ok ns = true -> __init__ ns ES tles = Ok c0 ->
  forall j d n, detect (run ops c0) !! j = Some d -> n ∈ ns ->
    non_null (d !! n) <-> seen_by c0 ops j n.
Proof.
  intros Hok Hinit. induction ops as [|o ops IH] using rev_ind; intros j d n Hd Hn.
  - destruct (init_fields _ _ _ _ Hinit) as (_ & _ & _ & Hdet & _).
    cbn in Hd. by rewrite Hdet in Hd.
  - pose proof (Inv_reached ns ES tles c0 ops Hok Hinit) as HI.
    pose proof (positions_follow_the_clock_aux ns ES tles c0 ops Hok Hinit) as Hclock.
    pose proof (names_run ns ES tles c0 ops Hok Hinit) as En.
    rewrite run_snoc in Hd. rewrite seen_by_snoc.
    assert (Hcase : (exists dt, o = OpTick dt) \/ forall dt, o <> OpTick dt).
    { destruct o; try (by right); left; eauto. }
    destruct Hcase as [[dt ->]|Ho].
    + cbn [exec] in Hd.
      assert (Hlen : j < length (detect (run ops c0))).
      { apply lookup_lt_Some in Hd.
        pose proof (Inv_tick ns _ dt HI) as HI'.
        destruct (tick_keeps_tick dt (run ops c0)) as (_ & _ & Ef & _).
        rewrite (inv_detect_len _ _ HI'), Ef, <- (inv_detect_len _ _ HI) in Hd. done. }
      destruct (lookup_lt_is_Some_2 _ _ Hlen) as [d0 Hd0].
      rewrite (tick_detect_exact ns _ dt HI Hclock j d0 Hd0) in Hd.
      inversion Hd; subst d. rewrite (detect_pass_entry ns) by done.
      rewrite (IH j d0 n Hd0 Hn). split.
      * intros [?|(i & Hi & Hni & Hv)]; [by left|right]. by exists dt, i.
      * intros [?|(dt' & i & Heq & Hni & Hv)]; [by left|right].
        inversion Heq; subst dt'. exists i. split; [|done].
        unfold in_view in Hv. destruct (time _); [|done].
        destruct (satellites (run ops c0) !! i) eqn:Hs; [|done].
        by eapply lookup_lt_Some.
    + rewrite (detect_exec_other ns _ o HI Ho) in Hd.
      apply lookup_app_Some in Hd as [Hd|[Hge Hd]].
      * rewrite (IH j d n Hd Hn). split; [by left|].
        intros [?|(dt & i & -> & _)]; [done|]. by destruct (Ho dt).
      * destruct o as [t|dt| |f|g]; try (by destruct (_ - _)).
        destruct (j - length (detect (run ops c0))) as [|m]; [|done].
        cbn in Hd. inversion Hd; subst d. rewrite En.
        destruct (new_detect_blank ns (fireId f) Hok) as (Hblank & _).
        split.
        -- intros (v & Hv & Hne). rewrite (Hblank n Hn) in Hv. congruence.
        -- intros [Hseen|(dt & i & Heq & _)]; [|done].
           apply (seen_by_lt ns ES tles) in Hseen; try done.
           rewrite <- (inv_detect_len _ _ HI) in Hseen. lia.
Qed.

Lemma seen_by_in ns ES tles c0 ops j n :
  names_ok ns = true -> __init__ ns ES tles = Ok c0 -> seen_by c0 ops j n -> n ∈ ns.
Proof.
  intros Hok Hinit (ops1 & dt & ops2 & i & _ & Hn & _).
  rewrite <- (names_run ns ES tles c0 ops1 Hok Hinit). by eapply list_elem_of_lookup_2.
Qed.

Lemma event_iff_seen ns ES tles c0 ops :
  names_ok ns = true -> __init__ ns ES tles = Ok c0 ->
  forall j d, detect (run ops c0) !! j = Some d ->
    is_Some (detected_event d) <-> exists n, seen_by c0 ops j n.
Proof.
  intros Hok Hinit j d Hd.
  pose proof (Inv_reached ns ES tles c0 ops Hok Hinit) as HI.
  destruct (Inv_detect_lookup _ _ _ _ HI Hd) as (f & r & _ & _ & Hrec).
  rewrite (rec_ok_detected_iff _ _ _ _ Hrec). split.
  - intros (n & Hn & Hnn). exists n. by apply (entry_iff_seen ns ES tles c0 ops Hok Hinit j d n).
  - intros (n & Hseen). exists n.
    pose proof (seen_by_in ns ES tles c0 ops j n Hok Hinit Hseen) as Hn. split; [done|].
    by apply (entry_iff_seen ns ES tles c0 ops Hok Hinit j d n).
Qed.

(** The first detector of a record is a satellite that has seen the fire. *)
Lemma first_detector_seen ns ES tles c0 ops j d v :
  names_ok ns = true -> __init__ ns ES tles = Ok c0 ->
  detect (run ops c0) !! j = Some d ->
  d !! KStr "firstDetector" = Some v -> v <> VNone ->
  exists n, v = val_of_key n /\ seen_by c0 ops j n.
Proof.
  intros Hok Hinit Hd Hv Hne.
  pose proof (Inv_reached ns ES tles c0 ops Hok Hinit) as HI.
  destruct (Inv_detect_lookup _ _ _ _ HI Hd) as (f & r & _ & _ & Hrec).
  destruct Hrec as [_ _ Hdn _ _ Hdl _ _].
  destruct Hdl as [(_ & Hfd & _)|(_ & n & Hn & Hfd & Hnn)]; [congruence|].
  exists n. split; [congruence|].
  apply (entry_iff_seen ns ES tles c0 ops Hok Hinit j d n Hd Hn).
  destruct (Hdn n Hn) as [?|[t Ht]]; [done|]. exists (VTime t). by rewrite Ht.
Qed.

Lemma detected_only_if_seen ns ES tles c0 ops :
  names_ok ns = true -> __init__ ns ES tles = Ok c0 ->
  forall fid t by_, FireDetected fid t by_ ∈ notified (run ops c0) ->
    exists j f n, fires (run ops c0) !! j = Some f /\ fid = VInt (fireId f) /\
                  by_ = val_of_key n /\ seen_by c0 ops j n.
Proof.
  intros Hok Hinit. induction ops as [|o ops IH] using rev_ind; intros fid t by_ He.
  - destruct (init_fields _ _ _ _ Hinit) as (_ & _ & _ & _ & _ & _ & _ & Hn).
    cbn in He. rewrite Hn in He. by apply elem_of_nil in He.
  - pose proof (Inv_reached ns ES tles c0 ops Hok Hinit) as HI.
    rewrite run_snoc in *.
    assert (Hold : FireDetected fid t by_ ∈ notified (run ops c0) ->
              exists j f n, fires (exec o (run ops c0)).2 !! j = Some f /\
                fid = VInt (fireId f) /\ by_ = val_of_key n /\
                seen_by c0 (ops ++ [o]) j n).
    { intros Hin. destruct (IH _ _ _ Hin) as (j & f & n & Hf & ? & ? & Hseen).
      exists j, f, n. split_and!; try done.
      - rewrite fires_exec. by apply lookup_app_l_Some.
      - apply seen_by_snoc. by left. }
    destruct o as [t0|dt| |f0|g].
    + apply Hold. by rewrite (notified_exec ns) in He.
    + apply Hold. by rewrite (notified_exec ns) in He.
    + cbn [exec] in He. rewrite (notified_tock ns) in He by done.
      rewrite !elem_of_app in He. destruct He as [He|[He|He]]; [by apply Hold| |].
      * apply list_elem_of_omap in He as (d & Hin & He).
        apply list_elem_of_lookup_1 in Hin as [j Hj].
        destruct (Inv_detect_lookup _ _ _ _ HI Hj) as (f & r & Hf & _ & Hrec).
        rewrite (rec_ok_detected_event _ _ _ _ Hrec) in He.
        destruct (d !! KStr "firstDetect") as [[|[]| | |]|] eqn:Hflag; try done.
        inversion He as [[Hfid Ht Hby]].
        assert (Hfd : exists v, d !! KStr "firstDetector" = Some v /\ v <> VNone).
        { destruct Hrec as [_ _ _ _ _ Hdl _ _].
          destruct Hdl as [(Hfalse & _)|(_ & n & _ & Hfd & _)]; [congruence|].
          exists (val_of_key n). split; [done|apply val_of_key_not_None]. }
        destruct Hfd as (v & Hv & Hne).
        destruct (first_detector_seen ns ES tles c0 ops j d v Hok Hinit Hj Hv Hne)
          as (n & -> & Hseen).
        exists j, f, n. split_and!; try done.
        -- cbn [exec]. rewrite (tock_spec ns) by done. done.
        -- by rewrite (lookup_total_Some _ _ _ Hv).
        -- apply seen_by_snoc. by left.
      * apply list_elem_of_omap in He as (r & _ & He). unfold reported_event in He.
        by destruct (truthy _).
    + apply Hold. by rewrite (notified_exec ns) in He.
    + apply Hold. by rewrite (notified_exec ns) in He.
Qed.

Lemma on_fire_new_record ns c started :
  Inv ns c ->
  detect (on_fire started c).2 = detect c ++ [new_detect ns (fireId started)].
Proof. intros HI. rewrite on_fire_spec. cbn. by rewrite (inv_names _ _ HI). Qed.

Lemma detect_kept_by_other ns c o j d :
  Inv ns c -> (forall dt, o <> OpTick dt) -> detect c !! j = Some d ->
  detect (exec o c).2 !! j = Some d.
Proof.
  intros HI Ho Hd. rewrite (detect_exec_other ns) by done. by apply lookup_app_l_Some.
Qed.

Lemma tick_entry_iff ns c dt j d n :
  Inv ns c -> positions_on_clock c -> detect c !! j = Some d -> n ∈ ns ->
  exists d', detect (tick dt c).2 !! j = Some d' /\
    (non_null (d' !! n) <->
     non_null (d !! n) \/ exists i, names c !! i = Some n /\ in_view c dt i j = true).
Proof.
  intros HI Hclock Hd Hn. eexists. split; [by apply (tick_detect_exact ns)|].
  rewrite (detect_pass_entry ns) by (done || eapply HI). split.
  - intros [?|(i & _ & ?)]; [by left|right]. by exists i.
  - intros [?|(i & Hni & Hv)]; [by left|right]. exists i. split; [|done].
    unfold in_view in Hv. destruct (time c); [|done].
    destruct (satellites c !! i) eqn:Hs; [|done]. by eapply lookup_lt_Some.
Qed.

(** C1 (amended): a tock hands the observers one Detected notification for
    every fire whose detection record holds a satellite timestamp, and for
    no other fire; the notification carries the fire's id.  The flag is not
    cleared, so a fire that is announced at one tock is announced again at
    every later tock.  A tick that returns normally gives a timestamp to
    every fire some satellite has in view, and leaves the record of a fire
    no satellite has in view as it was.

    A record holds a timestamp for a satellite exactly when an earlier tick
    of the run found that satellite in view of the fire; so a record gives
    rise to a Detected notification exactly when some satellite has come
    into view of its fire, and every Detected notification in the log
    carries the id of a fire and the name of a satellite that has come into
    view of it.  The record [on_fire] appends has a null entry for every
    satellite, [firstDetect] False and [firstDetector] None, and gives rise
    to no notification; [initialize], [tock], [on_fire] and [on_ground]
    leave every existing record as it is; and a tick, whether it returns or
    raises, leaves a record with a timestamp for a satellite exactly when
    the record had one or the satellite is in view of the fire. *)
Theorem detected_at_every_tock_once_seen ns ES tles c0 ops :
  names_ok ns = true -> __init__ ns ES tles = Ok c0 ->
  let c := run ops c0 in
  notified (tock c).2 =
    notified c ++ omap detected_event (detect c) ++ omap reported_event (report c) /\
  (forall j f d, fires c !! j = Some f -> detect c !! j = Some d ->
     (is_Some (detected_event d) <-> exists n, n ∈ ns /\ non_null (d !! n)) /\
     (forall e, detected_event d = Some e ->
        exists t by_, e = FireDetected (VInt (fireId f)) t by_)) /\
  (forall more j d, detect c !! j = Some d -> is_Some (detected_event d) ->
     exists d', detect (run more c) !! j = Some d' /\ is_Some (detected_event d')) /\
  (forall dt c' i j, tick dt c = (Ok tt, c') -> in_view c dt i j = true ->
     exists d', detect c' !! j = Some d' /\ is_Some (detected_event d')) /\
  (forall dt c' j d, tick dt c = (Ok tt, c') -> detect c !! j = Some d ->
     first_in_view c dt j = None -> detect c' !! j = Some d) /\
  (forall j d n, detect c !! j = Some d -> n ∈ ns ->
     (non_null (d !! n) <-> seen_by c0 ops j n)) /\
  (forall j d, detect c !! j = Some d ->
     (is_Some (detected_event d) <-> exists n, seen_by c0 ops j n)) /\
  (forall fid t by_, FireDetected fid t by_ ∈ notified c ->
     exists j f n, fires c !! j = Some f /\ fid = VInt (fireId f) /\
                   by_ = val_of_key n /\ seen_by c0 ops j n) /\
  (forall started,
     detect (on_fire started c).2 = detect c ++ [new_detect ns (fireId started)] /\
     (forall n, n ∈ ns -> new_detect ns (fireId started) !! n = Some VNone) /\
     new_detect ns (fireId started) !! KStr "firstDetect" = Some (VBool false) /\
     new_detect ns (fireId started) !! KStr "firstDetector" = Some VNone /\
     detected_event (new_detect ns (fireId started)) = None) /\
  (forall o j d, (forall dt, o <> OpTick dt) -> detect c !! j = Some d ->
     detect (exec o c).2 !! j = Some d) /\
  (forall dt j d n, detect c !! j = Some d -> n ∈ ns ->
     exists d', detect (tick dt c).2 !! j = Some d' /\
       (non_null (d' !! n) <->
        non_null (d !! n) \/
        exists i, names c !! i = Some n /\ in_view c dt i j = true)).
Proof.
  intros Hok Hi c. pose proof (Inv_reached ns ES tles c0 ops Hok Hi) as HI. fold c in HI.
  pose proof (positions_follow_the_clock_aux ns ES tles c0 ops Hok Hi) as Hclock.
  fold c in Hclock.
  split_and!.
  - by apply (notified_tock ns).
  - intros j f d Hf Hd. destruct (Inv_lookup _ _ _ _ HI Hf) as (d' & r & Hd' & Hr & Hrec).
    assert (d' = d) as -> by congruence. split.
    + by eapply rec_ok_detected_iff.
    + intros e He. rewrite (rec_ok_detected_event _ _ _ _ Hrec) in He.
      destruct (d !! KStr "firstDetect") as [[|[]| | |]|]; try done.
      inversion He. eauto.
  - intros more j d Hd Hev.
    destruct (Inv_detect_lookup _ _ _ _ HI Hd) as (f & r & _ & _ & Hrec).
    apply (rec_ok_detected_flag _ _ _ _ Hrec) in Hev.
    destruct (detect_evolves_run ns c more HI j d Hd) as (d' & Hd' & _ & Hflag & _).
    exists d'. split; [done|].
    pose proof (Inv_run ns c more HI) as HI'.
    destruct (Inv_detect_lookup _ _ _ _ HI' Hd') as (f' & r' & _ & _ & Hrec').
    apply (rec_ok_detected_flag _ _ _ _ Hrec'). by apply Hflag.
  - intros dt c' i j Hrun Hv.
    destruct (tick_in_view_stamped ns c dt c' i j HI Hrun Hv) as
      (now & n & d' & Ht & Hn & Hd' & Hstamp).
    exists d'. split; [done|].
    assert (HI' : Inv ns c').
    { pose proof (Inv_tick ns c dt HI) as H. by rewrite Hrun in H. }
    destruct (Inv_detect_lookup _ _ _ _ HI' Hd') as (f' & r' & _ & _ & Hrec').
    apply (rec_ok_detected_iff _ _ _ _ Hrec'). exists n. split.
    + exact (Inv_name_in ns c i n HI Hn).
    + exists (VTime (now + dt)). by rewrite Hstamp.
  - intros dt c' j d Hrun Hd Hnone.
    destruct (tick_ok_detect _ _ _ _ HI Hrun) as (now & Ht & Hpass & _).
    rewrite (Hpass _ _ Hd). f_equal. by apply detect_pass_none.
  - intros j d n Hd Hn. by apply (entry_iff_seen ns ES tles c0 ops).
  - intros j d Hd. by apply (event_iff_seen ns ES tles c0 ops).
  - by apply (detected_only_if_seen ns ES tles c0 ops).
  - intros started. destruct (new_detect_blank ns (fireId started) Hok) as (? & ? & ? & _ & ?).
    split_and!; try done. by apply on_fire_new_record.
  - intros o j d Ho Hd. by apply (detect_kept_by_other ns).
  - intros dt j d n Hd Hn. by apply (tick_entry_iff ns).
Qed.

(** C5: in every state of a run, [firstDetector] of a detection record is
    set if and only if the record holds a timestamp for some satellite; once
    set it keeps its value through every later operation; and a tick that
    sets it gives it the name of the first satellite, in iteration order,
    that is in view of the fire.

    The record [on_fire] appends has [firstDetector] None and a null entry
    for every satellite; [initialize], [tock], [on_fire] and [on_ground]
    leave every existing record, and so an unset [firstDetector], as it is;
    a tick, whether it returns or raises, takes an unset [firstDetector] to
    the name of the first satellite in view of the fire, and leaves it unset
    when there is none.  So [firstDetector] is set exactly when some
    satellite has come into view of the fire in an earlier tick of the run,
    and it then names a satellite that has. *)
Theorem first_detector_latched ns ES tles c0 ops :
  names_ok ns = true -> __init__ ns ES tles = Ok c0 ->
  let c := run ops c0 in
  (forall j d, detect c !! j = Some d ->
     (non_null (d !! KStr "firstDetector") <-> exists n, n ∈ ns /\ non_null (d !! n))) /\
  (forall more j d v, detect c !! j = Some d ->
     d !! KStr "firstDetector" = Some v -> v <> VNone ->
     exists d', detect (run more c) !! j = Some d' /\
                d' !! KStr "firstDetector" = Some v) /\
  (forall dt c' j d, tick dt c = (Ok tt, c') -> detect c !! j = Some d ->
     d !! KStr "firstDetector" = Some VNone ->
     exists d', detect c' !! j = Some d' /\
       match first_in_view c dt j with
       | Some i => exists n, names c !! i = Some n /\
                             d' !! KStr "firstDetector" = Some (val_of_key n)
       | None => d' !! KStr "firstDetector" = Some VNone
       end) /\
  (forall started,
     detect (on_fire started c).2 = detect c ++ [new_detect ns (fireId started)] /\
     new_detect ns (fireId started) !! KStr "firstDetector" = Some VNone /\
     (forall n, n ∈ ns -> new_detect ns (fireId started) !! n = Some VNone)) /\
  (forall o j d, (forall dt, o <> OpTick dt) -> detect c !! j = Some d ->
     detect (exec o c).2 !! j = Some d) /\
  (forall dt j d, detect c !! j = Some d ->
     d !! KStr "firstDetector" = Some VNone ->
     exists d', detect (tick dt c).2 !! j = Some d' /\
       match first_named_in_view c dt j with
       | Some i => exists n, names c !! i = Some n /\
                             d' !! KStr "firstDetector" = Some (val_of_key n)
       | None => d' !! KStr "firstDetector" = Some VNone
       end) /\
  (forall j d v, detect c !! j = Some d ->
     d !! KStr "firstDetector" = Some v -> v <> VNone ->
     exists n, v = val_of_key n /\ seen_by c0 ops j n) /\
  (forall j d, detect c !! j = Some d ->
     (non_null (d !! KStr "firstDetector") <-> exists n, seen_by c0 ops j n)).
Proof.
  intros Hok Hi c. pose proof (Inv_reached ns ES tles c0 ops Hok Hi) as HI. fold c in HI.
  pose proof (positions_follow_the_clock_aux ns ES tles c0 ops Hok Hi) as Hclock.
  fold c in Hclock.
  assert (Hiff : forall j d, detect c !! j = Some d ->
            (non_null (d !! KStr "firstDetector") <->
             exists n, n ∈ ns /\ non_null (d !! n))).
  { intros j d Hd. destruct (Inv_detect_lookup _ _ _ _ HI Hd) as (f & r & _ & _ & Hrec).
    destruct Hrec as [_ _ Hdn _ _ Hdl _ _].
    destruct Hdl as [(_ & Hfd & Hall) | (_ & n & Hn & Hfd & Hnn)].
    + split.
      * intros (v & Hv & Hne). congruence.
      * intros (n & Hn & v & Hv & Hne). rewrite (Hall n Hn) in Hv. congruence.
    + split.
      * intros _. exists n. split; [done|].
        destruct (Hdn n Hn) as [?|[t Ht]]; [done|]. exists (VTime t). by rewrite Ht.
      * intros _. exists (val_of_key n). split; [done|]. apply val_of_key_not_None. }
  split_and!.
  - exact Hiff.
  - intros more j d v Hd Hv Hne.
    destruct (detect_evolves_run ns c more HI j d Hd) as (d' & Hd' & _ & _ & Hkeep & _).
    eauto.
  - intros dt c' j d Hrun Hd Hfd.
    destruct (tick_ok_detect _ _ _ _ HI Hrun) as (now & Ht & Hpass & Hnm).
    eexists. split; [by apply Hpass|].
    assert (Hne : fires c <> []).
    { destruct (Inv_detect_lookup _ _ _ _ HI Hd) as (f & _ & Hf & _). by intros E; rewrite E in Hf. }
    unfold first_in_view.
    apply (detect_pass_firstDetector ns c dt now); try done; [eapply HI|by apply Hnm].
  - intros started. destruct (new_detect_blank ns (fireId started) Hok) as (? & _ & ? & _).
    split_and!; try done. by apply on_fire_new_record.
  - intros o j d Ho Hd. by apply (detect_kept_by_other ns).
  - intros dt j d Hd Hfd. eexists. split; [by apply (tick_detect_exact ns)|].
    unfold first_named_in_view. destruct (time c) as [now|] eqn:Ht.
    + apply (detect_pass_first_named ns c dt now); try done. eapply HI.
    + rewrite detect_pass_no_time by done.
      assert (Hnone : List.find
                (fun i => in_view c dt i j && bool_decide (is_Some (names c !! i)))
                (seq 0 (length (satellites c))) = None).
      { generalize (seq 0 (length (satellites c))). intros l.
        induction l as [|i l IHl]; [done|]. cbn [List.find].
        unfold in_view at 1. by rewrite Ht. }
      by rewrite Hnone.
  - intros j d v Hd Hv Hne. by apply (first_detector_seen ns ES tles c0 ops j d v).
  - intros j d Hd. rewrite (Hiff j d Hd). split.
    + intros (n & Hn & Hnn). exists n.
      by apply (entry_iff_seen ns ES tles c0 ops Hok Hi j d n).
    + intros (n & Hseen). exists n.
      pose proof (seen_by_in ns ES tles c0 ops j n Hok Hi Hseen) as Hn. split; [done|].
      by apply (entry_iff_seen ns ES tles c0 ops Hok Hi j d n).
Qed.

End proofs.
End DetectionFacts.

(** ** Facts about the publisher and the fire schedule *)

Module PublisherFacts.
Import Firesat FiresatFacts Behaviour BehaviourFacts Publisher.
Section proofs.
Context `{SExt : StatusExternal}.

Lemma publish_from_spec c now step frame sats mins i p :
  time c = Some now -> time_status_step p = Some step -> grounds c = Some frame ->
  drop i (min_elevations_fire c) = mins -> length mins = length sats ->
  i + length sats <= length (isInRange p) ->
  publish_from c i sats p =
    (Ok tt,
     {| time_status_step := Some step;
        isInRange :=
          take i (isInRange p) ++
          ((fun sat => existsb (in_range_of (now + 60 * step) sat) frame) <$> sats) ++
          drop (i + length sats) (isInRange p);
        sent := sent p ++
                imap (fun k '(sat, m) => status_of now step frame (i + k) sat m)
                     (zip sats mins) |}).
Proof.
  intros Ht Hstep Hg. revert i mins p Hstep.
  induction sats as [|sat sats IH]; intros i mins p Hstep Hm Hlen Hflags.
  - cbn. rewrite Nat.add_0_r, app_nil_r, take_drop. destruct p; cbn in *. by subst.
  - cbn [publish_from]. rewrite Ht, Hstep.
    destruct mins as [|m mins]; [done|].
    assert (Hi : min_elevations_fire c !! i = Some m).
    { rewrite <- (Nat.add_0_r i), <- lookup_drop, Hm. done. }
    unfold list_getitem. rewrite Hi, Hg. unfold check_in_range.
    destruct (check_in_range_rows _ _ _) as [inRange gid] eqn:Hrows.
    assert (Hin : inRange = existsb (in_range_of (now + 60 * step) sat) frame).
    { pose proof (check_in_range_rows_existsb (now + 60 * step) sat frame 0) as E.
      cbn [Nat.add] in E. unfold iterrows in Hrows. by rewrite Hrows in E. }
    cbn [length] in Hflags. rewrite bool_decide_true by lia.
    rewrite (IH (S i) mins); cbn [time_status_step isInRange sent length]; try done.
    + f_equal. f_equal.
      * rewrite drop_insert_lt by lia.
        rewrite (take_S_r _ _ inRange) by (apply list_lookup_insert_eq; lia).
        rewrite take_insert_ge by lia.
        rewrite <- app_assoc. cbn [fmap list_fmap app].
        replace (i + S (length sats)) with (S i + length sats) by lia. by rewrite Hin.
      * rewrite <- app_assoc. f_equal. cbn [zip zip_with]. rewrite imap_cons.
        cbn [app]. f_equal.
        -- unfold status_of. rewrite Nat.add_0_r. by rewrite Hin.
        -- apply imap_ext. intros k [s m'] _. cbn. f_equal. lia.
    + rewrite <- (Nat.add_1_r i), <- drop_drop, Hm. done.
    + cbn in Hlen. lia.
    + rewrite length_insert. lia.
Qed.

(** X23: once [initialize] has been called, [publish_message] of a
    publisher with a step and one flag per satellite returns normally and
    sends one status message per satellite, in order: message i has id i,
    position, footprint radius and communication range taken at
    get_time() + 60 * step, the communication range being True exactly when
    some operational station of the registry is in range at that time, and
    the time stamp get_time(); the flags of the publisher become the
    communication ranges. *)
Theorem publish_message_after_initialize ns ES tles c0 ops p step :
  names_ok ns = true -> __init__ ns ES tles = Ok c0 ->
  existsb is_initialize ops = true ->
  time_status_step p = Some step ->
  length (isInRange p) = length (satellites c0) ->
  let c := run ops c0 in
  exists now frame,
    time c = Some now /\ grounds c = Some frame /\
    length (min_elevations_fire c) = length (satellites c) /\
    publish_message c p =
      (Ok tt,
       {| time_status_step := Some step;
          isInRange :=
            (fun sat => existsb (in_range_of (now + 60 * step) sat) frame) <$> satellites c;
          sent := sent p ++
                  imap (fun i '(sat, m) => status_of now step frame i sat m)
                       (zip (satellites c) (min_elevations_fire c)) |}).
Proof.
  intros Hok Hinit Hops Hstep Hlen c.
  pose proof (Inv_reached ns ES tles c0 ops Hok Hinit) as HI. fold c in HI.
  pose proof (time_None_iff ns ES tles c0 ops Hok Hinit) as Htime. fold c in Htime.
  pose proof (grounds_None_iff ns ES tles c0 ops Hinit) as Hgr. fold c in Hgr.
  destruct (time c) as [now|] eqn:Ht.
  2: { rewrite (proj1 Htime eq_refl) in Hops. done. }
  destruct (grounds c) as [frame|] eqn:Hg.
  2: { rewrite (proj1 Hgr eq_refl) in Hops. done. }
  pose proof (inv_min_len _ _ HI) as Hmin.
  assert (Hs : satellites c = satellites c0) by apply satellites_run.
  exists now, frame. split_and!; try done.
  unfold publish_message.
  rewrite (publish_from_spec c now step frame (satellites c) (min_elevations_fire c) 0 p);
    try done; [|cbn; rewrite Hlen, Hs; lia].
  cbn [Nat.add take app]. rewrite drop_ge by (rewrite Hlen, Hs; lia). by rewrite app_nil_r.
Qed.

(** X24: before [initialize], [publish_message] raises TypeError without
    sending anything or changing the publisher, unless the constellation has
    no satellite. *)
Theorem publish_message_before_initialize ns ES tles c0 ops p :
  names_ok ns = true -> __init__ ns ES tles = Ok c0 ->
  existsb is_initialize ops = false ->
  let c := run ops c0 in
  publish_message c p =
    if bool_decide (satellites c = []) then (Ok tt, p) else (Raise TypeError, p).
Proof.
  intros Hok Hinit Hops c.
  pose proof (time_None_iff ns ES tles c0 ops Hok Hinit) as Htime. fold c in Htime.
  unfold publish_message. destruct (satellites c) as [|sat sats]; [done|].
  cbn [publish_from]. by rewrite (proj2 Htime Hops).
Qed.

End proofs.
End PublisherFacts.

Module FireAppFacts.
Import Firesat FireApp.
Section proofs.
Context `{Ext : External}.







End proofs.
End FireAppFacts.

(** ** Further worked scenarios *)

Module MoreScenarioFacts.
Import Firesat Scenario Behaviour Publisher FireApp StatusScenario.
Import FiresatFacts BehaviourFacts DetectionFacts PublisherFacts FireAppFacts.

(** X11 (witness): one operational station in range, in row 0. *)
Lemma check_in_range_first_match_witness :
  exists k ground,
    VInt 0 = VInt (Z.of_nat k) /\ [station always 7 true] !! k = Some ground /\
    @in_range_of (sky always) 1 0 ground = true /\
    forall k' ground', k' < k -> [station always 7 true] !! k' = Some ground' ->
                       @in_range_of (sky always) 1 0 ground' = false.
Proof.
  refine (@check_in_range_first_match (sky always) 1 0 [station always 7 true]
            true (VInt 0) _).
  vm_compute. reflexivity.
Defined.

(** X12 (witness): one operational station with groundId 0, in row 0. *)
Lemma check_in_range_returns_groundId_witness :
  exists ground, ground ∈ [station always 0 true] /\
    VInt 0 = VInt (groundId ground) /\ @in_range_of (sky always) 1 0 ground = true.
Proof.
  refine (@check_in_range_returns_groundId (sky always) 1 0 [station always 0 true]
            (VInt 0) _ _).
  - intros [|k] ground Hk; [by inversion Hk|done].
  - vm_compute. reflexivity.
Defined.

(** X13 (witness): a second station with groundId 1 joins the station 0. *)
Lemma on_ground_keeps_ids_in_order_witness :
  exists frame',
    grounds (on_ground (station always 1 true)
               (run (with_station_0 always) (start_state always))).2 = Some frame' /\
    (ids_in_order frame' <-> (0 <= 1 <= Z.of_nat 1)%Z).
Proof.
  refine (@on_ground_keeps_ids_in_order (sky always)
            (run (with_station_0 always) (start_state always))
            [station always 0 true] (station always 1 true) _ _).
  - vm_compute. reflexivity.
  - intros [|k] ground Hk; [by inversion Hk|done].
Defined.

(** X17 (witness): the first tick after a station and a fire have arrived. *)
Lemma tick_returns_iff_witness :
  (tick 1 (run (before_first_step always) (start_state always))).1 = Ok tt <->
  existsb is_initialize (before_first_step always) = true /\
  (fires (run (before_first_step always) (start_state always)) = [] \/
   length (satellites (run (before_first_step always) (start_state always)))
     <= length two_names).
Proof.
  refine (@tick_returns_iff (sky always) two_names (Some [0; 1]) None
            (start_state always) (before_first_step always) 1%Z _ _).
  - vm_compute. reflexivity.
  - vm_compute. reflexivity.
Defined.

(** X22 (witness): satellite 0 at the first tick. *)
Lemma tick_refreshes_min_elevations_witness :
  exists fr, @FIELD_OF_REGARD (sky always) !! 0 = Some fr /\
    min_elevations_fire (tick 1 (run (before_first_step always) (start_state always))).2 !! 0 =
      Some (compute_min_elevation (elevation_m (@subpoint_at (sky always) 0 (0 + 1))) fr).
Proof.
  refine (@tick_refreshes_min_elevations (sky always) two_names (Some [0; 1]) None
            (start_state always) (before_first_step always) 1%Z
            (tick 1 (run (before_first_step always) (start_state always))).2 0%Z
            _ _ _ _ 0 0 _).
  - vm_compute. reflexivity.
  - vm_compute. reflexivity.
  - vm_compute. reflexivity.
  - vm_compute. reflexivity.
  - vm_compute. reflexivity.
Defined.

(** X21 (witness): satellite 0 sees the fire and the station at the first tick. *)
Lemma tick_reports_when_in_range_witness :
  exists r',
    report (tick 1 (run (before_first_step always) (start_state always))).2 !! 0 = Some r' /\
    r' !! KInt 39634 = Some (VTime (0 + 1)).
Proof.
  eapply (@tick_reports_when_in_range (sky always) two_names (Some [0; 1]) None
            (start_state always) (before_first_step always) 1%Z
            (tick 1 (run (before_first_step always) (start_state always))).2 0%Z
            [station always 7 true] 0 0 (KInt 39634) 0).
  - vm_compute. reflexivity.
  - vm_compute. reflexivity.
  - vm_compute. reflexivity.
  - vm_compute. reflexivity.
  - vm_compute. reflexivity.
  - vm_compute. reflexivity.
  - vm_compute. reflexivity.
  - vm_compute. reflexivity.
  - vm_compute. reflexivity.
  - right. vm_compute. reflexivity.
  - vm_compute. reflexivity.
  - vm_compute. reflexivity.
Defined.

(** X9 (witness): a station, a tick and a tock after [initialize]. *)
Lemma grounds_append_only_witness :
  exists more,
    grounds (run [OpGround (station always 7 true); OpTick 1; OpTock]
               (run [OpInitialize 0] (start_state always))) = Some ([] ++ more) /\
    sublist more (ground_messages [OpGround (station always 7 true); OpTick 1; OpTock]).
Proof.
  refine (@grounds_append_only (sky always)
            [OpGround (station always 7 true); OpTick 1; OpTock]
            (run [OpInitialize 0] (start_state always)) [] _ _).
  - vm_compute. reflexivity.
  - vm_compute. reflexivity.
Defined.

(** X10 (witness): a ground message that arrives before [initialize]. *)
Lemma on_ground_needs_initialize_witness :
  on_ground (station always 7 true) (run [OpFire (fire always 1)] (start_state always)) =
    (Raise AttributeError, run [OpFire (fire always 1)] (start_state always)).
Proof.
  refine (@on_ground_needs_initialize (sky always) two_names (Some [0; 1]) None
            (start_state always) [OpFire (fire always 1)] (station always 7 true) _).
  vm_compute. reflexivity.
Defined.

(** X14 (witness): the records of the fire after two steps with a station. *)
Lemma report_needs_own_detection_witness :
  non_null (default ∅ (detect reached !! 0) !! KInt 39634) /\
  non_null (default ∅ (detect reached !! 0) !! KStr "firstDetector") /\
  non_null (default ∅ (report reached !! 0) !! KStr "firstReporter").
Proof.
  refine (@report_needs_own_detection (sky always) two_names (Some [0; 1]) None
            (start_state always) (two_steps_with_station always) _ _
            0 (default ∅ (detect reached !! 0)) (default ∅ (report reached !! 0))
            (KInt 39634) _ _ _ _).
  - vm_compute. reflexivity.
  - vm_compute. reflexivity.
  - vm_compute. reflexivity.
  - vm_compute. reflexivity.
  - apply list_elem_of_here.
  - exists (VTime 1). split; [vm_compute; reflexivity|done].
Defined.

(** X15 (witness): the report timestamp of satellite 39634 is still 1 after a third step. *)
Lemma report_entries_written_once_witness :
  exists r',
    report (run [OpTick 1; OpTock] reached) !! 0 = Some r' /\
    r' !! KInt 39634 = Some (VTime 1).
Proof.
  assert (Hok : names_ok two_names = true) by (vm_compute; reflexivity).
  assert (Hinit : @__init__ (sky always) two_names (Some [0; 1]) None =
                  Ok (start_state always)) by (vm_compute; reflexivity).
  assert (Hr : report (run (two_steps_with_station always) (start_state always)) !! 0 =
               Some (default ∅ (report reached !! 0))) by (vm_compute; reflexivity).
  destruct (@report_entries_written_once (sky always) two_names (Some [0; 1]) None
              (start_state always) (two_steps_with_station always) Hok Hinit
              [OpTick 1; OpTock] 0 (default ∅ (report reached !! 0)) Hr)
    as (r' & Hr' & Hkeep & _).
  exists r'. split; [exact Hr'|].
  apply (Hkeep (KInt 39634) (VTime 1)).
  - apply list_elem_of_here.
  - done.
  - vm_compute. reflexivity.
Defined.

(** X18 (witness): one step with a station that is out of service. *)
Lemma no_report_without_operational_station_witness :
  (forall e, e ∈ notified (run (one_step_station_down always) (start_state always)) ->
             exists fid t by_, e = FireDetected fid t by_) /\
  (forall j r, report (run (one_step_station_down always) (start_state always)) !! j = Some r ->
               r !! KStr "firstReporter" = Some VNone).
Proof.
  refine (@no_report_without_operational_station (sky always) two_names (Some [0; 1]) None
            (start_state always) (one_step_station_down always) _ _ _).
  - vm_compute. reflexivity.
  - vm_compute. reflexivity.
  - intros location Hin. apply list_elem_of_singleton in Hin. by subst.
Defined.


(** X16 (witness): the state after two steps with a station. *)
Lemma positions_follow_the_clock_witness :
  positions_on_clock (run (two_steps_with_station always) (start_state always)).
Proof.
  refine (@positions_follow_the_clock (sky always) two_names (Some [0; 1]) None
            (start_state always) (two_steps_with_station always) _ _).
  - vm_compute. reflexivity.
  - vm_compute. reflexivity.
Defined.

(** X23 (witness): two satellites, one station, a step of one second. *)
Lemma publish_message_after_initialize_witness :
  exists now frame,
    time (run (with_station_0 always) (start_state always)) = Some now /\
    grounds (run (with_station_0 always) (start_state always)) = Some frame /\
    length (min_elevations_fire (run (with_station_0 always) (start_state always))) =
      length (satellites (run (with_station_0 always) (start_state always))) /\
    @publish_message (sky always) (sky_status always)
        (run (with_station_0 always) (start_state always)) (publisher always) =
      (Ok tt,
       {| time_status_step := Some 1%Z;
          isInRange :=
            (fun sat => existsb (in_range_of (now + 60 * 1) sat) frame) <$>
              satellites (run (with_station_0 always) (start_state always));
          sent := sent (publisher always) ++
                  imap (fun i '(sat, m) =>
                          @status_of (sky always) (sky_status always) now 1 frame i sat m)
                       (zip (satellites (run (with_station_0 always) (start_state always)))
                            (min_elevations_fire
                               (run (with_station_0 always) (start_state always)))) |}).
Proof.
  refine (@publish_message_after_initialize (sky always) (sky_status always)
            two_names (Some [0; 1]) None (start_state always) (with_station_0 always)
            (publisher always) 1%Z _ _ _ _ _).
  - vm_compute. reflexivity.
  - vm_compute. reflexivity.
  - vm_compute. reflexivity.
  - vm_compute. reflexivity.
  - vm_compute. reflexivity.
Defined.

(** X24 (witness): a publisher that fires before [initialize]. *)
Lemma publish_message_before_initialize_witness :
  @publish_message (sky always) (sky_status always)
      (run [OpFire (fire always 1)] (start_state always)) (publisher always) =
    if bool_decide (satellites (run [OpFire (fire always 1)] (start_state always)) = [])
    then (Ok tt, publisher always)
    else (Raise TypeError, publisher always).
Proof.
  refine (@publish_message_before_initialize (sky always) (sky_status always)
            two_names (Some [0; 1]) None (start_state always) [OpFire (fire always 1)]
            (publisher always) _ _ _).
  - vm_compute. reflexivity.
  - vm_compute. reflexivity.
  - vm_compute. reflexivity.
Defined.


(** C1 (witness): what the third tock appends after two steps with a
    station. *)
Lemma detected_at_every_tock_once_seen_witness :
  notified (tock (run (two_steps_with_station always) (start_state always))).2 =
    notified (run (two_steps_with_station always) (start_state always)) ++
    omap detected_event (detect (run (two_steps_with_station always) (start_state always))) ++
    omap reported_event (report (run (two_steps_with_station always) (start_state always))).
Proof.
  refine (proj1 (@detected_at_every_tock_once_seen (sky always) two_names (Some [0; 1]) None
                   (start_state always) (two_steps_with_station always) _ _)).
  - vm_compute. reflexivity.
  - vm_compute. reflexivity.
Defined.

(** C5 (witness): after two steps the detection record of the fire has a
    first detector and a timestamp. *)
Lemma first_detector_latched_witness :
  exists d,
    detect (run (two_steps_with_station always) (start_state always)) !! 0 = Some d /\
    (non_null (d !! KStr "firstDetector") <->
     exists n, n ∈ two_names /\ non_null (d !! n)).
Proof.
  eexists. split; [vm_compute; reflexivity|].
  refine (proj1 (@first_detector_latched (sky always) two_names (Some [0; 1]) None
                   (start_state always) (two_steps_with_station always) _ _) 0 _ _).
  - vm_compute. reflexivity.
  - vm_compute. reflexivity.
  - vm_compute. reflexivity.
Defined.

End MoreScenarioFacts.
